(** * Vocal visualizer: the offline spectrogram pipeline, the live rolling
      buffer, the heat-map renderer, the frequency chart and the voice
      analysis

    Shallow embedding of
      - [src/components/AudioAnalyzer.tsx]: [generateFullSpectrogram],
        [startRecording] (the analyser configuration),
        [updateFrequencyData], [performFFTAnalysis], [processAudioBlob]
        and [formatTime];
      - [src/components/Spectrogram.tsx]: the [canvasData] memo;
      - [src/components/FrequencyChart.tsx]: the [chartData] memo;
      - [src/components/VoiceAnalysis.tsx]: the [analysis] memo.

    Numbers.  A JavaScript number is an IEEE-754 double.  The embedding keeps
    the special values (NaN, +Infinity, -Infinity) and their arithmetic, and
    takes the finite values to be exact rationals: rounding, overflow to
    infinity and the sign of zero are left out.  Every statement below is a
    statement about that idealised arithmetic.  The functions of [Math] that
    ECMAScript leaves implementation-approximated ([cos], [sin], [sqrt],
    [pow]) are an interface; their behaviour on the special values, which
    the language fixes, is written out. *)

From Stdlib Require Import QArith Qround Qabs ZArith Lia Lqa List Permutation Sorted.
From Stdlib Require String Ascii DecimalString DecimalNat.
From stdpp Require Import base list.
From Equations Require Import Equations.
From Equations.Prop Require Import Logic.
Import ListNotations.

Close Scope Q_scope.

(** ** JavaScript numbers *)

Module JS.

Inductive number : Type :=
| Fin (q : Q)
| PInf
| NInf
| NaN.

Definition of_Z (z : Z) : number := Fin (inject_Z z).
Definition of_nat (n : nat) : number := of_Z (Z.of_nat n).

(** Sign of a rational as a [comparison] with zero. *)
Definition inf_of_sign (c : comparison) : number :=
  match c with
  | Gt => PInf
  | Lt => NInf
  | Eq => NaN
  end.

Definition neg (a : number) : number :=
  match a with
  | Fin x => Fin (- x)
  | PInf => NInf
  | NInf => PInf
  | NaN => NaN
  end.

Definition add (a b : number) : number :=
  match a, b with
  | NaN, _ | _, NaN => NaN
  | Fin x, Fin y => Fin (x + y)
  | PInf, NInf | NInf, PInf => NaN
  | PInf, _ | _, PInf => PInf
  | NInf, _ | _, NInf => NInf
  end.

Definition sub (a b : number) : number := add a (neg b).

Definition mul (a b : number) : number :=
  match a, b with
  | NaN, _ | _, NaN => NaN
  | Fin x, Fin y => Fin (x * y)
  | Fin x, PInf | PInf, Fin x => inf_of_sign (x ?= 0)%Q
  | Fin x, NInf | NInf, Fin x => inf_of_sign (0 ?= x)%Q
  | PInf, PInf | NInf, NInf => PInf
  | PInf, NInf | NInf, PInf => NInf
  end.

(** Division: a zero divisor is a positive zero, so [x / 0] is an infinity
    of the sign of [x], and [0 / 0] is NaN. *)
Definition div (a b : number) : number :=
  match a, b with
  | NaN, _ | _, NaN => NaN
  | Fin x, Fin y => if Qeq_bool y 0 then inf_of_sign (x ?= 0)%Q else Fin (x / y)
  | Fin _, (PInf | NInf) => Fin 0
  | PInf, Fin y => if Qle_bool 0 y then PInf else NInf
  | NInf, Fin y => if Qle_bool 0 y then NInf else PInf
  | (PInf | NInf), (PInf | NInf) => NaN
  end.

(** The relational operators: every comparison with NaN is [false]. *)
Definition lt (a b : number) : bool :=
  match a, b with
  | NaN, _ | _, NaN => false
  | Fin x, Fin y => match (x ?= y)%Q with Lt => true | _ => false end
  | NInf, (Fin _ | PInf) => true
  | Fin _, PInf => true
  | _, _ => false
  end.

Definition le (a b : number) : bool :=
  match a, b with
  | NaN, _ | _, NaN => false
  | Fin x, Fin y => match (x ?= y)%Q with Gt => false | _ => true end
  | NInf, _ => true
  | _, PInf => true
  | _, _ => false
  end.

Definition gt (a b : number) : bool := lt b a.
Definition ge (a b : number) : bool := le b a.

(** [ToBoolean] on a number: [0] and NaN are falsy. *)
Definition truthy (a : number) : bool :=
  match a with
  | Fin x => negb (Qeq_bool x 0)
  | NaN => false
  | PInf | NInf => true
  end.

(** [v || d] where [v] may be [undefined] (an index out of range). *)
Definition or_else (v : option number) (d : number) : number :=
  match v with
  | Some a => if truthy a then a else d
  | None => d
  end.

(** [ToNumber]: [undefined] becomes NaN. *)
Definition to_number (v : option number) : number :=
  match v with
  | Some a => a
  | None => NaN
  end.

Definition Math_min (a b : number) : number :=
  match a, b with
  | NaN, _ | _, NaN => NaN
  | _, _ => if lt b a then b else a
  end.

Definition Math_max (a b : number) : number :=
  match a, b with
  | NaN, _ | _, NaN => NaN
  | _, _ => if lt a b then b else a
  end.

Definition Math_floor (a : number) : number :=
  match a with
  | Fin x => of_Z (Qfloor x)
  | _ => a
  end.

(** [Math.PI] is the double nearest to pi: 884279719003555 * 2^-48. *)
Definition Math_PI : number := Fin (884279719003555 # 281474976710656).

(** [l[k]] for a numeric key: defined when [k] is a non-negative integer
    below the length. *)
Definition index {A : Type} (l : list A) (k : number) : option A :=
  match k with
  | Fin x =>
      if Qeq_bool x (inject_Z (Qfloor x)) && (0 <=? Qfloor x)%Z
      then l !! Z.to_nat (Qfloor x)
      else None
  | _ => None
  end.

(** [a.slice(b, e)] for [0 <= b]. *)
Definition slice {A : Type} (l : list A) (b e : nat) : list A :=
  take (e - b) (drop b l).

(** The part of [Math] that is implementation-approximated, on finite
    arguments. *)
Class MathObject : Type := {
  approx_cos : Q -> Q;
  approx_sin : Q -> Q;
  approx_sqrt : Q -> Q;
  approx_pow : Q -> Q -> Q
}.

Section MathFunctions.
Context {M : MathObject}.

Definition Math_cos (a : number) : number :=
  match a with
  | Fin x => Fin (approx_cos x)
  | _ => NaN
  end.

Definition Math_sin (a : number) : number :=
  match a with
  | Fin x => Fin (approx_sin x)
  | _ => NaN
  end.

Definition Math_sqrt (a : number) : number :=
  match a with
  | Fin x => if Qle_bool 0 x then Fin (approx_sqrt x) else NaN
  | PInf => PInf
  | _ => NaN
  end.

(** [Math.pow(base, exponent)] with a finite exponent, following
    Number::exponentiate: the cases of a NaN, infinite or zero base are
    fixed by the language; a negative base is NaN unless the exponent is an
    integer. *)
Definition is_integer (x : Q) : bool := Qeq_bool x (inject_Z (Qfloor x)).

Definition Math_pow (base exponent : number) : number :=
  match exponent with
  | NaN => NaN
  | Fin e =>
      if Qeq_bool e 0 then Fin 1 else
      match base with
      | NaN => NaN
      | PInf => if Qle_bool 0 e then PInf else Fin 0
      | NInf =>
          if Qle_bool 0 e
          then (if is_integer e && Z.odd (Qfloor e) then NInf else PInf)
          else Fin 0
      | Fin b =>
          if Qeq_bool b 0 then (if Qle_bool 0 e then Fin 0 else PInf)
          else if Qle_bool 0 b || is_integer e then Fin (approx_pow b e)
          else NaN
      end
  | PInf =>
      match base with
      | NaN => NaN
      | PInf | NInf => PInf
      | Fin b =>
          if Qeq_bool (Qabs b) 1 then NaN
          else if Qle_bool (Qabs b) 1 then Fin 0 else PInf
      end
  | NInf =>
      match base with
      | NaN => NaN
      | PInf | NInf => Fin 0
      | Fin b =>
          if Qeq_bool (Qabs b) 1 then NaN
          else if Qle_bool (Qabs b) 1 then PInf else Fin 0
      end
  end.

End MathFunctions.

End JS.

Import JS.

Declare Scope num_scope.
Delimit Scope num_scope with num.
Bind Scope num_scope with number.
Infix "+" := add : num_scope.
Infix "-" := sub : num_scope.
Infix "*" := mul : num_scope.
Infix "/" := div : num_scope.
Infix "<?" := lt : num_scope.
Infix "<=?" := le : num_scope.
Infix ">?" := gt : num_scope.

(** ** AudioAnalyzer.tsx *)

Module AudioAnalyzer.

Section Offline.
Context {M : MathObject}.

(** [generateFullSpectrogram], lines 192-193 and 210. *)
Definition windowSize : nat := 1024.
Definition hopSize : nat := 256.
Definition fftSize : nat := 128.

(** Lines 203-207: the Hamming window.  [windowedSegment] is a
    [Float32Array(windowSize)]: it always has [windowSize] entries, and an
    entry read past the end of [segment] is [undefined], whose product is
    NaN.  The rounding of each product to single precision is part of the
    rounding the embedding leaves out. *)
Definition windowValue (j : nat) : number :=
  (Fin (54 # 100) - Fin (46 # 100) *
    Math_cos (Fin 2 * Math_PI * of_nat j / (of_nat windowSize - Fin 1)))%num.

Definition windowedSegment (segment : list number) : list number :=
  map (fun j => (to_number (segment !! j) * windowValue j)%num)
      (seq 0 windowSize).

(** Lines 214-221: the accumulation of one bin, [t] from [0] below
    [windowSize]. *)
Definition accumulate (windowed : list number) (freq : number)
    (acc : number * number) (t : nat) : number * number :=
  let angle := (Fin (-2) * Math_PI * freq * of_nat t)%num in
  ((fst acc + to_number (windowed !! t) * Math_cos angle)%num,
   (snd acc + to_number (windowed !! t) * Math_sin angle)%num).

(** Lines 213-226: one entry of [frequencies]. *)
Definition frequencyBin (windowed : list number) (f : nat) : number :=
  let freq := (of_nat f / of_nat fftSize)%num in
  let acc := fold_left (accumulate windowed freq) (seq 0 windowSize)
               (Fin 0, Fin 0) in
  let real := fst acc in
  let imag := snd acc in
  let magnitude := (Math_sqrt (real * real + imag * imag) / of_nat windowSize)%num in
  Math_min (Fin 1) (magnitude * Fin 10)%num.

Definition frequencies (windowed : list number) : list number :=
  map (frequencyBin windowed) (seq 0 fftSize).

(** Lines 200-228: the row pushed for the frame at offset [i]. *)
Definition frameRow (audioData : list number) (i : nat) : list number :=
  let segment := slice audioData i (i + windowSize) in
  frequencies (windowedSegment segment).

(** Line 199: [for (let i = 0; i < audioData.length - windowSize; i += hopSize)].
    The subtraction is on numbers, so it is negative for a short input.  The
    timer await of lines 231-233 suspends the loop and changes no variable;
    it is not modelled. *)
Definition loopCondition (audioData : list number) (i : nat) : bool :=
  (Z.of_nat i <? Z.of_nat (length audioData) - Z.of_nat windowSize)%Z.

Equations? frameLoop (audioData : list number) (i : nat)
    (spectrogramResult : list (list number)) : list (list number)
    by wf (length audioData - i) Nat.lt :=
frameLoop audioData i spectrogramResult with inspect (loopCondition audioData i) := {
  | exist _ true Hc =>
      frameLoop audioData (i + hopSize)
        (spectrogramResult ++ [frameRow audioData i]);
  | exist _ false _ => spectrogramResult
}.
Proof.
  unfold loopCondition, windowSize, hopSize in *.
  apply Z.ltb_lt in Hc. lia.
Qed.

(** Lines 191-238.  [sampleRate] is a parameter of the source function. *)
Definition generateFullSpectrogram (audioData : list number)
    (sampleRate : number) : list (list number) :=
  frameLoop audioData 0 [].

End Offline.

(** *** The live path *)

(** The analyser node of the Web Audio interface, as far as the component
    uses it: its FFT size, and the byte spectrum it currently holds (one
    byte per bin), which the page does not control. *)
Record AnalyserNode : Type := {
  analyser_fftSize : nat;
  analyser_smoothing : Q;
  analyser_bytes : list Z
}.

(** [AnalyserNode.frequencyBinCount] is half the FFT size. *)
Definition frequencyBinCount (a : AnalyserNode) : nat :=
  analyser_fftSize a / 2.

(** [getByteFrequencyData(array)]: the bins are copied over the front of
    [array]; bins beyond its length are dropped, entries beyond the bins are
    left as they were. *)
Definition getByteFrequencyData (a : AnalyserNode) (array : list Z) : list Z :=
  take (length array) (analyser_bytes a) ++ drop (length (analyser_bytes a)) array.

(** [startRecording], lines 108-110: the analyser the component creates,
    over the byte spectrum [bytes] of the microphone stream. *)
Definition createAnalyser (bytes : list Z) : AnalyserNode :=
  {| analyser_fftSize := 2048;
     analyser_smoothing := 8 # 10;
     analyser_bytes := bytes |}.

(** The state [updateFrequencyData] reads and writes: two refs and two
    pieces of React state, and the [isRecording] flag. *)
Record State : Type := {
  analyserRef : option AnalyserNode;
  isRecording : bool;
  frequencyData : list number;
  spectrogramData : list (list number);
  realtimeSpectrogramRef : list (list number)
}.

(** Lines 140-145: [push], then [shift] when more than 200 are held. *)
Definition maxSlices : nat := 200.

Definition pushSlice (buffer : list (list number)) (spectrogramSlice : list number)
    : list (list number) :=
  let pushed := buffer ++ [spectrogramSlice] in
  if (maxSlices <? length pushed)%nat then tail pushed else pushed.

(** Lines 130-139: what one tick reads from the analyser. *)
Definition normalizedData (a : AnalyserNode) : list number :=
  let bufferLength := frequencyBinCount a in
  let dataArray := getByteFrequencyData a (replicate bufferLength 0%Z) in
  map (fun value => (of_Z value / Fin 255)%num) dataArray.

Definition spectrogramSlice (a : AnalyserNode) : list number :=
  slice (normalizedData a) 0 (frequencyBinCount a / 4).

(** Lines 128-154, one call.  The callback is a closure of the render
    that made it: the [spectrogramData.length] it tests on line 148 is the
    length that render saw, [capturedLength], whatever has been published
    since.  The request for the next animation frame is the caller's loop
    ([run] below). *)
Definition updateFrequencyDataWith (capturedLength : nat) (st : State)
    : State :=
  match analyserRef st, isRecording st with
  | Some a, true =>
      let buffer := pushSlice (realtimeSpectrogramRef st) (spectrogramSlice a) in
      {| analyserRef := analyserRef st;
         isRecording := isRecording st;
         frequencyData := normalizedData a;
         spectrogramData :=
           if (capturedLength =? 0)%nat then buffer
           else spectrogramData st;
         realtimeSpectrogramRef := buffer |}
  | _, _ => st
  end.

(** One call of the callback made by the render that sees [st]. *)
Definition updateFrequencyData (st : State) : State :=
  updateFrequencyDataWith (length (spectrogramData st)) st.

(** Between two animation frames the analyser takes a new spectrum. *)
Definition setBytes (bytes : list Z) (st : State) : State :=
  {| analyserRef :=
       match analyserRef st with
       | Some a =>
           Some {| analyser_fftSize := analyser_fftSize a;
                   analyser_smoothing := analyser_smoothing a;
                   analyser_bytes := bytes |}
       | None => None
       end;
     isRecording := isRecording st;
     frequencyData := frequencyData st;
     spectrogramData := spectrogramData st;
     realtimeSpectrogramRef := realtimeSpectrogramRef st |}.

(** A run of animation frames, one byte spectrum each.  Line 152 hands
    the callback itself to [requestAnimationFrame], so every frame of the
    run is a call of the same closure, with the length it captured. *)
Definition runWith (capturedLength : nat) (st : State)
    (spectra : list (list Z)) : State :=
  fold_left
    (fun s bytes => updateFrequencyDataWith capturedLength (setBytes bytes s))
    spectra st.

(** The run started by the callback of the render that sees [st]. *)
Definition run (st : State) (spectra : list (list Z)) : State :=
  runWith (length (spectrogramData st)) st spectra.

(** [onStart], lines 40-44, and [startRecording], lines 106-111, once the
    recorder reports that it records: the buffer is empty. *)
Definition recordingState (bytes : list Z) : State :=
  {| analyserRef := Some (createAnalyser bytes);
     isRecording := true;
     frequencyData := [];
     spectrogramData := [];
     realtimeSpectrogramRef := [] |}.

End AudioAnalyzer.

(** ** Spectrogram.tsx *)

Module Spectrogram.

Section Canvas.
Context {M : MathObject}.

(** Lines 29-30. *)
Definition width (spectrogramData : list (list number)) : nat :=
  length spectrogramData.

Definition height (spectrogramData : list (list number)) : nat :=
  match spectrogramData !! 0%nat with
  | Some row => length row
  | None => 0
  end.

(** [spectrogramData[x][y] || 0], lines 44 and 66. *)
Definition cell (spectrogramData : list (list number)) (x y : nat) : number :=
  or_else (spectrogramData !! x ≫= (fun row => row !! y)) (Fin 0).

(** Lines 38-49: the scan for the extremes and the positive values. *)
Record Scan : Type := {
  maxValue : number;
  minValue : number;
  allValues : list number
}.

Definition scanStart : Scan :=
  {| maxValue := Fin 0; minValue := PInf; allValues := [] |}.

Definition scanCell (s : Scan) (value : number) : Scan :=
  {| maxValue := if (value >? maxValue s)%num then value else maxValue s;
     minValue :=
       if (value <? minValue s)%num && (value >? Fin 0)%num
       then value else minValue s;
     allValues :=
       if (value >? Fin 0)%num then allValues s ++ [value] else allValues s |}.

Definition scan (spectrogramData : list (list number)) : Scan :=
  fold_left
    (fun s x =>
       fold_left (fun s' y => scanCell s' (cell spectrogramData x y))
                 (seq 0 (height spectrogramData)) s)
    (seq 0 (width spectrogramData)) scanStart.

(** Line 52: [allValues.sort((a, b) => a - b)].  The sort of an array is
    stable and follows the comparator: each element goes before the first
    one the comparator puts it strictly before. *)
Definition comparator (a b : number) : number := (a - b)%num.

Fixpoint insertSorted (x : number) (sorted : list number) : list number :=
  match sorted with
  | [] => [x]
  | y :: rest =>
      if (comparator x y <? Fin 0)%num then x :: y :: rest
      else y :: insertSorted x rest
  end.

Definition sort (values : list number) : list number :=
  fold_left (fun sorted x => insertSorted x sorted) values [].

(** Lines 53-54.  The factors are the rationals 95/100 and 5/100; the
    doubles 0.95 and 0.05 are within 2^-54 of them, relatively, and give
    the same floor for every length an array can have. *)
Definition percentile (sorted : list number) (fraction : Q) (fallback : number)
    : number :=
  or_else
    (index sorted (Math_floor (of_nat (length sorted) * Fin fraction)%num))
    fallback.

Definition p95 (spectrogramData : list (list number)) : number :=
  let s := scan spectrogramData in
  percentile (sort (allValues s)) (95 # 100) (maxValue s).

Definition p5 (spectrogramData : list (list number)) : number :=
  let s := scan spectrogramData in
  percentile (sort (allValues s)) (5 # 100) (minValue s).

(** Lines 69-76. *)
Definition normalizedMagnitude (p5 p95 rawMagnitude : number) : number :=
  if (rawMagnitude <=? Fin 0)%num then Fin 0
  else
    let clampedValue := Math_max p5 (Math_min p95 rawMagnitude) in
    ((clampedValue - p5) / (p95 - p5))%num.

(** Line 79. *)
Definition scaledMagnitude (normalized : number) : number :=
  Math_pow normalized (Fin (1 # 2)).

(** Lines 82-118: the colour of a scaled magnitude. *)
Record Color : Type := {
  red : number;
  green : number;
  blue : number;
  alpha : number
}.

Definition heatColor (scaled : number) : Color :=
  if (scaled <? Fin (1 # 100))%num then
    {| red := Fin 0; green := Fin 0;
       blue := Math_floor (scaled * Fin 2000)%num;
       alpha := Fin 255 |}
  else if (scaled <? Fin (25 # 100))%num then
    let t := (scaled / Fin (25 # 100))%num in
    {| red := Fin 0; green := Fin 0;
       blue := Math_floor (Fin 50 + t * Fin 155)%num;
       alpha := Fin 255 |}
  else if (scaled <? Fin (5 # 10))%num then
    let t := ((scaled - Fin (25 # 100)) / Fin (25 # 100))%num in
    {| red := Fin 0;
       green := Math_floor (t * Fin 180)%num;
       blue := Math_floor (Fin 205 - t * Fin 50)%num;
       alpha := Fin 255 |}
  else if (scaled <? Fin (75 # 100))%num then
    let t := ((scaled - Fin (5 # 10)) / Fin (25 # 100))%num in
    {| red := Math_floor (t * Fin 255)%num;
       green := Math_floor (Fin 180 + t * Fin 75)%num;
       blue := Math_floor (Fin 155 - t * Fin 155)%num;
       alpha := Fin 255 |}
  else
    let t := ((scaled - Fin (75 # 100)) / Fin (25 # 100))%num in
    {| red := Fin 255;
       green := Math_floor (Fin 255 - t * Fin 255)%num;
       blue := Fin 0;
       alpha := Fin 255 |}.

(** A store into a [Uint8ClampedArray]: NaN becomes 0, the value is
    clamped to 0..255 and rounded to the nearest integer, ties to even. *)
Definition roundHalfEven (q : Q) : Z :=
  let f := Qfloor q in
  match (q - inject_Z f ?= 1 # 2)%Q with
  | Lt => f
  | Gt => (f + 1)%Z
  | Eq => if Z.even f then f else (f + 1)%Z
  end.

Definition toUint8Clamp (a : number) : Z :=
  match a with
  | NaN => 0
  | NInf => 0
  | PInf => 255
  | Fin q => Z.max 0 (Z.min 255 (roundHalfEven q))
  end.

(** Lines 35 and 120-124.  A store outside a typed array is ignored. *)
Record ImageData : Type := {
  image_width : nat;
  image_height : nat;
  data : list Z
}.

Definition createImageData (w h : nat) : list Z := replicate (4 * w * h) 0%Z.

Definition putPixel (w : nat) (x y : nat) (c : Color) (d : list Z) : list Z :=
  let index := ((y * w + x) * 4)%nat in
  <[(index + 3)%nat := toUint8Clamp (alpha c)]>
    (<[(index + 2)%nat := toUint8Clamp (blue c)]>
      (<[(index + 1)%nat := toUint8Clamp (green c)]>
        (<[index := toUint8Clamp (red c)]> d))).

(** Lines 66-118: the colour computed for the pixel at column [x], row
    [y]. *)
Definition pixelColor (spectrogramData : list (list number)) (p5 p95 : number)
    (x y : nat) : Color :=
  let rawMagnitude := cell spectrogramData x (height spectrogramData - 1 - y) in
  heatColor (scaledMagnitude (normalizedMagnitude p5 p95 rawMagnitude)).

(** Lines 64-126. *)
Definition paint (spectrogramData : list (list number)) (p5 p95 : number)
    (d : list Z) : list Z :=
  fold_left
    (fun d' x =>
       fold_left
         (fun d'' y =>
            putPixel (width spectrogramData) x y
              (pixelColor spectrogramData p5 p95 x y) d'')
         (seq 0 (height spectrogramData)) d')
    (seq 0 (width spectrogramData)) d.

(** Lines 10-132.  [context2d] tells whether the canvas gave a 2D
    context.  The result is the image put on the canvas; its encoding as a
    data URL is the browser's. *)
Definition canvasData (context2d : bool) (spectrogramData : list (list number))
    : option ImageData :=
  if ((length spectrogramData =? 0) || (height spectrogramData =? 0))%nat
  then None
  else if negb context2d then None
  else
    let w := width spectrogramData in
    let h := height spectrogramData in
    Some {| image_width := w;
            image_height := h;
            data := paint spectrogramData (p5 spectrogramData)
                      (p95 spectrogramData) (createImageData w h) |}.

End Canvas.

End Spectrogram.

Import AudioAnalyzer Spectrogram.

(** ** Predicates on numbers *)

Definition finite (a : number) : Prop :=
  match a with
  | Fin _ => True
  | _ => False
  end.

(** A finite number between 0 and 1. *)
Definition in_unit (a : number) : Prop :=
  match a with
  | Fin q => (0 <= q /\ q <= 1)%Q
  | _ => False
  end.

(** Equality of numbers as JavaScript values: the same special value, or
    equal rationals. *)
Definition same_number (a b : number) : Prop :=
  match a, b with
  | Fin x, Fin y => (x == y)%Q
  | PInf, PInf | NInf, NInf | NaN, NaN => True
  | _, _ => False
  end.

(** What the embedding asks of the host's [Math]: a square root is not
    negative; the power one half maps (0,1] into [0,1] and is monotone. *)
Class MathLaws (M : MathObject) : Prop := {
  approx_sqrt_nonneg : forall q, (0 <= q -> 0 <= approx_sqrt q)%Q;
  approx_pow_half_unit :
    forall q, (0 < q -> q <= 1 ->
               0 <= approx_pow q (1 # 2) /\ approx_pow q (1 # 2) <= 1)%Q;
  approx_pow_half_mono :
    forall a b, (0 < a -> a <= b ->
                 approx_pow a (1 # 2) <= approx_pow b (1 # 2))%Q
}.

(** ** A rational [Math] to run the model with

    Truncated Taylor polynomials for the cosine and the sine, a fixed-point
    square root with 30 fractional bits, and a power that is that root for
    the exponent one half and the integer power of the integer part of the
    exponent otherwise (the program raises to one half only). *)

Module Reference.

Definition cosQ (x : Q) : Q :=
  (1 - x * x / 2 + x * x * x * x / 24 - x * x * x * x * x * x / 720)%Q.

Definition sinQ (x : Q) : Q :=
  (x - x * x * x / 6 + x * x * x * x * x / 120)%Q.

Definition scale : positive := (2 ^ 30)%positive.

Definition sqrtQ (x : Q) : Q :=
  Qmake (Z.sqrt (Qfloor (x * inject_Z (Z.pos scale * Z.pos scale)))) scale.

Definition powQ (b e : Q) : Q :=
  if Qeq_bool e (1 # 2) then sqrtQ b else Qpower b (Qfloor e).

#[export] Instance math : MathObject := {|
  approx_cos := cosQ;
  approx_sin := sinQ;
  approx_sqrt := sqrtQ;
  approx_pow := powQ
|}.

End Reference.

(** ** The number of frames, in closed form *)

(** The iterations of the loop of line 199 that remain at offset [i]. *)
Definition remaining (len i : nat) : nat :=
  if (i + windowSize <? len)%nat then (len - windowSize - 1 - i) / hopSize + 1
  else 0.

Definition rowCount (len : nat) : nat := remaining len 0.

(** ** Definitions for the statements *)

(** A number that is NaN, +Infinity or a rational that is not negative:
    the shape of a sum of squares and of its root. *)
Definition nonnegative_or_nan (a : number) : Prop :=
  match a with
  | Fin q => (0 <= q)%Q
  | PInf | NaN => True
  | NInf => False
  end.

(** Spec 4.2 in its own words: the two sums over [t] in [0,N), and the
    magnitude [min(1, 10 * sqrt(real^2 + imag^2) / N)]. *)
Fixpoint sumTo (n : nat) (g : nat -> number) : number :=
  match n with
  | O => Fin 0
  | S n' => (sumTo n' g + g n')%num
  end.

Section SpecTransform.
Context {M : MathObject}.

Definition specAngle (f t : nat) : number :=
  (Fin (-2) * Math_PI * (of_nat f / of_nat fftSize) * of_nat t)%num.

Definition specReal (x : list number) (f : nat) : number :=
  sumTo windowSize (fun t => (to_number (x !! t) * Math_cos (specAngle f t))%num).

Definition specImag (x : list number) (f : nat) : number :=
  sumTo windowSize (fun t => (to_number (x !! t) * Math_sin (specAngle f t))%num).

Definition specMagnitude (x : list number) (f : nat) : number :=
  let real := specReal x f in
  let imag := specImag x f in
  Math_min (Fin 1)
    (Fin 10 * Math_sqrt (real * real + imag * imag) / of_nat windowSize)%num.

End SpecTransform.

(** The snapshot one animation frame appends when the analyser holds
    [bytes]. *)
Definition snapshot (bytes : list Z) : list number :=
  spectrogramSlice (createAnalyser bytes).

(** The cells the scan of lines 42-49 reads, in its order. *)
Definition cells (spectrogramData : list (list number)) : list number :=
  concat (map (fun x => map (cell spectrogramData x)
                            (seq 0 (height spectrogramData)))
              (seq 0 (width spectrogramData))).

Definition isPositive (value : number) : bool := (value >? Fin 0)%num.

(** The rational a finite number holds. *)
Definition val (a : number) : Q :=
  match a with
  | Fin q => q
  | _ => 0%Q
  end.

(** The sort of line 52 on the rationals of finite numbers. *)
Definition beforeQ (x y : Q) : bool :=
  match (x + - y ?= 0)%Q with
  | Lt => true
  | _ => false
  end.

Fixpoint insertQ (x : Q) (sorted : list Q) : list Q :=
  match sorted with
  | [] => [x]
  | y :: rest =>
      if beforeQ x y then x :: y :: rest else y :: insertQ x rest
  end.

Definition sortQ (values : list Q) : list Q :=
  fold_left (fun sorted x => insertQ x sorted) values [].

(** The number of entries below, and not above, a threshold. *)
Fixpoint count_lt (t : Q) (l : list Q) : nat :=
  match l with
  | [] => 0
  | a :: rest => (if Qlt_le_dec a t then 1 else 0) + count_lt t rest
  end.

Fixpoint count_le (t : Q) (l : list Q) : nat :=
  match l with
  | [] => 0
  | a :: rest => (if Qlt_le_dec t a then 0 else 1) + count_le t rest
  end.

(** [floor(n * p/100)] as a position. *)
Definition rank (n : nat) (p : positive) : nat :=
  Z.to_nat (Z.of_nat n * Z.pos p / 100).

(** The positive values of a matrix of finite numbers, as rationals, in
    the order of the scan. *)
Definition positives (spectrogramData : list (list number)) : list Q :=
  map val (List.filter isPositive (cells spectrogramData)).

(** The two percentiles of a matrix of finite numbers with a positive
    entry. *)
Definition q5 (spectrogramData : list (list number)) : Q :=
  let a := positives spectrogramData in
  nth (rank (length a) 5) (sortQ a) 0%Q.

Definition q95 (spectrogramData : list (list number)) : Q :=
  let a := positives spectrogramData in
  nth (rank (length a) 95) (sortQ a) 0%Q.

(** The entry of the normalized spectrogram at column [x], bin [y]: what
    lines 66-79 compute from the raw cell. *)
Definition normalizedAt {M : MathObject}
    (spectrogramData : list (list number)) (x y : nat)
    : number :=
  scaledMagnitude
    (normalizedMagnitude (p5 spectrogramData) (p95 spectrogramData)
       (cell spectrogramData x y)).

(** [spectrogramData[x][y] = v]. *)
Definition setCell (spectrogramData : list (list number)) (x y : nat)
    (v : number) : list (list number) :=
  alter (fun row => <[y := v]> row) x spectrogramData.

(** The channel [k] (0 red, 1 green, 2 blue, 3 alpha) of a colour, as the
    byte stored. *)
Definition channel (k : nat) (c : Color) : Z :=
  match k with
  | 0 => toUint8Clamp (red c)
  | 1 => toUint8Clamp (green c)
  | 2 => toUint8Clamp (blue c)
  | _ => toUint8Clamp (alpha c)
  end.

(** The inner loop of lines 65-125 for the column [x], over rows [s] to
    [s + n - 1]. *)
Definition paintColumn (w : nat) (color : nat -> nat -> Color)
    (x s n : nat) (d : list Z) : list Z :=
  fold_left (fun d'' y => putPixel w x y (color x y) d'') (seq s n) d.

(** The outer loop of lines 64-126, over columns [s] to [s + n - 1]. *)
Definition paintColumns (w : nat) (color : nat -> nat -> Color)
    (h s n : nat) (d : list Z) : list Z :=
  fold_left (fun d' x => paintColumn w color x 0 h d') (seq s n) d.

(** A constant signal: the two percentiles are both 1/2. *)
Definition constantSignal : list (list number) :=
  [[Fin (1 # 2); Fin (1 # 2)]; [Fin (1 # 2); Fin (1 # 2)]].

(** Two time steps of two bins. *)
Definition smallSpectrogram : list (list number) :=
  [[Fin (1 # 4); Fin (1 # 2)]; [Fin (3 # 4); Fin 1]].

(** ** AudioAnalyzer.tsx, the analysis of the recording *)

Module FFTAnalysis.

Section Segment.
Context {M : MathObject}.

(** [performFFTAnalysis], lines 242-244: a segment from the middle of the
    recording.  The lengths are integers, so the floor of the half is the
    integer division that rounds down. *)
Definition segmentSize : nat := 4096.

Definition startIndex (audioData : list number) : nat :=
  Z.to_nat
    (Z.max 0 ((Z.of_nat (length audioData) - Z.of_nat segmentSize) / 2)).

Definition segment (audioData : list number) : list number :=
  slice audioData (startIndex audioData) (startIndex audioData + segmentSize).

(** Lines 247-250: the Hamming window of [segmentSize] points, applied to
    the entries the segment has. *)
Definition windowValue (index : nat) : number :=
  (Fin (54 # 100) - Fin (46 # 100) *
    Math_cos (Fin 2 * Math_PI * of_nat index / of_nat (segmentSize - 1)))%num.

Definition windowedSegment (audioData : list number) : list number :=
  imap (fun index value => (value * windowValue index)%num)
       (segment audioData).

(** Lines 254-255: [createBuffer] gives a channel of zeros, and
    [copyToChannel] writes the source over its front. *)
Definition copyToChannel (source channel : list number) : list number :=
  take (length channel) source ++ drop (length source) channel.

Definition buffer (audioData : list number) : list number :=
  copyToChannel (windowedSegment audioData) (replicate segmentSize (Fin 0)).

End Segment.

(** Lines 257-258 and 264-272: the analyser of the offline context, with
    the byte spectrum [bytes] it holds when it is read, and the frequency
    data published. *)
Definition createAnalyser (bytes : list Z) : AnalyserNode :=
  {| analyser_fftSize := segmentSize;
     analyser_smoothing := 8 # 10;
     analyser_bytes := bytes |}.

Definition normalizedFrequencyData (bytes : list Z) : list number :=
  let analyser := createAnalyser bytes in
  let frequencyData := replicate (frequencyBinCount analyser) 0%Z in
  map (fun value => (of_Z value / Fin 255)%num)
      (getByteFrequencyData analyser frequencyData).

End FFTAnalysis.

(** [processAudioBlob], lines 168-180, on the decoded channel and when
    nothing throws: the frequency data of the analysis and the full
    spectrogram replace what the live path published.  [bytes] is the byte
    spectrum the offline analyser holds when it is read. *)
Definition processAudioBlob {M : MathObject} (channelData : list number)
    (sampleRate : number) (bytes : list Z) (st : State) : State :=
  {| analyserRef := analyserRef st;
     isRecording := isRecording st;
     frequencyData := FFTAnalysis.normalizedFrequencyData bytes;
     spectrogramData := generateFullSpectrogram channelData sampleRate;
     realtimeSpectrogramRef := realtimeSpectrogramRef st |}.

(** ** AudioAnalyzer.tsx, the recording clock *)

Module Clock.
Import Ascii String.

(** [Number.prototype.toString] on a natural number: its decimal
    digits. *)
Definition toString (n : nat) : string :=
  DecimalString.NilEmpty.string_of_uint (Nat.to_uint n).

Fixpoint repeatString (padString : string) (n : nat) : string :=
  match n with
  | O => EmptyString
  | S n' => append padString (repeatString padString n')
  end.

(** [s.padStart(targetLength, padString)]: the padding is [padString]
    repeated and cut to the missing length. *)
Definition padStart (targetLength : nat) (padString s : string) : string :=
  let missing := (targetLength - length s)%nat in
  append (substring 0 missing (repeatString padString missing)) s.

(** [formatTime], lines 277-281.  [seconds] is the recording time: it
    starts at 0 and a timer adds 1 to it (lines 41 and 47). *)
Definition formatTime (seconds : nat) : string :=
  let mins := (seconds / 60)%nat in
  let secs := (seconds mod 60)%nat in
  append (toString mins)
         (append ":"%string (padStart 2 "0"%string (toString secs))).

(** For the statements: a string without a colon. *)
Fixpoint noColon (s : string) : bool :=
  match s with
  | EmptyString => true
  | String c rest => negb (Ascii.eqb c ":"%char) && noColon rest
  end.

End Clock.

(** ** More of the host *)

(** [Math.round]: the integer nearest to the argument, a tie going up. *)
Definition Math_round (a : number) : number :=
  match a with
  | Fin x => of_Z (Qfloor (x + (1 # 2)))
  | _ => a
  end.

(** [Math.log10] is implementation-approximated on positive arguments. *)
Class MathLog : Type := {
  approx_log10 : Q -> Q
}.

Definition Math_log10 {G : MathLog} (a : number) : number :=
  match a with
  | Fin x =>
      match (x ?= 0)%Q with
      | Gt => Fin (approx_log10 x)
      | Eq => NInf
      | Lt => NaN
      end
  | PInf => PInf
  | _ => NaN
  end.

(** The values [i] takes in
    [for (let i = first; i <= last && i < n; i++)], where [first] is a
    floor: the integers from [first] up to [last] and below [n].  A
    comparison with NaN ends the loop at once.  ([first] is never
    -Infinity: it is the floor of a quotient that is not negative.) *)
Definition loopIndices (first last : number) (n : nat) : list Z :=
  match first, last with
  | Fin a, Fin b =>
      seqZ (Qfloor a) (Z.min (Qfloor b) (Z.of_nat n - 1) - Qfloor a + 1)
  | Fin a, PInf => seqZ (Qfloor a) (Z.of_nat n - Qfloor a)
  | _, _ => []
  end.

(** [Array.prototype.sort] with a comparator: stable, each element going
    before the first one the comparator puts it strictly before. *)
Fixpoint insertBy {A : Type} (compare : A -> A -> number) (x : A)
    (sorted : list A) : list A :=
  match sorted with
  | [] => [x]
  | y :: rest =>
      if (compare x y <? Fin 0)%num then x :: y :: rest
      else y :: insertBy compare x rest
  end.

Definition sortBy {A : Type} (compare : A -> A -> number) (l : list A)
    : list A :=
  fold_left (fun sorted x => insertBy compare x sorted) l [].

(** ** FrequencyChart.tsx *)

Module FrequencyChart.

Section Chart.
Context {G : MathLog}.

Record Point : Type := {
  frequency : number;
  magnitude : number;
  db : number
}.

(** Line 15.  The quotient is the exact rational, which is the double the
    program computes when the number of bins is a power of two (1024 or
    2048 here); for other numbers of bins the product of line 18 can be
    rounded across a half and [Math.round] then differ by one hertz. *)
Definition binWidth (data : list number) : number :=
  (Fin 44100 / Fin 2 / of_nat (length data))%num.

(** Lines 17-21.  The length is an integer, so the floor of its quarter is
    the integer division. *)
Definition chartData (data : list number) : list Point :=
  let binWidth := binWidth data in
  List.filter (fun point => (frequency point <=? Fin 8000)%num)
    (imap (fun index magnitude =>
             {| frequency := Math_round (of_nat index * binWidth)%num;
                magnitude := magnitude;
                db := if (magnitude >? Fin 0)%num
                      then (Fin 20 * Math_log10 magnitude)%num
                      else Fin (-100) |})
          (slice data 0 (length data / 4))).

End Chart.

End FrequencyChart.

(** ** VoiceAnalysis.tsx *)

Module VoiceAnalysis.

Record Band : Type := {
  start : number;
  end_ : number;
  band_name : String.string;
  band_range : String.string;
  band_color : String.string
}.

Record FrequencyBand : Type := {
  name : String.string;
  range : String.string;
  value : number;
  color : String.string
}.

(** The object returned, lines 111-120, without its [description], which
    is text for display. *)
Record VoiceCharacteristics : Type := {
  fundamentalFrequency : number;
  voiceType : String.string;
  brightness : number;
  warmth : number;
  clarity : number;
  energy : number;
  dominantBands : list FrequencyBand
}.

Section Strings.
Import Ascii String.

(** Lines 36-44, in the order of the keys. *)
Definition bands : list (string * Band) :=
  [ ("subBass"%string,
     {| start := Fin 0; end_ := Fin 60; band_name := "Sub-bass";
        band_range := "20-60 Hz"; band_color := "bg-purple-500" |});
    ("bass"%string,
     {| start := Fin 60; end_ := Fin 250; band_name := "Bass";
        band_range := "60-250 Hz"; band_color := "bg-red-500" |});
    ("lowMid"%string,
     {| start := Fin 250; end_ := Fin 500; band_name := "Low-mid";
        band_range := "250-500 Hz"; band_color := "bg-orange-500" |});
    ("mid"%string,
     {| start := Fin 500; end_ := Fin 2000; band_name := "Midrange";
        band_range := "500-2000 Hz"; band_color := "bg-yellow-500" |});
    ("highMid"%string,
     {| start := Fin 2000; end_ := Fin 4000; band_name := "High-mid";
        band_range := "2000-4000 Hz"; band_color := "bg-green-500" |});
    ("presence"%string,
     {| start := Fin 4000; end_ := Fin 6000; band_name := "Presence";
        band_range := "4000-6000 Hz"; band_color := "bg-blue-500" |});
    ("brilliance"%string,
     {| start := Fin 6000; end_ := Fin 8000; band_name := "Brilliance";
        band_range := "6000+ Hz"; band_color := "bg-indigo-500" |}) ].

(** [o[key]] and [o.key] on an object held as its entries. *)
Definition get (o : list (string * number)) (key : string) : option number :=
  snd <$> List.find (fun entry => String.eqb (fst entry) key) o.

(** Lines 76-82. *)
Definition classify (fundamentalFreq : number) : string :=
  if (fundamentalFreq >? Fin 0)%num then
    if (fundamentalFreq <? Fin 165)%num then "Bass/Alto"
    else if (fundamentalFreq <? Fin 196)%num then "Baritone/Mezzo-soprano"
    else if (fundamentalFreq <? Fin 262)%num then "Tenor/Soprano"
    else "High voice/Falsetto"
  else "Unknown".

(** Line 33.  The quotient is the exact rational; it is the double the
    program computes when the number of bins is a power of two, as the
    analyser's is (1024 bins while recording, 2048 after the offline
    analysis).  The floors of lines 49-50 and 65-66 below are floors of
    exact quotients in the same way: for another number of bins the double
    division can fall one unit in the last place short of an integer
    quotient, and the program then stops one bin earlier than the
    embedding. *)
Definition binWidth (frequencyData : list number) : number :=
  (Fin 44100 / Fin 2 / of_nat (List.length frequencyData))%num.

(** Lines 49-59: the mean of the bins of a band. *)
Definition bandEnergy (frequencyData : list number) (band : Band) : number :=
  let binWidth := binWidth frequencyData in
  let startBin := Math_floor (start band / binWidth)%num in
  let endBin := Math_floor (end_ band / binWidth)%num in
  let acc :=
    fold_left
      (fun (acc : number * nat) i =>
         ((fst acc + to_number (JS.index frequencyData (of_Z i)))%num,
          S (snd acc)))
      (loopIndices startBin endBin (List.length frequencyData))
      (Fin 0, O) in
  let energy := fst acc in
  let count := snd acc in
  if (0 <? count)%nat then (energy / of_nat count)%num else Fin 0.

(** Lines 47-60. *)
Definition bandEnergies (frequencyData : list number)
    : list (string * number) :=
  map (fun entry => (fst entry, bandEnergy frequencyData (snd entry))) bands.

(** Lines 63-73: the state of the search is [fundamentalFreq] and
    [maxMagnitude]. *)
Definition peakStep (frequencyData : list number) (binWidth : number)
    (acc : number * number) (i : Z) : number * number :=
  let v := to_number (JS.index frequencyData (of_Z i)) in
  if (v >? snd acc)%num then ((of_Z i * binWidth)%num, v) else acc.

Definition fundamental (frequencyData : list number) : number * number :=
  let binWidth := binWidth frequencyData in
  let fundamentalStart := Math_floor (Fin 80 / binWidth)%num in
  let fundamentalEnd := Math_floor (Fin 800 / binWidth)%num in
  fold_left (peakStep frequencyData binWidth)
    (loopIndices fundamentalStart fundamentalEnd (List.length frequencyData))
    (Fin 0, Fin 0).

(** Lines 91-97, before the sort. *)
Definition bandList (frequencyData : list number) : list FrequencyBand :=
  map (fun entry =>
         {| name := band_name (snd entry);
            range := band_range (snd entry);
            value := to_number (get (bandEnergies frequencyData) (fst entry));
            color := band_color (snd entry) |})
      bands.

(** Lines 30-121. *)
Definition analysis (frequencyData : list number) : VoiceCharacteristics :=
  let bandEnergies := bandEnergies frequencyData in
  let fundamentalFreq := fst (fundamental frequencyData) in
  let voiceType := classify fundamentalFreq in
  let brightness :=
    ((to_number (get bandEnergies "presence") +
      to_number (get bandEnergies "brilliance")) / Fin 2)%num in
  let warmth :=
    ((to_number (get bandEnergies "bass") +
      to_number (get bandEnergies "lowMid")) / Fin 2)%num in
  let clarity := to_number (get bandEnergies "highMid") in
  let totalEnergy :=
    fold_left (fun sum val => (sum + val)%num) (map snd bandEnergies)
      (Fin 0) in
  let dominantBands :=
    slice
      (sortBy (fun a b => (value b - value a)%num) (bandList frequencyData))
      0 3 in
  {| fundamentalFrequency := Math_round fundamentalFreq;
     voiceType := voiceType;
     brightness := Math_min (brightness * Fin 100)%num (Fin 100);
     warmth := Math_min (warmth * Fin 100)%num (Fin 100);
     clarity := Math_min (clarity * Fin 100)%num (Fin 100);
     energy := Math_min (totalEnergy * Fin 20)%num (Fin 100);
     dominantBands := dominantBands |}.

End Strings.

End VoiceAnalysis.

(** A finite number between 0 and 100: the range of a meter. *)
Definition in_percent (a : number) : Prop :=
  match a with
  | Fin q => (0 <= q /\ q <= 100)%Q
  | _ => False
  end.

(** The magnitude of the bin [j] of a vector of finite magnitudes, as a
    rational. *)
Definition binValue (frequencyData : list number) (j : Z) : Q :=
  val (to_number (JS.index frequencyData (of_Z j))).

(** The value of the band [a] is not below that of [b]. *)
Definition notBelow (a b : VoiceAnalysis.FrequencyBand) : Prop :=
  (VoiceAnalysis.value a <? VoiceAnalysis.value b)%num = false.

(** The law the silence of a recording needs: the root of zero is
    zero. *)
Class MathZero (M : MathObject) : Prop := {
  approx_sqrt_zero : forall q, (q == 0 -> approx_sqrt q == 0)%Q
}.

(** * Facts *)

(** ** The reference [Math] obeys the laws *)

Lemma reference_sqrt_nonneg (q : Q) : (0 <= Reference.sqrtQ q)%Q.
Proof.
  unfold Reference.sqrtQ, Qle; cbn [Qnum Qden].
  pose proof (Z.sqrt_nonneg (Qfloor (q * inject_Z (Z.pos Reference.scale * Z.pos Reference.scale)))).
  lia.
Qed.

Lemma reference_sqrt_mono (a b : Q) :
  (a <= b)%Q -> (Reference.sqrtQ a <= Reference.sqrtQ b)%Q.
Proof.
  intros Hab. unfold Reference.sqrtQ, Qle; cbn [Qnum Qden].
  apply Z.mul_le_mono_nonneg_r; [lia|].
  apply Z.sqrt_le_mono, Qfloor_resp_le.
  apply Qmult_le_compat_r; [exact Hab|]. unfold Qle; cbn [Qnum Qden inject_Z]; lia.
Qed.

Lemma reference_sqrt_one : (Reference.sqrtQ 1 == 1)%Q.
Proof. vm_compute. reflexivity. Qed.

#[export] Instance reference_laws : MathLaws Reference.math.
Proof.
  split; simpl.
  - intros q _. apply reference_sqrt_nonneg.
  - intros q _ Hq. unfold Reference.powQ.
    change (Qeq_bool (1 # 2) (1 # 2)) with true; cbv iota. split.
    + apply reference_sqrt_nonneg.
    + rewrite <- reference_sqrt_one. now apply reference_sqrt_mono.
  - intros a b _ Hab. unfold Reference.powQ.
    change (Qeq_bool (1 # 2) (1 # 2)) with true; cbv iota.
    now apply reference_sqrt_mono.
Qed.

(** ** [generateFullSpectrogram] *)

Section Builder.
Context {M : MathObject}.

Lemma frameLoop_unfold_if (audioData : list number) (i : nat)
    (acc : list (list number)) :
  frameLoop audioData i acc =
  if loopCondition audioData i
  then frameLoop audioData (i + hopSize) (acc ++ [frameRow audioData i])
  else acc.
Proof.
  rewrite frameLoop_unfold_eq. unfold frameLoop_unfold.
  destruct (inspect (loopCondition audioData i)) as [[] e];
    cbn [frameLoop_unfold_clause_1]; rewrite e; reflexivity.
Qed.

Lemma loopCondition_true (audioData : list number) (i : nat) :
  loopCondition audioData i = true <-> i + windowSize < length audioData.
Proof.
  unfold loopCondition. rewrite Z.ltb_lt. lia.
Qed.

Lemma remaining_step (len i : nat) :
  i + windowSize < len ->
  remaining len i = S (remaining len (i + hopSize)).
Proof.
  unfold remaining, windowSize, hopSize. intros Hi.
  destruct (Nat.ltb_spec (i + 1024) len) as [_|]; [|lia].
  destruct (Nat.ltb_spec (i + 256 + 1024) len) as [Hn|Hn].
  - replace (len - 1024 - 1 - i) with ((len - 1024 - 1 - (i + 256)) + 1 * 256) by lia.
    rewrite Nat.div_add by lia. lia.
  - rewrite Nat.div_small by lia. lia.
Qed.

Lemma remaining_stop (len i : nat) :
  ~ i + windowSize < len -> remaining len i = 0.
Proof.
  unfold remaining. intros Hi.
  destruct (Nat.ltb_spec (i + windowSize) len); [lia | reflexivity].
Qed.

(** The loop appends one row per remaining offset, in increasing order. *)
Lemma frameLoop_rows (audioData : list number) (i : nat)
    (acc : list (list number)) :
  frameLoop audioData i acc =
  acc ++ map (fun k => frameRow audioData (i + k * hopSize))
             (seq 0 (remaining (length audioData) i)).
Proof.
  remember (length audioData - i) as m eqn:Hm.
  revert i acc Hm. induction m as [m IH] using lt_wf_ind. intros i acc Hm.
  rewrite frameLoop_unfold_if.
  destruct (loopCondition audioData i) eqn:Hc.
  - apply loopCondition_true in Hc.
    rewrite (IH (length audioData - (i + hopSize))); [ | unfold hopSize, windowSize in *; lia | reflexivity].
    rewrite (remaining_step _ _ Hc).
    cbn [seq map]. rewrite <- seq_shift, map_map, <- app_assoc.
    cbn [app]. rewrite Nat.add_0_r. do 2 f_equal.
    apply map_ext. intros k. f_equal. cbn [Nat.mul]. lia.
  - rewrite remaining_stop.
    + cbn [seq map]. now rewrite app_nil_r.
    + rewrite <- loopCondition_true. congruence.
Qed.

Lemma generateFullSpectrogram_rows (audioData : list number) (sampleRate : number) :
  generateFullSpectrogram audioData sampleRate =
  map (fun k => frameRow audioData (k * hopSize))
      (seq 0 (rowCount (length audioData))).
Proof.
  unfold generateFullSpectrogram, rowCount. rewrite frameLoop_rows.
  reflexivity.
Qed.

Lemma generateFullSpectrogram_length (audioData : list number) (sampleRate : number) :
  length (generateFullSpectrogram audioData sampleRate) = rowCount (length audioData).
Proof.
  rewrite generateFullSpectrogram_rows. now rewrite length_map, length_seq.
Qed.

End Builder.

(** ** Arithmetic of numbers *)

Lemma lt_Fin (x y : Q) : lt (Fin x) (Fin y) = true <-> (x < y)%Q.
Proof.
  simpl. destruct (Qcompare_spec x y) as [H|H|H]; split; intros; try easy; lra.
Qed.

Lemma le_Fin (x y : Q) : le (Fin x) (Fin y) = true <-> (x <= y)%Q.
Proof.
  simpl. destruct (Qcompare_spec x y) as [H|H|H]; split; intros; try easy; lra.
Qed.

Lemma lt_Fin_false (x y : Q) : lt (Fin x) (Fin y) = false <-> (y <= x)%Q.
Proof.
  simpl. destruct (Qcompare_spec x y) as [H|H|H]; split; intros; try easy; lra.
Qed.

Lemma le_Fin_false (x y : Q) : le (Fin x) (Fin y) = false <-> (y < x)%Q.
Proof.
  simpl. destruct (Qcompare_spec x y) as [H|H|H]; split; intros; try easy; lra.
Qed.

Lemma div_Fin (x y : Q) : ~ (y == 0)%Q -> (Fin x / Fin y)%num = Fin (x / y).
Proof.
  intros Hy. simpl. destruct (Qeq_bool y 0) eqn:E; [|reflexivity].
  apply Qeq_bool_iff in E. contradiction.
Qed.

Lemma div_Fin_zero (x y : Q) :
  (y == 0)%Q -> (Fin x / Fin y)%num = inf_of_sign (x ?= 0)%Q.
Proof.
  intros Hy. simpl. destruct (Qeq_bool y 0) eqn:E; [reflexivity|].
  apply Qeq_bool_neq in E. contradiction.
Qed.

Lemma finite_add (a b : number) : finite a -> finite b -> finite (a + b)%num.
Proof. now destruct a, b. Qed.

Lemma finite_mul (a b : number) : finite a -> finite b -> finite (a * b)%num.
Proof. now destruct a, b. Qed.

Lemma finite_cos {M : MathObject} (a : number) : finite a -> finite (Math_cos a).
Proof. now destruct a. Qed.

Lemma finite_sin {M : MathObject} (a : number) : finite a -> finite (Math_sin a).
Proof. now destruct a. Qed.

Lemma Math_min_same (a b c : number) :
  same_number b c -> same_number (Math_min a b) (Math_min a c).
Proof.
  destruct a as [x| | |], b as [y| | |], c as [z| | |]; simpl; try easy;
    intros H.
  - destruct (Qcompare_spec y x), (Qcompare_spec z x); simpl; try lra; reflexivity.
Qed.

Lemma square_nonnegative (a : number) : nonnegative_or_nan (a * a)%num.
Proof.
  destruct a as [x| | |]; simpl; auto. nra.
Qed.

Lemma add_nonnegative (a b : number) :
  nonnegative_or_nan a -> nonnegative_or_nan b -> nonnegative_or_nan (a + b)%num.
Proof.
  destruct a, b; simpl; auto. lra.
Qed.

Lemma sqrt_nonnegative {M : MathObject} {L : MathLaws M} (a : number) :
  nonnegative_or_nan a -> nonnegative_or_nan (Math_sqrt a).
Proof.
  destruct a as [x| | |]; simpl; auto. intros Hx.
  destruct (Qle_bool 0 x); simpl; auto. now apply approx_sqrt_nonneg.
Qed.

Lemma div_positive_nonnegative (a : number) (y : Q) :
  (0 < y)%Q -> nonnegative_or_nan a -> nonnegative_or_nan (a / Fin y)%num.
Proof.
  intros Hy. destruct a as [x| | |]; try easy.
  - intros Hx. simpl in Hx. assert (Hne : ~ (y == 0)%Q) by (intros E; lra).
    rewrite div_Fin by exact Hne. simpl.
    apply Qle_shift_div_l; lra.
  - intros _. simpl. destruct (Qle_bool 0 y) eqn:E; [exact I|].
    assert (Qle_bool 0 y = true) by (apply Qle_bool_iff; lra). congruence.
Qed.

Lemma mul_positive_nonnegative (a : number) (y : Q) :
  (0 < y)%Q -> nonnegative_or_nan a -> nonnegative_or_nan (a * Fin y)%num.
Proof.
  intros Hy. destruct a as [x| | |]; simpl; try easy.
  - intros Hx. apply Qmult_le_0_compat; lra.
  - intros _. destruct (Qcompare_spec y 0); simpl; auto; lra.
Qed.

Lemma min_one_unit_or_nan (a : number) :
  nonnegative_or_nan a -> Math_min (Fin 1) a = NaN \/ in_unit (Math_min (Fin 1) a).
Proof.
  destruct a as [x| | |]; simpl; try easy; auto.
  - intros Hx. right. destruct (Qcompare_spec x 1); simpl; lra.
  - intros _. right. lra.
Qed.

(** ** The frame transform *)

Section Transform.
Context {M : MathObject}.

Lemma accumulate_sums (windowed : list number) (f n : nat) :
  fold_left (accumulate windowed (of_nat f / of_nat fftSize)%num) (seq 0 n)
    (Fin 0, Fin 0) =
  (sumTo n (fun t => (to_number (windowed !! t) * Math_cos (specAngle f t))%num),
   sumTo n (fun t => (to_number (windowed !! t) * Math_sin (specAngle f t))%num)).
Proof.
  induction n as [|n IH]; [reflexivity|].
  rewrite seq_S, fold_left_app, IH. reflexivity.
Qed.

Lemma frequencyBin_sums (windowed : list number) (f : nat) :
  frequencyBin windowed f =
  Math_min (Fin 1)
    (Math_sqrt (specReal windowed f * specReal windowed f +
                specImag windowed f * specImag windowed f) / of_nat windowSize
     * Fin 10)%num.
Proof.
  unfold frequencyBin. rewrite (accumulate_sums windowed f windowSize).
  cbv zeta. cbn [fst snd].
  reflexivity.
Qed.

Lemma gain_commutes (s : number) :
  same_number (s / of_nat windowSize * Fin 10)%num
              (Fin 10 * s / of_nat windowSize)%num.
Proof.
  destruct s as [x| | |]; try (vm_compute; exact I).
  cbn [mul]. unfold of_nat, of_Z.
  rewrite !div_Fin by (intros E; vm_compute in E; discriminate).
  cbn [mul same_number]. field. intros E; vm_compute in E; discriminate.
Qed.

(** The computed bin is the magnitude of the specification. *)
Lemma frequencyBin_specMagnitude (windowed : list number) (f : nat) :
  same_number (frequencyBin windowed f) (specMagnitude windowed f).
Proof.
  rewrite frequencyBin_sums. unfold specMagnitude.
  apply Math_min_same, gain_commutes.
Qed.

Lemma frequencies_length (windowed : list number) :
  length (frequencies windowed) = fftSize.
Proof. unfold frequencies. now rewrite length_map, length_seq. Qed.

Lemma frequencies_lookup (windowed : list number) (f : nat) :
  f < fftSize -> frequencies windowed !! f = Some (frequencyBin windowed f).
Proof.
  intros Hf. unfold frequencies.
  rewrite list_lookup_fmap_Some_2 with (x := f); [reflexivity|].
  now apply lookup_seq_lt.
Qed.

Lemma frequencies_lookup_Some (windowed : list number) (f : nat) (v : number) :
  frequencies windowed !! f = Some v ->
  f < fftSize /\ v = frequencyBin windowed f.
Proof.
  unfold frequencies. rewrite list_lookup_fmap, fmap_Some.
  intros (j & E & ->). apply lookup_seq in E as [-> Hf].
  split; [exact Hf | reflexivity].
Qed.

Lemma sumTo_finite (n : nat) (g : nat -> number) :
  (forall t, t < n -> finite (g t)) -> finite (sumTo n g).
Proof.
  induction n as [|n IH]; intros Hg; [exact I|].
  cbn [sumTo]. apply finite_add; [apply IH; intros; apply Hg; lia | apply Hg; lia].
Qed.

Lemma sumTo_nan (n : nat) (g : nat -> number) (t : nat) :
  t < n -> g t = NaN -> sumTo n g = NaN.
Proof.
  induction n as [|n IH]; intros Ht Hg; [lia|].
  cbn [sumTo]. destruct (Nat.eq_dec t n) as [->|Hne].
  - rewrite Hg. now destruct (sumTo n g).
  - rewrite IH by (assumption || lia). reflexivity.
Qed.

Lemma specAngle_finite (f t : nat) : finite (specAngle f t).
Proof.
  unfold specAngle, Math_PI, of_nat, of_Z.
  rewrite div_Fin by (intros E; vm_compute in E; discriminate).
  exact I.
Qed.

Lemma windowValue_finite (j : nat) : finite (windowValue j).
Proof.
  unfold windowValue, Math_PI, of_nat, of_Z. cbn [mul sub add neg].
  rewrite div_Fin by (intros E; vm_compute in E; discriminate).
  exact I.
Qed.

Section Laws.
Context {L : MathLaws M}.

(** Whatever the frame holds, a stored magnitude is NaN or lies in
    [0,1]: an infinite magnitude is clamped to 1, a NaN is kept. *)
Lemma frequencyBin_unit_or_nan (windowed : list number) (f : nat) :
  frequencyBin windowed f = NaN \/ in_unit (frequencyBin windowed f).
Proof.
  rewrite frequencyBin_sums. apply min_one_unit_or_nan.
  apply mul_positive_nonnegative; [lra|].
  apply div_positive_nonnegative; [vm_compute; reflexivity|].
  apply sqrt_nonnegative, add_nonnegative; apply square_nonnegative.
Qed.

Lemma frequencyBin_finite (windowed : list number) (f : nat) :
  (forall t, t < windowSize -> finite (to_number (windowed !! t))) ->
  finite (frequencyBin windowed f).
Proof.
  intros Hw. rewrite frequencyBin_sums.
  assert (Hr : finite (specReal windowed f)).
  { apply sumTo_finite. intros t Ht. apply finite_mul; [apply Hw; exact Ht|].
    apply finite_cos, specAngle_finite. }
  assert (Hi : finite (specImag windowed f)).
  { apply sumTo_finite. intros t Ht. apply finite_mul; [apply Hw; exact Ht|].
    apply finite_sin, specAngle_finite. }
  destruct (specReal windowed f) as [r| | |]; [|destruct Hr..].
  destruct (specImag windowed f) as [i| | |]; [|destruct Hi..].
  cbn [mul add Math_sqrt].
  assert (Hs : Qle_bool 0 (r * r + i * i) = true) by (apply Qle_bool_iff; nra).
  rewrite Hs. unfold of_nat, of_Z.
  rewrite div_Fin by (intros E; vm_compute in E; discriminate).
  cbn [mul Math_min]. destruct (lt _ _); exact I.
Qed.

Lemma frequencyBin_in_unit (windowed : list number) (f : nat) :
  (forall t, t < windowSize -> finite (to_number (windowed !! t))) ->
  in_unit (frequencyBin windowed f).
Proof.
  intros Hw. destruct (frequencyBin_unit_or_nan windowed f) as [E|H]; [|exact H].
  pose proof (frequencyBin_finite windowed f Hw) as Hf. rewrite E in Hf.
  destruct Hf.
Qed.

End Laws.

Lemma frequencyBin_nan (windowed : list number) (f t : nat) :
  t < windowSize -> windowed !! t = Some NaN -> frequencyBin windowed f = NaN.
Proof.
  intros Ht Hw. rewrite frequencyBin_sums.
  assert (Hr : specReal windowed f = NaN).
  { apply sumTo_nan with (t := t); [exact Ht|]. now rewrite Hw. }
  rewrite Hr. reflexivity.
Qed.

Lemma windowedSegment_length (segment : list number) :
  length (windowedSegment segment) = windowSize.
Proof. unfold windowedSegment. now rewrite length_map, length_seq. Qed.

Lemma windowedSegment_lookup (segment : list number) (j : nat) :
  j < windowSize ->
  windowedSegment segment !! j =
  Some (to_number (segment !! j) * windowValue j)%num.
Proof.
  intros Hj. unfold windowedSegment.
  rewrite list_lookup_fmap_Some_2 with (x := j); [reflexivity|].
  now apply lookup_seq_lt.
Qed.

Lemma slice_lookup (l : list number) (i j : nat) :
  j < windowSize -> slice l i (i + windowSize) !! j = l !! (i + j).
Proof.
  intros Hj. unfold slice.
  replace (i + windowSize - i) with windowSize by lia.
  rewrite lookup_take_lt by exact Hj. now rewrite lookup_drop.
Qed.

End Transform.

(** ** Rows of the offline spectrogram *)

Lemma windowSize_value : windowSize = 1024.
Proof. reflexivity. Qed.

Lemma hopSize_value : hopSize = 256.
Proof. reflexivity. Qed.

Lemma rowCount_short (len : nat) : len <= windowSize -> rowCount len = 0.
Proof.
  intros H. unfold rowCount. apply remaining_stop. lia.
Qed.

Lemma rowCount_multiple (k : nat) : rowCount (windowSize + k * hopSize) = k.
Proof.
  unfold rowCount, remaining. rewrite windowSize_value, hopSize_value.
  destruct (Nat.ltb_spec (0 + 1024) (1024 + k * 256)) as [H|H].
  - replace (1024 + k * 256 - 1024 - 1 - 0) with (255 + (k - 1) * 256) by lia.
    rewrite Nat.div_add by lia. change (255 / 256) with 0. lia.
  - lia.
Qed.

Lemma rowCount_between (len : nat) :
  windowSize < len -> (len - windowSize) mod hopSize <> 0 ->
  rowCount len = (len - windowSize) / hopSize + 1.
Proof.
  unfold rowCount, remaining. rewrite windowSize_value, hopSize_value.
  intros Hlen Hmod.
  destruct (Nat.ltb_spec (0 + 1024) len) as [_|]; [|lia].
  pose proof (Nat.div_mod_eq (len - 1024) 256) as E.
  pose proof (Nat.mod_upper_bound (len - 1024) 256 ltac:(lia)) as Hr.
  set (q := (len - 1024) / 256) in *. set (r := (len - 1024) mod 256) in *.
  replace (len - 1024 - 1 - 0) with ((r - 1) + q * 256) by lia.
  rewrite Nat.div_add by lia. rewrite Nat.div_small by lia. lia.
Qed.

Lemma rowCount_offset (len k : nat) :
  k < rowCount len -> k * hopSize + windowSize < len.
Proof.
  unfold rowCount, remaining. rewrite windowSize_value, hopSize_value.
  destruct (Nat.ltb_spec (0 + 1024) len) as [Hlen|]; [|lia].
  intros Hk.
  assert (Hq : k <= (len - 1024 - 1 - 0) / 256) by lia.
  pose proof (Nat.div_mod_eq (len - 1024 - 1 - 0) 256) as E.
  set (q := (len - 1024 - 1 - 0) / 256) in *.
  assert (k * 256 <= q * 256) by (apply Nat.mul_le_mono_r; exact Hq).
  lia.
Qed.

Section BuilderRows.
Context {M : MathObject}.

Lemma generateFullSpectrogram_lookup (audioData : list number)
    (sampleRate : number) (k : nat) (row : list number) :
  generateFullSpectrogram audioData sampleRate !! k = Some row <->
  k < rowCount (length audioData) /\ row = frameRow audioData (k * hopSize).
Proof.
  rewrite generateFullSpectrogram_rows, list_lookup_fmap, fmap_Some. split.
  - intros (j & E & ->). apply lookup_seq in E as [-> Hk].
    split; [exact Hk|reflexivity].
  - intros [Hk ->]. exists k. split; [apply lookup_seq; lia|reflexivity].
Qed.

Lemma frame_finite (audioData : list number) (i t : nat) :
  Forall finite audioData -> i + windowSize < length audioData ->
  t < windowSize ->
  finite (to_number
            (windowedSegment (slice audioData i (i + windowSize)) !! t)).
Proof.
  intros Hfin Hi Ht.
  rewrite windowedSegment_lookup by exact Ht.
  cbn [to_number]. apply finite_mul; [|apply windowValue_finite].
  rewrite slice_lookup by exact Ht.
  destruct (lookup_lt_is_Some_2 audioData (i + t) ltac:(lia)) as [a Ha].
  rewrite Ha. cbn [to_number].
  exact (Forall_lookup_1 _ _ _ _ Hfin Ha).
Qed.

(** C10: the offline spectrogram does not depend on the sample rate: for
    every sample sequence and every two sample rates
    [generateFullSpectrogram] returns the same matrix; the argument is
    never read. *)
Theorem generateFullSpectrogram_ignores_sampleRate
    (audioData : list number) (sampleRate1 sampleRate2 : number) :
  generateFullSpectrogram audioData sampleRate1 =
  generateFullSpectrogram audioData sampleRate2.
Proof.
  rewrite (generateFullSpectrogram_rows audioData sampleRate1).
  rewrite (generateFullSpectrogram_rows audioData sampleRate2).
  reflexivity.
Qed.

(** C1 (the code misses the claim): when the length of the waveform is the
    window size plus a whole number [k] of hops, the loop of line 199,
    whose test is [i < length - windowSize], stops before the frame at
    offset [length - windowSize]: the spectrogram has [k] rows, one fewer
    than the [floor((L-W)/H)+1] of the claim.  At [k = 0], a waveform of
    exactly one window, there is no row at all. *)
Theorem generateFullSpectrogram_drops_last_frame
    (audioData : list number) (sampleRate : number) (k : nat) :
  length audioData = windowSize + k * hopSize ->
  length (generateFullSpectrogram audioData sampleRate) = k /\
  (length audioData - windowSize) / hopSize + 1 = k + 1.
Proof.
  intros Hlen. rewrite generateFullSpectrogram_length, Hlen. split.
  - apply rowCount_multiple.
  - replace (windowSize + k * hopSize - windowSize) with (k * hopSize) by lia.
    rewrite Nat.div_mul by (rewrite hopSize_value; lia). reflexivity.
Qed.

(** Elsewhere the count is the one of the claim: no row for a waveform
    shorter than the window, and [floor((L-W)/H)+1] rows, in increasing
    offset order, when [L - W] is not a multiple of the hop. *)
Lemma generateFullSpectrogram_short (audioData : list number) (sampleRate : number) :
  length audioData < windowSize ->
  generateFullSpectrogram audioData sampleRate = [].
Proof.
  intros Hlen. rewrite generateFullSpectrogram_rows, rowCount_short by lia.
  reflexivity.
Qed.

Lemma generateFullSpectrogram_between (audioData : list number) (sampleRate : number) :
  windowSize < length audioData ->
  (length audioData - windowSize) mod hopSize <> 0 ->
  generateFullSpectrogram audioData sampleRate =
  map (fun k => frameRow audioData (k * hopSize))
      (seq 0 ((length audioData - windowSize) / hopSize + 1)).
Proof.
  intros Hlen Hmod.
  rewrite generateFullSpectrogram_rows, rowCount_between by assumption.
  reflexivity.
Qed.

Section BuilderLaws.
Context {L : MathLaws M}.

(** C3 as amended: for every frame [x] of N = 1024 windowed samples and
    every bin [f] below K = 128 the transform gives
    [min(1, 10 * sqrt(real^2 + imag^2) / N)] for the two sums of the
    specification; every row of the offline spectrogram is the transform
    of the windowed frame at its offset and has exactly K entries, each
    NaN or in [0,1]; when every sample of the waveform is finite, each
    entry of each row is in [0,1]. *)
Theorem frame_transform_matches_spec
    (audioData : list number) (sampleRate : number) :
  (forall x f, length x = windowSize -> f < fftSize ->
     exists v, frequencies x !! f = Some v /\
               same_number v (specMagnitude x f)) /\
  (forall k row,
     generateFullSpectrogram audioData sampleRate !! k = Some row ->
     row = frequencies
             (windowedSegment
                (slice audioData (k * hopSize) (k * hopSize + windowSize))) /\
     length row = fftSize /\
     Forall (fun v => v = NaN \/ in_unit v) row) /\
  (Forall finite audioData ->
   Forall (Forall in_unit) (generateFullSpectrogram audioData sampleRate)).
Proof.
  split; [|split].
  - intros x f _ Hf. exists (frequencyBin x f).
    split; [apply frequencies_lookup; exact Hf|].
    apply frequencyBin_specMagnitude.
  - intros k row Hrow.
    apply generateFullSpectrogram_lookup in Hrow as [Hk ->].
    unfold frameRow. cbv zeta.
    split; [reflexivity|]. split; [apply frequencies_length|].
    apply Forall_lookup_2. intros f v Hv.
    apply frequencies_lookup_Some in Hv as [Hf ->].
    apply frequencyBin_unit_or_nan.
  - intros Hfin. apply Forall_lookup_2. intros k row Hrow.
    apply generateFullSpectrogram_lookup in Hrow as [Hk ->].
    apply rowCount_offset in Hk. unfold frameRow. cbv zeta.
    apply Forall_lookup_2. intros f v Hv.
    apply frequencies_lookup_Some in Hv as [Hf ->].
    apply frequencyBin_in_unit. intros t Ht.
    apply frame_finite; [exact Hfin | exact Hk | exact Ht].
Qed.

End BuilderLaws.

(** A waveform whose first sample is NaN: its first row starts with a
    NaN. *)
Lemma nan_first_row (sampleRate : number) :
  let audioData := NaN :: replicate 1024 (Fin 0) in
  generateFullSpectrogram audioData sampleRate !! 0%nat =
    Some (frameRow audioData (0 * hopSize)) /\
  frameRow audioData (0 * hopSize) !! 0%nat = Some NaN.
Proof.
  cbv zeta. split.
  - apply generateFullSpectrogram_lookup.
    split; [vm_compute; lia | reflexivity].
  - unfold frameRow. rewrite frequencies_lookup by (vm_compute; lia).
    apply (f_equal Some).
    apply frequencyBin_nan with (t := 0%nat); [vm_compute; lia|].
    rewrite windowedSegment_lookup by (vm_compute; lia).
    rewrite slice_lookup by (vm_compute; lia). reflexivity.
Qed.

End BuilderRows.

(** C3, the claim as stated fails: the rows of a waveform whose first
    sample is NaN are not all made of values in [0,1]; the first entry of
    the first row is NaN. *)
Lemma nan_sample_row_is_not_in_unit :
  ~ Forall (Forall in_unit)
      (generateFullSpectrogram (M := Reference.math)
         (NaN :: replicate 1024 (Fin 0)) (Fin 44100)).
Proof.
  intros H.
  destruct (nan_first_row (M := Reference.math) (Fin 44100)) as [Hrow Hnan].
  pose proof (Forall_lookup_1 _ _ _ _ H Hrow) as Hunit.
  exact (Forall_lookup_1 _ _ _ _ Hunit Hnan).
Qed.

(** ** The live rolling buffer *)

Lemma getByteFrequencyData_length (a : AnalyserNode) (array : list Z) :
  length (getByteFrequencyData a array) = length array.
Proof.
  unfold getByteFrequencyData.
  rewrite length_app, length_take, length_drop. lia.
Qed.

Lemma normalizedData_length (a : AnalyserNode) :
  length (normalizedData a) = frequencyBinCount a.
Proof.
  unfold normalizedData.
  now rewrite length_map, getByteFrequencyData_length, length_replicate.
Qed.

Lemma spectrogramSlice_length (a : AnalyserNode) :
  length (spectrogramSlice a) = frequencyBinCount a / 4.
Proof.
  unfold spectrogramSlice, slice.
  rewrite length_take, length_drop, normalizedData_length.
  cbn [drop]. assert (frequencyBinCount a / 4 <= frequencyBinCount a).
  { apply Nat.Div0.div_le_upper_bound. lia. }
  lia.
Qed.

Lemma snapshot_length (bytes : list Z) : length (snapshot bytes) = 256.
Proof. unfold snapshot. rewrite spectrogramSlice_length. reflexivity. Qed.

Lemma pushSlice_drop (buffer : list (list number)) (s : list number) :
  length buffer <= maxSlices ->
  pushSlice buffer s = drop (length buffer + 1 - maxSlices) (buffer ++ [s]).
Proof.
  intros Hb. unfold pushSlice. cbv zeta. rewrite length_app. cbn [length].
  destruct (Nat.ltb_spec maxSlices (length buffer + 1)) as [H|H].
  - replace (length buffer + 1 - maxSlices) with 1 by lia.
    now destruct (buffer ++ [s]).
  - replace (length buffer + 1 - maxSlices) with 0 by lia. reflexivity.
Qed.

Lemma pushSlice_length (buffer : list (list number)) (s : list number) :
  length buffer <= maxSlices ->
  length (pushSlice buffer s) = Nat.min (length buffer + 1) maxSlices.
Proof.
  intros Hb. rewrite pushSlice_drop by exact Hb.
  rewrite length_drop, length_app. cbn [length]. lia.
Qed.

Lemma updateFrequencyData_buffer (c : nat) (st : State) (bytes : list Z) :
  analyserRef st = Some (createAnalyser bytes) -> isRecording st = true ->
  realtimeSpectrogramRef (updateFrequencyDataWith c st) =
    pushSlice (realtimeSpectrogramRef st) (snapshot bytes) /\
  analyserRef (updateFrequencyDataWith c st) = Some (createAnalyser bytes) /\
  isRecording (updateFrequencyDataWith c st) = true.
Proof.
  intros Ha Hr. unfold updateFrequencyDataWith. rewrite Ha, Hr. cbn.
  repeat split; assumption.
Qed.

Lemma setBytes_analyser (st : State) (bytes0 bytes : list Z) :
  analyserRef st = Some (createAnalyser bytes0) ->
  analyserRef (setBytes bytes st) = Some (createAnalyser bytes) /\
  isRecording (setBytes bytes st) = isRecording st /\
  realtimeSpectrogramRef (setBytes bytes st) = realtimeSpectrogramRef st.
Proof.
  intros Ha. unfold setBytes. rewrite Ha. cbn. repeat split.
Qed.

(** From a recording state whose buffer holds at most 200 snapshots, a run
    leaves the last 200 of the snapshots held and appended, in order. *)
Lemma runWith_buffer (c : nat) (spectra : list (list Z)) :
  forall (st : State) (bytes0 : list Z),
    analyserRef st = Some (createAnalyser bytes0) -> isRecording st = true ->
    length (realtimeSpectrogramRef st) <= maxSlices ->
    realtimeSpectrogramRef (runWith c st spectra) =
    drop (length (realtimeSpectrogramRef st) + length spectra - maxSlices)
         (realtimeSpectrogramRef st ++ map snapshot spectra).
Proof.
  induction spectra as [|bytes rest IH]; intros st bytes0 Ha Hr Hlen.
  - cbn [runWith fold_left map length]. rewrite app_nil_r, Nat.add_0_r.
    replace (length (realtimeSpectrogramRef st) - maxSlices) with 0 by lia.
    reflexivity.
  - cbn [runWith fold_left].
    fold (runWith c (updateFrequencyDataWith c (setBytes bytes st)) rest).
    destruct (setBytes_analyser st bytes0 bytes Ha) as (Ha' & Hr' & Hb').
    destruct (updateFrequencyData_buffer c (setBytes bytes st) bytes Ha'
                ltac:(congruence)) as (Hb'' & Ha'' & Hr'').
    rewrite Hb' in Hb''.
    pose proof (pushSlice_length (realtimeSpectrogramRef st) (snapshot bytes) Hlen) as Hpl.
    rewrite (IH _ bytes Ha'' Hr'') by (rewrite Hb'', Hpl; lia).
    rewrite Hb'', Hpl, pushSlice_drop by exact Hlen.
    set (B := realtimeSpectrogramRef st) in *.
    rewrite <- drop_app_le by (rewrite length_app; cbn [length]; lia).
    rewrite drop_drop, <- app_assoc. cbn [app map length].
    f_equal. unfold maxSlices in *. lia.
Qed.

Lemma run_buffer (spectra : list (list Z)) :
  forall (st : State) (bytes0 : list Z),
    analyserRef st = Some (createAnalyser bytes0) -> isRecording st = true ->
    length (realtimeSpectrogramRef st) <= maxSlices ->
    realtimeSpectrogramRef (run st spectra) =
    drop (length (realtimeSpectrogramRef st) + length spectra - maxSlices)
         (realtimeSpectrogramRef st ++ map snapshot spectra).
Proof. intros st bytes0. unfold run. apply runWith_buffer. Qed.

(** C9: the live buffer is a FIFO bounded at 200.  After a recording start
    and any run of [n] animation frames it holds exactly the last
    [min(n,200)] snapshots, oldest first; after 250 frames, the last 200. *)
Theorem live_buffer_keeps_most_recent_200
    (bytes0 : list Z) (spectra : list (list Z)) :
  let buffer := realtimeSpectrogramRef (run (recordingState bytes0) spectra) in
  buffer = drop (length spectra - 200) (map snapshot spectra) /\
  length buffer = Nat.min (length spectra) 200 /\
  (length spectra = 250 -> buffer = drop 50 (map snapshot spectra)).
Proof.
  cbv zeta.
  assert (E : realtimeSpectrogramRef (run (recordingState bytes0) spectra) =
              drop (length spectra - 200) (map snapshot spectra)).
  { rewrite (run_buffer spectra (recordingState bytes0) bytes0);
      [reflexivity | reflexivity | reflexivity | cbn; unfold maxSlices; lia]. }
  rewrite E. split; [reflexivity|]. split.
  - rewrite length_drop, length_map. lia.
  - intros ->. reflexivity.
Qed.



(** ** The scan of the renderer *)

Lemma fold_scanCell_map {A : Type} (c : A -> number) (ys : list A) (s : Scan) :
  fold_left (fun s' y => scanCell s' (c y)) ys s = fold_left scanCell (map c ys) s.
Proof.
  revert s. induction ys as [|y ys IH]; intros s; [reflexivity|].
  cbn [fold_left map]. apply IH.
Qed.

Lemma scan_cells (spectrogramData : list (list number)) :
  scan spectrogramData = fold_left scanCell (cells spectrogramData) scanStart.
Proof.
  unfold scan, cells. generalize scanStart.
  induction (seq 0 (width spectrogramData)) as [|x xs IH]; intros s;
    [reflexivity|].
  cbn [fold_left map concat]. rewrite fold_left_app, IH.
  now rewrite (fold_scanCell_map (cell spectrogramData x)).
Qed.

Lemma fold_scanCell_allValues (values : list number) (s : Scan) :
  allValues (fold_left scanCell values s) =
  allValues s ++ List.filter isPositive values.
Proof.
  revert s. induction values as [|v values IH]; intros s.
  - cbn. now rewrite app_nil_r.
  - cbn [fold_left List.filter]. rewrite IH. unfold scanCell at 1.
    cbn [allValues]. unfold isPositive at 2.
    destruct (v >? Fin 0)%num; [now rewrite <- app_assoc | reflexivity].
Qed.

Lemma scan_allValues (spectrogramData : list (list number)) :
  allValues (scan spectrogramData) = List.filter isPositive (cells spectrogramData).
Proof.
  rewrite scan_cells, fold_scanCell_allValues. reflexivity.
Qed.

Lemma cell_finite (spectrogramData : list (list number)) (x y : nat) :
  Forall (Forall finite) spectrogramData -> finite (cell spectrogramData x y).
Proof.
  intros Hfin. unfold cell.
  destruct (spectrogramData !! x) as [row|] eqn:Hx; cbn; [|exact I].
  destruct (row !! y) as [a|] eqn:Hy; cbn; [|exact I].
  pose proof (Forall_lookup_1 _ _ _ _ (Forall_lookup_1 _ _ _ _ Hfin Hx) Hy) as Ha.
  destruct (truthy a); [exact Ha | exact I].
Qed.

Lemma cells_finite (spectrogramData : list (list number)) :
  Forall (Forall finite) spectrogramData -> Forall finite (cells spectrogramData).
Proof.
  intros Hfin. unfold cells. apply Forall_concat, Forall_fmap, Forall_forall.
  intros x _. apply Forall_fmap, Forall_forall. intros y _.
  now apply cell_finite.
Qed.

Lemma finite_val (a : number) : finite a -> a = Fin (val a).
Proof. destruct a; simpl; intros H; now try destruct H. Qed.

Lemma Forall_finite_val (l : list number) :
  Forall finite l -> l = map Fin (map val l).
Proof.
  induction 1 as [|a l Ha _ IH]; [reflexivity|].
  cbn [map]. now rewrite <- IH, <- finite_val.
Qed.

Lemma isPositive_Fin (q : Q) : isPositive (Fin q) = true <-> (0 < q)%Q.
Proof. unfold isPositive, gt. apply lt_Fin. Qed.

(** ** The sort of the positive values *)

Lemma insertSorted_Fin (x : Q) (l : list Q) :
  insertSorted (Fin x) (map Fin l) = map Fin (insertQ x l).
Proof.
  induction l as [|y l IH]; [reflexivity|].
  cbn [map insertSorted insertQ].
  change (comparator (Fin x) (Fin y) <? Fin 0)%num with (beforeQ x y).
  destruct (beforeQ x y); [reflexivity|]. cbn [map]. now rewrite IH.
Qed.

Lemma sort_Fin (l : list Q) : sort (map Fin l) = map Fin (sortQ l).
Proof.
  unfold sort, sortQ. change (@nil number) with (map Fin []).
  generalize (@nil Q). induction l as [|x l IH]; intros acc; [reflexivity|].
  cbn [map fold_left]. rewrite insertSorted_Fin. apply IH.
Qed.

Lemma beforeQ_true (x y : Q) : beforeQ x y = true <-> (x < y)%Q.
Proof.
  unfold beforeQ. destruct (Qcompare_spec (x + - y) 0); split; intros;
    try easy; lra.
Qed.

Lemma beforeQ_false (x y : Q) : beforeQ x y = false <-> (y <= x)%Q.
Proof.
  unfold beforeQ. destruct (Qcompare_spec (x + - y) 0); split; intros;
    try easy; lra.
Qed.

Lemma insertQ_Permutation (x : Q) (l : list Q) :
  Permutation (insertQ x l) (x :: l).
Proof.
  induction l as [|y l IH]; [reflexivity|]. cbn [insertQ].
  destruct (beforeQ x y); [reflexivity|].
  rewrite IH. apply perm_swap.
Qed.

Lemma sortQ_Permutation (l : list Q) : Permutation (sortQ l) l.
Proof.
  unfold sortQ. rewrite <- (app_nil_r l) at 2. generalize (@nil Q).
  induction l as [|x l IH]; intros acc; [reflexivity|].
  cbn [fold_left]. rewrite IH, insertQ_Permutation.
  cbn [app]. symmetry. apply Permutation_middle.
Qed.

Lemma insertQ_sorted (x : Q) (l : list Q) :
  StronglySorted Qle l -> StronglySorted Qle (insertQ x l).
Proof.
  induction 1 as [|y l Hl IH Hy]; cbn [insertQ].
  - repeat constructor.
  - destruct (beforeQ x y) eqn:E.
    + apply beforeQ_true in E. constructor; [now constructor|].
      constructor; [lra|]. eapply Forall_impl; [exact Hy|].
      intros z Hz. cbn in Hz. lra.
    + apply beforeQ_false in E. constructor; [exact IH|].
      eapply Permutation_Forall; [symmetry; apply insertQ_Permutation|].
      constructor; assumption.
Qed.

Lemma sortQ_sorted (l : list Q) : StronglySorted Qle (sortQ l).
Proof.
  unfold sortQ. assert (H : StronglySorted Qle []) by constructor.
  revert H. generalize (@nil Q).
  induction l as [|x l IH]; intros acc Hacc; [exact Hacc|].
  cbn [fold_left]. apply IH, insertQ_sorted, Hacc.
Qed.

(** ** Order statistics by counting *)

Lemma count_lt_Permutation (t : Q) (l l' : list Q) :
  Permutation l l' -> count_lt t l = count_lt t l'.
Proof. induction 1; cbn [count_lt]; lia. Qed.

Lemma count_le_Permutation (t : Q) (l l' : list Q) :
  Permutation l l' -> count_le t l = count_le t l'.
Proof. induction 1; cbn [count_le]; lia. Qed.

Lemma count_le_mono (t t' : Q) (l : list Q) :
  (t <= t')%Q -> count_le t l <= count_le t' l.
Proof.
  intros Ht. induction l as [|a l IH]; cbn [count_le]; [lia|].
  destruct (Qlt_le_dec t a), (Qlt_le_dec t' a); try lia. lra.
Qed.

Lemma count_lt_none (t a : Q) (l : list Q) :
  Forall (Qle a) l -> (t <= a)%Q -> count_lt t l = 0.
Proof.
  intros Hl Ht. induction Hl as [|b l Hb _ IH]; cbn [count_lt]; [reflexivity|].
  destruct (Qlt_le_dec b t); [lra | exact IH].
Qed.

Lemma count_le_none (t a : Q) (l : list Q) :
  Forall (Qle a) l -> (t < a)%Q -> count_le t l = 0.
Proof.
  intros Hl Ht. induction Hl as [|b l Hb _ IH]; cbn [count_le]; [reflexivity|].
  destruct (Qlt_le_dec t b); [exact IH | lra].
Qed.

Lemma Forall_Qle_nth (a : Q) (l : list Q) (k : nat) :
  Forall (Qle a) l -> k < length l -> (a <= nth k l 0)%Q.
Proof.
  intros Hl Hk. rewrite Forall_nth in Hl. now apply Hl.
Qed.

Lemma sorted_above (l : list Q) :
  StronglySorted Qle l ->
  forall k t, k < length l -> count_lt t l <= k -> (t <= nth k l 0)%Q.
Proof.
  induction 1 as [|a l Hl IH Ha]; intros k t Hk Hc; cbn [length] in Hk; [lia|].
  cbn [count_lt] in Hc. destruct k as [|k]; cbn [nth].
  - destruct (Qlt_le_dec a t); [lia | assumption].
  - destruct (Qlt_le_dec a t) as [Hat|Hat].
    + apply IH; lia.
    + pose proof (Forall_Qle_nth a l k Ha ltac:(lia)). lra.
Qed.

Lemma sorted_below (l : list Q) :
  StronglySorted Qle l ->
  forall k t, k < count_le t l -> (nth k l 0 <= t)%Q.
Proof.
  induction 1 as [|a l Hl IH Ha]; intros k t Hc; cbn [count_le] in Hc; [lia|].
  destruct (Qlt_le_dec t a) as [Hta|Hta].
  - rewrite (count_le_none t a l Ha Hta) in Hc. lia.
  - destruct k as [|k]; cbn [nth]; [assumption|]. apply IH. lia.
Qed.

Lemma sorted_count_lt_nth (l : list Q) :
  StronglySorted Qle l ->
  forall k, k < length l -> count_lt (nth k l 0%Q) l <= k.
Proof.
  induction 1 as [|a l Hl IH Ha]; intros k Hk; cbn [length] in Hk; [lia|].
  destruct k as [|k]; cbn [nth count_lt].
  - rewrite (count_lt_none a a l Ha) by lra.
    destruct (Qlt_le_dec a a); [lra | lia].
  - specialize (IH k ltac:(lia)). destruct (Qlt_le_dec a (nth k l 0%Q)); lia.
Qed.

Lemma sorted_count_le_nth (l : list Q) :
  StronglySorted Qle l ->
  forall k, k < length l -> k < count_le (nth k l 0%Q) l.
Proof.
  induction 1 as [|a l Hl IH Ha]; intros k Hk; cbn [length] in Hk; [lia|].
  destruct k as [|k]; cbn [nth count_le].
  - destruct (Qlt_le_dec a a); [lra | lia].
  - specialize (IH k ltac:(lia)).
    pose proof (Forall_Qle_nth a l k Ha ltac:(lia)).
    destruct (Qlt_le_dec (nth k l 0%Q) a); [lra | lia].
Qed.

Lemma sorted_nth_mono (l : list Q) :
  StronglySorted Qle l ->
  forall i j, i <= j -> j < length l -> (nth i l 0 <= nth j l 0)%Q.
Proof.
  intros Hl i j Hij Hj. apply sorted_above; [exact Hl | exact Hj |].
  pose proof (sorted_count_lt_nth l Hl i ltac:(lia)). lia.
Qed.

(** ** The percentiles *)

Lemma rank_95_lt (n : nat) : 0 < n -> rank n 95 < n.
Proof.
  intros Hn. unfold rank.
  assert (Z.of_nat n * 95 / 100 < Z.of_nat n)%Z
    by (apply Z.div_lt_upper_bound; lia).
  assert (0 <= Z.of_nat n * 95 / 100)%Z by (apply Z.div_pos; lia).
  lia.
Qed.

Lemma rank_5_le_95 (n : nat) : rank n 5 <= rank n 95.
Proof.
  unfold rank. apply Z2Nat.inj_le.
  - apply Z.div_pos; lia.
  - apply Z.div_pos; lia.
  - apply Z.div_le_mono; lia.
Qed.

Lemma truthy_positive (q : Q) : (0 < q)%Q -> truthy (Fin q) = true.
Proof.
  intros Hq. cbn. destruct (Qeq_bool q 0) eqn:E; [|reflexivity].
  apply Qeq_bool_iff in E. lra.
Qed.

Lemma percentile_sorted (s : list Q) (p : positive) (fallback : number) :
  rank (length s) p < length s -> Forall (fun q => (0 < q)%Q) s ->
  percentile (map Fin s) (Z.pos p # 100) fallback =
  Fin (nth (rank (length s) p) s 0%Q).
Proof.
  intros Hk Hpos. unfold percentile. rewrite length_map.
  cbn [of_nat of_Z mul Math_floor].
  set (K := Qfloor (inject_Z (Z.of_nat (length s)) * (Z.pos p # 100))).
  assert (HK : K = (Z.of_nat (length s) * Z.pos p / 100)%Z) by reflexivity.
  unfold of_Z, index. rewrite Qfloor_Z, Qeq_bool_refl.
  assert (H0 : (0 <=? K)%Z = true).
  { apply Z.leb_le. rewrite HK. apply Z.div_pos; lia. }
  rewrite H0. cbn [andb]. rewrite HK. fold (rank (length s) p).
  rewrite list_lookup_fmap.
  destruct (nth_lookup_or_length s (rank (length s) p) 0%Q) as [E|E]; [|lia].
  rewrite E. cbn [fmap option_fmap option_map or_else].
  rewrite truthy_positive; [reflexivity|].
  rewrite Forall_nth in Hpos. now apply Hpos.
Qed.

Lemma positives_positive (spectrogramData : list (list number)) :
  Forall (Forall finite) spectrogramData ->
  Forall (fun q => (0 < q)%Q) (positives spectrogramData).
Proof.
  intros Hfin. unfold positives. apply cells_finite in Hfin.
  induction Hfin as [|a l Ha _ IH]; cbn [List.filter map]; [constructor|].
  destruct (isPositive a) eqn:E; [|exact IH]. cbn [map]. constructor; [|exact IH].
  rewrite (finite_val a Ha) in E. now apply isPositive_Fin.
Qed.

Lemma allValues_positives (spectrogramData : list (list number)) :
  Forall (Forall finite) spectrogramData ->
  allValues (scan spectrogramData) = map Fin (positives spectrogramData).
Proof.
  intros Hfin. rewrite scan_allValues. unfold positives.
  apply Forall_finite_val. apply cells_finite in Hfin.
  induction Hfin as [|a l Ha _ IH]; cbn [List.filter]; [constructor|].
  destruct (isPositive a); [constructor; assumption | exact IH].
Qed.

Lemma sortQ_length (l : list Q) : length (sortQ l) = length l.
Proof. apply Permutation_length, sortQ_Permutation. Qed.

Lemma sortQ_positive (l : list Q) :
  Forall (fun q => (0 < q)%Q) l -> Forall (fun q => (0 < q)%Q) (sortQ l).
Proof.
  intros H. eapply Permutation_Forall; [symmetry; apply sortQ_Permutation|exact H].
Qed.

Section Percentiles.
Context {M : MathObject}.
Variable spectrogramData : list (list number).
Hypothesis Hfinite : Forall (Forall finite) spectrogramData.
Hypothesis Hsome : 0 < length (positives spectrogramData).

Lemma p95_value : p95 spectrogramData = Fin (q95 spectrogramData).
Proof.
  unfold p95, q95. cbv zeta.
  rewrite (allValues_positives _ Hfinite), sort_Fin.
  rewrite percentile_sorted; rewrite ?sortQ_length.
  - reflexivity.
  - now apply rank_95_lt.
  - apply sortQ_positive, positives_positive, Hfinite.
Qed.

Lemma p5_value : p5 spectrogramData = Fin (q5 spectrogramData).
Proof.
  unfold p5, q5. cbv zeta.
  rewrite (allValues_positives _ Hfinite), sort_Fin.
  rewrite percentile_sorted; rewrite ?sortQ_length.
  - reflexivity.
  - pose proof (rank_95_lt _ Hsome). pose proof (rank_5_le_95 (length (positives spectrogramData))). lia.
  - apply sortQ_positive, positives_positive, Hfinite.
Qed.

Lemma q5_le_q95 : (q5 spectrogramData <= q95 spectrogramData)%Q.
Proof.
  unfold q5, q95. cbv zeta. apply sorted_nth_mono.
  - apply sortQ_sorted.
  - apply rank_5_le_95.
  - rewrite sortQ_length. now apply rank_95_lt.
Qed.

End Percentiles.

(** ** The normalizer *)

Section Normalizer.
Context {M : MathObject}.

Lemma pixelColor_normalizedAt (spectrogramData : list (list number)) (x y : nat) :
  pixelColor spectrogramData (p5 spectrogramData) (p95 spectrogramData) x y =
  heatColor (normalizedAt spectrogramData x (height spectrogramData - 1 - y)).
Proof. reflexivity. Qed.

Lemma normalizedMagnitude_nonpositive (a b : number) (v : Q) :
  (v <= 0)%Q -> normalizedMagnitude a b (Fin v) = Fin 0.
Proof.
  intros Hv. unfold normalizedMagnitude.
  assert (E : (Fin v <=? Fin 0)%num = true) by now apply le_Fin.
  now rewrite E.
Qed.

(** The clamp of line 74 on finite numbers. *)
Lemma clamp_Fin (a b v : Q) :
  (a <= b)%Q ->
  exists c, Math_max (Fin a) (Math_min (Fin b) (Fin v)) = Fin c /\
    ((v <= a /\ c == a) \/ (a <= v /\ v <= b /\ c == v) \/ (b <= v /\ c == b))%Q.
Proof.
  intros Hab. cbn [Math_min].
  destruct (Fin v <? Fin b)%num eqn:E1.
  - apply lt_Fin in E1. cbn [Math_max].
    destruct (Fin a <? Fin v)%num eqn:E2.
    + apply lt_Fin in E2. exists v. split; [reflexivity|]. right; left. lra.
    + apply lt_Fin_false in E2. exists a. split; [reflexivity|]. left. lra.
  - apply lt_Fin_false in E1. cbn [Math_max].
    destruct (Fin a <? Fin b)%num eqn:E2.
    + apply lt_Fin in E2. exists b. split; [reflexivity|]. right; right. lra.
    + apply lt_Fin_false in E2. exists a. split; [reflexivity|].
      right; right. lra.
Qed.

Lemma normalizedMagnitude_degenerate (a b v : Q) :
  (0 < v)%Q -> (a == b)%Q -> normalizedMagnitude (Fin a) (Fin b) (Fin v) = NaN.
Proof.
  intros Hv Hab. unfold normalizedMagnitude.
  assert (E : (Fin v <=? Fin 0)%num = false) by now apply le_Fin_false.
  rewrite E. cbv zeta.
  destruct (clamp_Fin a b v ltac:(lra)) as (c & -> & Hc).
  cbn [sub neg add]. rewrite div_Fin_zero by lra.
  destruct (Qcompare_spec (c + - a) 0); simpl; try reflexivity; lra.
Qed.

Lemma normalizedMagnitude_ratio (a b v : Q) :
  (0 < v)%Q -> (a < b)%Q ->
  exists c, normalizedMagnitude (Fin a) (Fin b) (Fin v) =
              Fin ((c + - a) / (b + - a)) /\
    ((v <= a /\ c == a) \/ (a <= v /\ v <= b /\ c == v) \/ (b <= v /\ c == b))%Q.
Proof.
  intros Hv Hab. unfold normalizedMagnitude.
  assert (E : (Fin v <=? Fin 0)%num = false) by now apply le_Fin_false.
  rewrite E. cbv zeta.
  destruct (clamp_Fin a b v ltac:(lra)) as (c & -> & Hc).
  exists c. split; [|exact Hc].
  cbn [sub neg add]. apply div_Fin. intros E0. lra.
Qed.

Lemma ratio_bounds (a b c : Q) :
  (a < b)%Q -> (a <= c)%Q -> (c <= b)%Q ->
  (0 <= (c + - a) / (b + - a) /\ (c + - a) / (b + - a) <= 1)%Q.
Proof.
  intros Hab Hac Hcb. split.
  - apply Qle_shift_div_l; lra.
  - apply Qle_shift_div_r; lra.
Qed.

Lemma ratio_mono (a b c c' : Q) :
  (a < b)%Q -> (c <= c')%Q ->
  ((c + - a) / (b + - a) <= (c' + - a) / (b + - a))%Q.
Proof.
  intros Hab Hc. unfold Qdiv.
  apply Qmult_le_compat_r; [lra|].
  apply Qlt_le_weak, Qinv_lt_0_compat. lra.
Qed.

Lemma scaledMagnitude_zero (r : Q) :
  (r == 0)%Q -> scaledMagnitude (Fin r) = Fin 0.
Proof.
  intros Hr. unfold scaledMagnitude, Math_pow.
  change (Qeq_bool (1 # 2) 0) with false. cbv iota.
  assert (E : Qeq_bool r 0 = true) by now apply Qeq_bool_iff.
  rewrite E. reflexivity.
Qed.

Lemma scaledMagnitude_positive (r : Q) :
  (0 < r)%Q -> scaledMagnitude (Fin r) = Fin (approx_pow r (1 # 2)).
Proof.
  intros Hr. unfold scaledMagnitude, Math_pow.
  change (Qeq_bool (1 # 2) 0) with false. cbv iota.
  destruct (Qeq_bool r 0) eqn:E; [apply Qeq_bool_iff in E; lra|].
  assert (E' : Qle_bool 0 r = true) by (apply Qle_bool_iff; lra).
  rewrite E'. reflexivity.
Qed.

Section NormalizerLaws.
Context {L : MathLaws M}.

Lemma scaledMagnitude_unit (r : Q) :
  (0 <= r)%Q -> (r <= 1)%Q -> in_unit (scaledMagnitude (Fin r)).
Proof.
  intros H0 H1. destruct (Qlt_le_dec 0 r) as [Hr|Hr].
  - rewrite scaledMagnitude_positive by exact Hr.
    apply (approx_pow_half_unit r Hr H1).
  - rewrite scaledMagnitude_zero by lra. simpl. lra.
Qed.

Lemma scaledMagnitude_mono (r r' : Q) :
  (0 <= r)%Q -> (r <= r')%Q -> (r' <= 1)%Q ->
  (scaledMagnitude (Fin r') <? scaledMagnitude (Fin r))%num = false.
Proof.
  intros H0 Hrr H1. destruct (Qlt_le_dec 0 r) as [Hr|Hr].
  - rewrite !scaledMagnitude_positive by lra.
    apply lt_Fin_false. now apply approx_pow_half_mono.
  - rewrite (scaledMagnitude_zero r) by lra.
    pose proof (scaledMagnitude_unit r' ltac:(lra) H1) as Hu.
    destruct (scaledMagnitude (Fin r')) as [s| | |]; try destruct Hu.
    apply lt_Fin_false. assumption.
Qed.

Lemma lt_unit_or_nan_zero (a : number) :
  a = NaN \/ in_unit a -> (a <? Fin 0)%num = false.
Proof.
  intros [->|H]; [reflexivity|].
  destruct a as [q| | |]; try destruct H. apply lt_Fin_false. assumption.
Qed.

End NormalizerLaws.

End Normalizer.

(** ** Range of the normalized spectrogram *)

Lemma cell_in_cells (spectrogramData : list (list number)) (x y : nat) :
  x < width spectrogramData -> y < height spectrogramData ->
  In (cell spectrogramData x y) (cells spectrogramData).
Proof.
  intros Hx Hy. unfold cells. apply in_concat.
  exists (map (cell spectrogramData x) (seq 0 (height spectrogramData))). split.
  - apply in_map_iff. exists x. split; [reflexivity|]. apply in_seq. lia.
  - apply in_map, in_seq. lia.
Qed.

Lemma positives_nonempty (spectrogramData : list (list number)) (x y : nat) (v : Q) :
  x < width spectrogramData -> y < height spectrogramData ->
  cell spectrogramData x y = Fin v -> (0 < v)%Q ->
  0 < length (positives spectrogramData).
Proof.
  intros Hx Hy Hc Hv.
  assert (Hin : In v (positives spectrogramData)).
  { unfold positives. apply in_map_iff. exists (Fin v). split; [reflexivity|].
    apply filter_In. split.
    - rewrite <- Hc. now apply cell_in_cells.
    - now apply isPositive_Fin. }
  destruct (positives spectrogramData); [destruct Hin | cbn; lia].
Qed.

Section Range.
Context {M : MathObject} {L : MathLaws M}.

(** Every rendered entry of the normalized spectrogram of a matrix of
    finite numbers is NaN or lies in [0,1]. *)
Lemma normalizedAt_unit_or_nan (spectrogramData : list (list number)) (x y : nat) :
  Forall (Forall finite) spectrogramData ->
  x < width spectrogramData -> y < height spectrogramData ->
  normalizedAt spectrogramData x y = NaN \/
  in_unit (normalizedAt spectrogramData x y).
Proof.
  intros Hfin Hx Hy. unfold normalizedAt.
  pose proof (cell_finite spectrogramData x y Hfin) as Hc.
  apply finite_val in Hc. set (v := val (cell spectrogramData x y)) in *.
  rewrite Hc. destruct (Qlt_le_dec 0 v) as [Hv|Hv].
  - pose proof (positives_nonempty _ x y v Hx Hy Hc Hv) as Hsome.
    rewrite (p5_value _ Hfin Hsome), (p95_value _ Hfin Hsome).
    pose proof (q5_le_q95 spectrogramData Hsome) as Hle.
    destruct (Qlt_le_dec (q5 spectrogramData) (q95 spectrogramData)) as [Hlt|Hge].
    + destruct (normalizedMagnitude_ratio _ _ v Hv Hlt) as (c & -> & Hcl).
      right. apply scaledMagnitude_unit; apply ratio_bounds; lra.
    + left. rewrite normalizedMagnitude_degenerate by lra. reflexivity.
  - right. rewrite normalizedMagnitude_nonpositive by exact Hv.
    rewrite scaledMagnitude_zero by reflexivity. simpl. lra.
Qed.

(** Away from the degenerate range the entry lies in [0,1]. *)
Lemma normalizedAt_in_unit (spectrogramData : list (list number)) (x y : nat) :
  Forall (Forall finite) spectrogramData ->
  x < width spectrogramData -> y < height spectrogramData ->
  (q5 spectrogramData < q95 spectrogramData)%Q ->
  in_unit (normalizedAt spectrogramData x y).
Proof.
  intros Hfin Hx Hy Hlt. unfold normalizedAt.
  pose proof (cell_finite spectrogramData x y Hfin) as Hc.
  apply finite_val in Hc. set (v := val (cell spectrogramData x y)) in *.
  rewrite Hc. destruct (Qlt_le_dec 0 v) as [Hv|Hv].
  - pose proof (positives_nonempty _ x y v Hx Hy Hc Hv) as Hsome.
    rewrite (p5_value _ Hfin Hsome), (p95_value _ Hfin Hsome).
    destruct (normalizedMagnitude_ratio _ _ v Hv Hlt) as (c & -> & Hcl).
    apply scaledMagnitude_unit; apply ratio_bounds; lra.
  - rewrite normalizedMagnitude_nonpositive by exact Hv.
    rewrite scaledMagnitude_zero by reflexivity. simpl. lra.
Qed.

End Range.

(** Without a positive entry every entry of the normalized spectrogram is
    0, whatever the percentiles fall back to. *)
Lemma normalizedAt_no_positive {M : MathObject}
    (spectrogramData : list (list number)) (x y : nat) :
  (cell spectrogramData x y <=? Fin 0)%num = true ->
  normalizedAt spectrogramData x y = Fin 0.
Proof.
  intros H. unfold normalizedAt, normalizedMagnitude. rewrite H. reflexivity.
Qed.

(** ** Changing one entry *)

Lemma width_setCell (sp : list (list number)) (x y : nat) (v : number) :
  width (setCell sp x y v) = width sp.
Proof. unfold width, setCell. apply length_alter. Qed.

Lemma height_setCell (sp : list (list number)) (x y : nat) (v : number) :
  height (setCell sp x y v) = height sp.
Proof.
  unfold height, setCell. destruct (Nat.eq_dec x 0) as [->|Hx].
  - rewrite list_lookup_alter_eq. destruct (sp !! 0); cbn; [|reflexivity].
    apply length_insert.
  - now rewrite list_lookup_alter_ne.
Qed.

Lemma cell_setCell_other (sp : list (list number)) (x y x0 y0 : nat) (v : number) :
  x0 <> x \/ y0 <> y -> cell (setCell sp x y v) x0 y0 = cell sp x0 y0.
Proof.
  intros H. unfold cell, setCell. destruct (Nat.eq_dec x0 x) as [->|Hx].
  - destruct H as [H|H]; [contradiction|].
    rewrite list_lookup_alter_eq. destruct (sp !! x) as [row|]; cbn; [|reflexivity].
    now rewrite list_lookup_insert_ne.
  - now rewrite list_lookup_alter_ne.
Qed.

Lemma cell_setCell_same (sp : list (list number)) (x y : nat) (v old : number) :
  sp !! x ≫= (fun row => row !! y) = Some old ->
  cell (setCell sp x y v) x y = or_else (Some v) (Fin 0).
Proof.
  intros H. unfold cell, setCell. rewrite list_lookup_alter_eq.
  destruct (sp !! x) as [row|]; cbn in *; [|discriminate].
  rewrite list_lookup_insert_eq; [reflexivity|].
  now apply lookup_lt_Some in H.
Qed.

Lemma finite_setCell (sp : list (list number)) (x y : nat) (v : number) :
  Forall (Forall finite) sp -> finite v ->
  Forall (Forall finite) (setCell sp x y v).
Proof.
  intros Hsp Hv. unfold setCell. apply Forall_alter; [exact Hsp|].
  intros row _ Hrow. now apply Forall_insert.
Qed.

Lemma row_split (a b : nat -> number) (y : nat) :
  (forall y0, y0 <> y -> a y0 = b y0) ->
  forall h s, s <= y < s + h ->
    exists pre post,
      map a (seq s h) = pre ++ a y :: post /\
      map b (seq s h) = pre ++ b y :: post.
Proof.
  intros Hab. induction h as [|h IH]; intros s Hs; [lia|].
  cbn [seq map]. destruct (Nat.eq_dec s y) as [->|Hne].
  - exists [], (map a (seq (S y) h)). split; [reflexivity|].
    cbn [app]. f_equal. apply map_ext_in. intros y0 Hy0.
    apply in_seq in Hy0. symmetry. apply Hab. lia.
  - destruct (IH (S s) ltac:(lia)) as (pre & post & Ea & Eb).
    exists (a s :: pre), post. rewrite Ea, Eb. split; [reflexivity|].
    cbn [app]. f_equal. symmetry. now apply Hab.
Qed.

Lemma table_split (f g : nat -> nat -> number) (h x y : nat) :
  y < h ->
  (forall x0 y0, x0 <> x \/ y0 <> y -> f x0 y0 = g x0 y0) ->
  forall w s, s <= x < s + w ->
    exists pre post,
      concat (map (fun x0 => map (f x0) (seq 0 h)) (seq s w)) =
        pre ++ f x y :: post /\
      concat (map (fun x0 => map (g x0) (seq 0 h)) (seq s w)) =
        pre ++ g x y :: post.
Proof.
  intros Hy Hfg. induction w as [|w IH]; intros s Hs; [lia|].
  cbn [seq map concat]. destruct (Nat.eq_dec s x) as [->|Hne].
  - destruct (row_split (f x) (g x) y) with (h := h) (s := 0)
      as (pre & post & Ea & Eb).
    { intros y0 Hy0. apply Hfg. now right. }
    { lia. }
    exists pre, (post ++ concat (map (fun x0 => map (f x0) (seq 0 h)) (seq (S x) w))).
    assert (Et : concat (map (fun x0 => map (g x0) (seq 0 h)) (seq (S x) w)) =
                 concat (map (fun x0 => map (f x0) (seq 0 h)) (seq (S x) w))).
    { f_equal. apply map_ext_in. intros x0 Hx0. apply in_seq in Hx0.
      apply map_ext. intros y0. symmetry. apply Hfg. left. lia. }
    rewrite Ea, Eb, Et, <- !app_assoc. split; reflexivity.
  - destruct (IH (S s) ltac:(lia)) as (pre & post & Ea & Eb).
    exists (map (f s) (seq 0 h) ++ pre), post.
    rewrite Ea, Eb, <- !app_assoc. split; [reflexivity|].
    f_equal. apply map_ext. intros y0. symmetry. apply Hfg. now left.
Qed.

Lemma cells_setCell (sp : list (list number)) (x y : nat) (v : number) :
  x < width sp -> y < height sp ->
  exists pre post,
    cells sp = pre ++ cell sp x y :: post /\
    cells (setCell sp x y v) = pre ++ cell (setCell sp x y v) x y :: post.
Proof.
  intros Hx Hy. unfold cells. rewrite width_setCell, height_setCell.
  apply table_split; [exact Hy | | lia].
  intros x0 y0 H. symmetry. now apply cell_setCell_other.
Qed.

(** ** Monotonicity of the normalization *)

Lemma statistic_update (s s' R : list Q) (v v' : Q) (k : nat) :
  StronglySorted Qle s -> StronglySorted Qle s' ->
  Permutation s (v :: R) -> Permutation s' (v' :: R) ->
  (v <= v')%Q -> k < length s ->
  (nth k s 0 <= nth k s' 0)%Q /\
  (nth k s 0 < v -> nth k s' 0 == nth k s 0)%Q /\
  (v' <= nth k s 0 -> nth k s' 0 == nth k s 0)%Q /\
  (nth k s 0 <= v' -> nth k s' 0 <= v')%Q.
Proof.
  intros Hs Hs' Hp Hp' Hv Hk.
  assert (Hk' : k < length s').
  { rewrite (Permutation_length Hp'). rewrite (Permutation_length Hp) in Hk.
    exact Hk. }
  set (t := nth k s 0%Q).
  pose proof (sorted_count_lt_nth s Hs k Hk) as C1.
  pose proof (sorted_count_le_nth s Hs k Hk) as C2.
  fold t in C1, C2.
  rewrite (count_lt_Permutation t _ _ Hp) in C1.
  rewrite (count_le_Permutation t _ _ Hp) in C2.
  cbn [count_lt count_le] in C1, C2.
  assert (Ha : (t <= nth k s' 0)%Q).
  { apply sorted_above; [exact Hs' | exact Hk' |].
    rewrite (count_lt_Permutation t _ _ Hp'). cbn [count_lt].
    destruct (Qlt_le_dec v t), (Qlt_le_dec v' t); try lia. lra. }
  split; [exact Ha|]. split; [|split].
  - intros Htv.
    assert (nth k s' 0 <= t)%Q; [|lra].
    apply sorted_below; [exact Hs'|].
    rewrite (count_le_Permutation t _ _ Hp'). cbn [count_le].
    destruct (Qlt_le_dec t v), (Qlt_le_dec t v'); try lia; lra.
  - intros Hvt.
    assert (nth k s' 0 <= t)%Q; [|lra].
    apply sorted_below; [exact Hs'|].
    rewrite (count_le_Permutation t _ _ Hp'). cbn [count_le].
    destruct (Qlt_le_dec t v), (Qlt_le_dec t v'); try lia; lra.
  - intros Htv.
    apply sorted_below; [exact Hs'|].
    rewrite (count_le_Permutation v' _ _ Hp'). cbn [count_le].
    pose proof (count_le_mono t v' R Htv).
    destruct (Qlt_le_dec t v), (Qlt_le_dec v' v'); try lia; lra.
Qed.

Lemma lt_nan_r (a : number) : (a <? NaN)%num = false.
Proof. now destruct a. Qed.

Lemma or_else_Fin (q : Q) :
  exists u, or_else (Some (Fin q)) (Fin 0) = Fin u /\ (u == q)%Q.
Proof.
  cbn. destruct (Qeq_bool q 0) eqn:E; cbn.
  - apply Qeq_bool_iff in E. exists 0%Q. split; [reflexivity|]. now symmetry.
  - exists q. split; reflexivity.
Qed.

Section Monotone.
Context {M : MathObject} {L : MathLaws M}.

Lemma scaled_normalized_unit_or_nan (a b v : Q) :
  (0 < v)%Q -> (a <= b)%Q ->
  let out := scaledMagnitude (normalizedMagnitude (Fin a) (Fin b) (Fin v)) in
  out = NaN \/ in_unit out.
Proof.
  intros Hv Hab out. subst out. destruct (Qlt_le_dec a b) as [Hlt|Hge].
  - destruct (normalizedMagnitude_ratio a b v Hv Hlt) as (c & -> & Hc).
    right. apply scaledMagnitude_unit; apply ratio_bounds; lra.
  - left. rewrite normalizedMagnitude_degenerate by lra. reflexivity.
Qed.

Lemma normalized_update_mono (a b a' b' v v' : Q) :
  (0 < v)%Q -> (v <= v')%Q -> (a <= b)%Q -> (a' <= b')%Q ->
  (a < v -> a' == a)%Q -> (b <= b')%Q ->
  (v' <= b -> b' == b)%Q -> (b <= v' -> b' <= v')%Q ->
  (scaledMagnitude (normalizedMagnitude (Fin a') (Fin b') (Fin v')) <?
   scaledMagnitude (normalizedMagnitude (Fin a) (Fin b) (Fin v)))%num = false.
Proof.
  intros Hv Hvv Hab Hab' Ha Hb Hb1 Hb2.
  destruct (Qlt_le_dec a b) as [Hlt|Hge];
    [|rewrite (normalizedMagnitude_degenerate a b v) by lra; apply lt_nan_r].
  destruct (normalizedMagnitude_ratio a b v Hv Hlt) as (c & -> & Hc).
  destruct (Qlt_le_dec a v) as [Hav|Hav].
  - specialize (Ha Hav).
    assert (Hlt' : (a' < b')%Q) by lra.
    destruct (normalizedMagnitude_ratio a' b' v' ltac:(lra) Hlt') as (c' & -> & Hc').
    apply scaledMagnitude_mono.
    + apply ratio_bounds; lra.
    + destruct (Qlt_le_dec v' b') as [Hvb|Hvb].
      * assert (Hvb0 : (v' < b)%Q).
        { destruct (Qlt_le_dec v' b) as [H|H]; [exact H|].
          specialize (Hb2 H). lra. }
        specialize (Hb1 ltac:(lra)).
        assert (Ec : (c == v)%Q) by lra.
        assert (Ec' : (c' == v')%Q) by lra.
        rewrite Ec, Ec', Ha, Hb1. apply ratio_mono; lra.
      * assert (Ec' : (c' == b')%Q) by lra.
        apply Qle_trans with 1%Q; [apply ratio_bounds; lra|].
        apply Qle_shift_div_l; lra.
    + apply ratio_bounds; lra.
  - assert (E0 : ((c + - a) / (b + - a) == 0)%Q).
    { assert (Ec : (c + - a == 0)%Q) by lra. rewrite Ec. unfold Qdiv. ring. }
    rewrite (scaledMagnitude_zero _ E0).
    apply lt_unit_or_nan_zero.
    apply scaled_normalized_unit_or_nan; lra.
Qed.

End Monotone.

Lemma positives_split (sp : list (list number)) (pre post : list number) (u : Q) :
  cells sp = pre ++ Fin u :: post -> (0 < u)%Q ->
  Permutation (positives sp)
    (u :: map val (List.filter isPositive pre) ++
          map val (List.filter isPositive post)).
Proof.
  intros E Hu. unfold positives. rewrite E, List.filter_app. cbn [List.filter].
  assert (Hp : isPositive (Fin u) = true) by now apply isPositive_Fin.
  rewrite Hp, map_app. cbn [map val]. symmetry. apply Permutation_middle.
Qed.

Section MonotoneTheorem.
Context {M : MathObject} {L : MathLaws M}.

(** C7: the percentile normalization is monotone in a value's own input.
    In a spectrogram of finite magnitudes, raising the magnitude at one
    rendered position, all others fixed, never makes the normalized output
    at that position smaller (the comparison is the one of the language: a
    NaN output, which the degenerate range gives, is not smaller than
    anything).  This holds for a value clamped at p95 as well. *)
Theorem normalization_monotone_in_own_value
    (spectrogramData : list (list number)) (x y : nat) (old new : number) :
  Forall (Forall finite) spectrogramData -> finite new ->
  x < width spectrogramData -> y < height spectrogramData ->
  spectrogramData !! x ≫= (fun row => row !! y) = Some old ->
  (old <? new)%num = true ->
  (normalizedAt (setCell spectrogramData x y new) x y <?
   normalizedAt spectrogramData x y)%num = false.
Proof.
  intros Hfin Hnew Hx Hy Hold Hlt.
  set (sp := spectrogramData) in *. set (sp' := setCell sp x y new).
  assert (Hfo : finite old).
  { destruct (sp !! x) as [row|] eqn:Er; cbn in Hold; [|discriminate].
    exact (Forall_lookup_1 _ _ _ _ (Forall_lookup_1 _ _ _ _ Hfin Er) Hold). }
  apply finite_val in Hfo, Hnew. set (o := val old) in *. set (n := val new) in *.
  rewrite Hfo, Hnew in Hlt. apply lt_Fin in Hlt.
  assert (Hc : exists u, cell sp x y = Fin u /\ (u == o)%Q).
  { unfold cell. rewrite Hold, Hfo. apply or_else_Fin. }
  assert (Hc' : exists u', cell sp' x y = Fin u' /\ (u' == n)%Q).
  { unfold sp'. rewrite (cell_setCell_same sp x y new old Hold), Hnew.
    apply or_else_Fin. }
  destruct Hc as (u & Hc & Hu). destruct Hc' as (u' & Hc' & Hu').
  assert (Hfin' : Forall (Forall finite) sp').
  { apply finite_setCell; [exact Hfin|]. rewrite Hnew. exact I. }
  assert (Hx' : x < width sp') by (unfold sp'; now rewrite width_setCell).
  assert (Hy' : y < height sp') by (unfold sp'; now rewrite height_setCell).
  destruct (Qlt_le_dec 0 u) as [Hpos|Hneg].
  - destruct (cells_setCell sp x y new Hx Hy) as (pre & post & E & E').
    fold sp' in E'. rewrite Hc in E. rewrite Hc' in E'.
    pose proof (positives_split sp pre post u E Hpos) as P.
    pose proof (positives_split sp' pre post u' E' ltac:(lra)) as P'.
    set (R := map val (List.filter isPositive pre) ++
              map val (List.filter isPositive post)) in *.
    assert (Hlen : length (positives sp) = S (length R))
      by (rewrite (Permutation_length P); reflexivity).
    assert (Hlen' : length (positives sp') = length (positives sp))
      by (rewrite (Permutation_length P'), Hlen; reflexivity).
    assert (Hsome : 0 < length (positives sp)) by lia.
    assert (Hsome' : 0 < length (positives sp')) by lia.
    unfold normalizedAt.
    rewrite (p5_value sp Hfin Hsome), (p95_value sp Hfin Hsome),
            (p5_value sp' Hfin' Hsome'), (p95_value sp' Hfin' Hsome'), Hc, Hc'.
    pose proof (q5_le_q95 sp Hsome) as Hab.
    pose proof (q5_le_q95 sp' Hsome') as Hab'.
    assert (Hs : Permutation (sortQ (positives sp)) (u :: R))
      by (etransitivity; [apply sortQ_Permutation | exact P]).
    assert (Hs' : Permutation (sortQ (positives sp')) (u' :: R))
      by (etransitivity; [apply sortQ_Permutation | exact P']).
    pose proof (rank_95_lt _ Hsome) as Hk95.
    pose proof (rank_5_le_95 (length (positives sp))) as Hk5.
    destruct (statistic_update _ _ R u u' (rank (length (positives sp)) 5)
                (sortQ_sorted _) (sortQ_sorted _) Hs Hs' ltac:(lra)
                ltac:(rewrite sortQ_length; lia)) as (_ & A2 & _ & _).
    destruct (statistic_update _ _ R u u' (rank (length (positives sp)) 95)
                (sortQ_sorted _) (sortQ_sorted _) Hs Hs' ltac:(lra)
                ltac:(rewrite sortQ_length; lia)) as (B1 & _ & B3 & B4).
    apply normalized_update_mono; unfold q5, q95 in *; cbv zeta in *;
      rewrite ?Hlen' in *; try assumption; lra.
  - assert (E0 : (cell sp x y <=? Fin 0)%num = true)
      by (rewrite Hc; now apply le_Fin).
    rewrite (normalizedAt_no_positive sp x y E0).
    apply lt_unit_or_nan_zero.
    now apply normalizedAt_unit_or_nan.
Qed.

End MonotoneTheorem.

(** ** The pixel buffer *)

Lemma pixel_index_distinct (w x y x' y' : nat) :
  x < w -> x' < w -> (x, y) <> (x', y') -> y * w + x <> y' * w + x'.
Proof.
  intros Hx Hx' Hne E. destruct (Nat.lt_total y y') as [H|[H|H]].
  - assert ((y + 1) * w <= y' * w) by (apply Nat.mul_le_mono_r; lia). lia.
  - subst y'. apply Hne. f_equal. lia.
  - assert ((y' + 1) * w <= y * w) by (apply Nat.mul_le_mono_r; lia). lia.
Qed.

Lemma putPixel_length (w x y : nat) (c : Color) (d : list Z) :
  length (putPixel w x y c d) = length d.
Proof. unfold putPixel. cbv zeta. now rewrite !length_insert. Qed.

Lemma putPixel_other (w x y : nat) (c : Color) (d : list Z) (i : nat) :
  i < (y * w + x) * 4 \/ (y * w + x) * 4 + 4 <= i ->
  putPixel w x y c d !! i = d !! i.
Proof.
  intros Hi. unfold putPixel. cbv zeta.
  rewrite !list_lookup_insert_ne by lia. reflexivity.
Qed.

Lemma putPixel_same (w x y : nat) (c : Color) (d : list Z) (k : nat) :
  (y * w + x) * 4 + 3 < length d -> k < 4 ->
  putPixel w x y c d !! ((y * w + x) * 4 + k) = Some (channel k c).
Proof.
  intros Hd Hk. unfold putPixel. cbv zeta.
  destruct k as [|[|[|[|k]]]]; [| | | |lia]; cbn [channel].
  - rewrite !list_lookup_insert_ne by lia. rewrite Nat.add_0_r.
    apply list_lookup_insert_eq. lia.
  - rewrite !list_lookup_insert_ne by lia.
    apply list_lookup_insert_eq. rewrite length_insert. lia.
  - rewrite list_lookup_insert_ne by lia.
    apply list_lookup_insert_eq. rewrite !length_insert. lia.
  - apply list_lookup_insert_eq. rewrite !length_insert. lia.
Qed.

Section Paint.
Variable w : nat.
Variable color : nat -> nat -> Color.

Lemma paintColumn_length (x n : nat) :
  forall s d, length (paintColumn w color x s n d) = length d.
Proof.
  induction n as [|n IH]; intros s d; [reflexivity|].
  unfold paintColumn in *. cbn [seq fold_left]. now rewrite IH, putPixel_length.
Qed.

Lemma paintColumn_other (x n : nat) (x' y' k : nat) :
  x < w -> x' < w -> k < 4 ->
  forall s d, (x' <> x \/ y' < s \/ s + n <= y') ->
    paintColumn w color x s n d !! ((y' * w + x') * 4 + k) = d !! ((y' * w + x') * 4 + k).
Proof.
  intros Hx Hx' Hk. induction n as [|n IH]; intros s d Hne; [reflexivity|].
  unfold paintColumn in *. cbn [seq fold_left].
  rewrite IH by lia. apply putPixel_other.
  assert (s * w + x <> y' * w + x').
  { apply pixel_index_distinct; [exact Hx | exact Hx' |].
    intros E. inversion E. lia. }
  lia.
Qed.

Lemma paintColumn_same (x n : nat) (y k : nat) :
  x < w -> k < 4 ->
  forall s d, s <= y < s + n -> (y * w + x) * 4 + 3 < length d ->
    paintColumn w color x s n d !! ((y * w + x) * 4 + k) = Some (channel k (color x y)).
Proof.
  intros Hx Hk. induction n as [|n IH]; intros s d Hy Hd; [lia|].
  destruct (Nat.eq_dec s y) as [->|Hne].
  - unfold paintColumn. cbn [seq fold_left].
    fold (paintColumn w color x (S y) n (putPixel w x y (color x y) d)).
    rewrite paintColumn_other by (assumption || lia).
    now apply putPixel_same.
  - unfold paintColumn in *. cbn [seq fold_left].
    apply IH; [lia|]. now rewrite putPixel_length.
Qed.

Lemma paintColumns_other (h n : nat) (x' y' k : nat) :
  x' < w -> k < 4 ->
  forall s d, s + n <= w -> (x' < s \/ s + n <= x') ->
    paintColumns w color h s n d !! ((y' * w + x') * 4 + k) = d !! ((y' * w + x') * 4 + k).
Proof.
  intros Hx' Hk. induction n as [|n IH]; intros s d Hw Hne; [reflexivity|].
  unfold paintColumns in *. cbn [seq fold_left].
  rewrite IH by lia. apply paintColumn_other; lia.
Qed.

Lemma paintColumns_same (h n : nat) (x y k : nat) :
  y < h -> k < 4 ->
  forall s d, s + n <= w -> s <= x < s + n ->
    (y * w + x) * 4 + 3 < length d ->
    paintColumns w color h s n d !! ((y * w + x) * 4 + k) = Some (channel k (color x y)).
Proof.
  intros Hy Hk. induction n as [|n IH]; intros s d Hw Hx Hd; [lia|].
  destruct (Nat.eq_dec s x) as [->|Hne].
  - unfold paintColumns. cbn [seq fold_left].
    fold (paintColumns w color h (S x) n (paintColumn w color x 0 h d)).
    rewrite paintColumns_other by lia.
    apply paintColumn_same; (assumption || lia).
  - unfold paintColumns in *. cbn [seq fold_left].
    apply IH; [lia | lia |]. now rewrite paintColumn_length.
Qed.

End Paint.

Lemma createImageData_length (w h : nat) : length (createImageData w h) = 4 * w * h.
Proof. unfold createImageData. apply length_replicate. Qed.

Lemma pixel_in_image (w h x y : nat) :
  x < w -> y < h -> (y * w + x) * 4 + 3 < 4 * w * h.
Proof.
  intros Hx Hy.
  assert ((y + 1) * w <= h * w) by (apply Nat.mul_le_mono_r; lia).
  lia.
Qed.

Lemma heatColor_alpha {M : MathObject} (scaled : number) :
  alpha (heatColor scaled) = Fin 255.
Proof.
  unfold heatColor. repeat (destruct (_ <? _)%num; [reflexivity|]). reflexivity.
Qed.

Section Renderer.
Context {M : MathObject}.

Lemma paint_paintColumns (spectrogramData : list (list number)) (a b : number)
    (d : list Z) :
  paint spectrogramData a b d =
  paintColumns (width spectrogramData) (pixelColor spectrogramData a b)
    (height spectrogramData) 0 (width spectrogramData) d.
Proof. reflexivity. Qed.

(** C8: the renderer flips the frequency axis.  In the image of a
    spectrogram of height H the four bytes of the pixel at column [x], row
    [y] are the colour of the normalized value at row [x], bin [H-1-y] (and
    the alpha 255): pixel row 0 shows bin H-1, pixel row H-1 shows bin 0. *)
Theorem heatmap_flips_frequency_axis
    (spectrogramData : list (list number)) (image : ImageData) (x y : nat) :
  canvasData true spectrogramData = Some image ->
  x < width spectrogramData -> y < height spectrogramData ->
  let H := height spectrogramData in
  let c := heatColor (normalizedAt spectrogramData x (H - 1 - y)) in
  let index := (y * width spectrogramData + x) * 4 in
  image_width image = width spectrogramData /\
  image_height image = H /\
  data image !! index = Some (toUint8Clamp (red c)) /\
  data image !! (index + 1) = Some (toUint8Clamp (green c)) /\
  data image !! (index + 2) = Some (toUint8Clamp (blue c)) /\
  data image !! (index + 3) = Some 255%Z.
Proof.
  intros Hc Hx Hy. cbv zeta. unfold canvasData in Hc.
  destruct ((length spectrogramData =? 0)
            || (height spectrogramData =? 0))%nat; [discriminate|].
  cbn [negb] in Hc. injection Hc as <-. cbn [image_width image_height data].
  split; [reflexivity|]. split; [reflexivity|].
  rewrite paint_paintColumns.
  set (index := (y * width spectrogramData + x) * 4).
  assert (Hd : index + 3 <
               length (createImageData (width spectrogramData)
                                       (height spectrogramData))).
  { rewrite createImageData_length. now apply pixel_in_image. }
  pose proof (fun k Hk =>
    paintColumns_same (width spectrogramData)
      (pixelColor spectrogramData (p5 spectrogramData) (p95 spectrogramData))
      (height spectrogramData) (width spectrogramData) x y k Hy Hk 0
      (createImageData (width spectrogramData) (height spectrogramData))
      ltac:(lia) ltac:(lia) Hd) as P.
  fold index in P. rewrite pixelColor_normalizedAt in P.
  repeat split.
  - rewrite <- (Nat.add_0_r index). exact (P 0 ltac:(lia)).
  - exact (P 1 ltac:(lia)).
  - exact (P 2 ltac:(lia)).
  - rewrite (P 3 ltac:(lia)). cbn [channel].
    now rewrite heatColor_alpha.
Qed.

End Renderer.

(** ** The degenerate range *)

Section Degenerate.
Context {M : MathObject}.

(** C2 (the code misses the claim): line 75 divides by [p95 - p5] with no
    guard.  When the two percentiles are equal, every positive value is
    clamped to [p5], the division is 0/0, and the value normalizes to NaN,
    not to 0; the power of line 79 keeps the NaN. *)
Theorem degenerate_range_divides_zero_by_zero
    (spectrogramData : list (list number)) (x y : nat) :
  Forall (Forall finite) spectrogramData ->
  x < width spectrogramData -> y < height spectrogramData ->
  (cell spectrogramData x y >? Fin 0)%num = true ->
  same_number (p5 spectrogramData) (p95 spectrogramData) ->
  normalizedMagnitude (p5 spectrogramData) (p95 spectrogramData)
    (cell spectrogramData x y) = NaN /\
  normalizedAt spectrogramData x y = NaN.
Proof.
  intros Hfin Hx Hy Hpos Hsame.
  pose proof (cell_finite spectrogramData x y Hfin) as Hc.
  apply finite_val in Hc. set (v := val (cell spectrogramData x y)) in *.
  unfold normalizedAt. rewrite Hc in *. apply lt_Fin in Hpos.
  pose proof (positives_nonempty _ x y v Hx Hy Hc Hpos) as Hsome.
  rewrite (p5_value _ Hfin Hsome), (p95_value _ Hfin Hsome) in *.
  cbn [same_number] in Hsame.
  rewrite (normalizedMagnitude_degenerate _ _ v Hpos Hsame).
  split; reflexivity.
Qed.

(** C4 (the code misses the claim): the spectrogram with the single
    magnitude 1/2 is not empty, and its normalized value is NaN, which is
    not in [0,1].  This is the unguarded division of C2. *)
Theorem single_value_normalizes_to_nan :
  normalizedAt [[Fin (1 # 2)]] 0 0 = NaN /\
  ~ in_unit (normalizedAt [[Fin (1 # 2)]] 0 0).
Proof.
  assert (E : normalizedAt [[Fin (1 # 2)]] 0 0 = NaN) by reflexivity.
  rewrite E. split; [reflexivity | intros []].
Qed.

End Degenerate.

(** ** NaN in the offline path *)

Section NaNPropagation.
Context {M : MathObject} {L : MathLaws M}.

Lemma cell_not_nan (spectrogramData : list (list number)) (x y : nat) :
  cell spectrogramData x y <> NaN.
Proof.
  unfold cell.
  destruct (spectrogramData !! x ≫= (fun row => row !! y)) as [a|]; cbn;
    [|discriminate].
  destruct a; cbn; try discriminate.
  destruct (Qeq_bool q 0); cbn; discriminate.
Qed.

(** A sum with one infinite term, the others finite, is that infinity. *)
Lemma sumTo_one_infinite (n : nat) (g : nat -> number) (t0 : nat)
    (v : number) :
  t0 < n -> v = PInf \/ v = NInf -> g t0 = v ->
  (forall t, t < n -> t <> t0 -> finite (g t)) ->
  sumTo n g = v.
Proof.
  intros Ht0 Hv Hg. induction n as [|n IH]; intros Hfin; [lia|].
  cbn [sumTo]. destruct (Nat.eq_dec t0 n) as [->|Hne].
  - assert (Hs : finite (sumTo n g))
      by (apply sumTo_finite; intros t Ht; apply Hfin; lia).
    rewrite Hg. destruct (sumTo n g); try contradiction.
    destruct Hv as [-> | ->]; reflexivity.
  - rewrite IH by (lia || (intros t Ht Hne'; apply Hfin; lia)).
    assert (Hn : finite (g n)) by (apply Hfin; lia).
    destruct (g n); try contradiction.
    destruct Hv as [-> | ->]; reflexivity.
Qed.

Lemma infinite_times_nonzero (v c : number) :
  v = PInf \/ v = NInf -> finite c -> truthy c = true ->
  (v * c)%num = PInf \/ (v * c)%num = NInf.
Proof.
  intros Hv Hc Ht. destruct c as [q| | |]; try contradiction.
  cbn [truthy] in Ht. apply negb_true_iff in Ht.
  apply Qeq_bool_neq in Ht.
  destruct Hv as [-> | ->]; cbn [mul].
  - destruct (Qcompare_spec q 0) as [E|E|E]; [contradiction|right|left];
      reflexivity.
  - destruct (Qcompare_spec 0 q) as [E|E|E];
      [symmetry in E; contradiction|right|left]; reflexivity.
Qed.

(** Lines 224-225 on an infinite sum of squares: the square root and the
    quotient are infinite, and [Math.min(1, Infinity)] is 1. *)
Lemma frequencyBin_clamps_infinity (windowed : list number) (f : nat) :
  (specReal windowed f * specReal windowed f +
   specImag windowed f * specImag windowed f)%num = PInf ->
  frequencyBin windowed f = Fin 1.
Proof.
  intros H. rewrite frequencyBin_sums, H. cbn [Math_sqrt].
  assert (E : (PInf / of_nat windowSize)%num = PInf)
    by (vm_compute; reflexivity).
  rewrite E. reflexivity.
Qed.

Lemma infinite_square (v : number) :
  v = PInf \/ v = NInf -> (v * v)%num = PInf.
Proof. intros [-> | ->]; reflexivity. Qed.

(** C5 as amended: the magnitude computation does not replace a
    non-finite value by 0.  A NaN in the windowed frame makes every
    magnitude of the frame NaN, and it is stored.  An infinite magnitude is
    clamped to 1: whenever the sum of the two squares is infinite the value
    stored is 1, and that is the case of a frame with one infinite sample,
    the others finite, at a bin where neither the cosine nor the sine
    factor of that sample is zero.  So a stored magnitude is NaN or a finite
    value in [0,1].  The NaN is treated as magnitude 0 where the renderer
    reads a cell ([value || 0]). *)
Theorem magnitude_keeps_nan_renderer_reads_zero :
  (forall windowed f,
     frequencyBin windowed f = NaN \/ in_unit (frequencyBin windowed f)) /\
  (forall windowed f t,
     t < windowSize -> windowed !! t = Some NaN ->
     frequencyBin windowed f = NaN) /\
  (forall windowed f,
     let acc := fold_left (accumulate windowed (of_nat f / of_nat fftSize)%num)
                  (seq 0 windowSize) (Fin 0, Fin 0) in
     (fst acc * fst acc + snd acc * snd acc)%num = PInf ->
     frequencyBin windowed f = Fin 1) /\
  (forall windowed f t,
     t < windowSize ->
     windowed !! t = Some PInf \/ windowed !! t = Some NInf ->
     (forall t', t' < windowSize -> t' <> t ->
        finite (to_number (windowed !! t'))) ->
     let angle :=
       (Fin (-2) * Math_PI * (of_nat f / of_nat fftSize) * of_nat t)%num in
     truthy (Math_cos angle) = true -> truthy (Math_sin angle) = true ->
     frequencyBin windowed f = Fin 1) /\
  (forall spectrogramData x y,
     cell spectrogramData x y <> NaN /\
     (spectrogramData !! x ≫= (fun row => row !! y) = Some NaN ->
      cell spectrogramData x y = Fin 0)).
Proof.
  split; [|split; [|split; [|split]]].
  - apply frequencyBin_unit_or_nan.
  - apply frequencyBin_nan.
  - intros windowed f. cbv zeta. rewrite accumulate_sums. cbn [fst snd].
    apply frequencyBin_clamps_infinity.
  - intros windowed f t Ht Hinf Hfin. cbv zeta.
    change (Fin (-2) * Math_PI * (of_nat f / of_nat fftSize) * of_nat t)%num
      with (specAngle f t).
    intros Hcos Hsin. apply frequencyBin_clamps_infinity.
    assert (Hv : to_number (windowed !! t) = PInf \/
                 to_number (windowed !! t) = NInf)
      by (destruct Hinf as [-> | ->]; [left|right]; reflexivity).
    pose proof (infinite_times_nonzero _ _ Hv
                  (finite_cos _ (specAngle_finite f t)) Hcos) as Hre.
    pose proof (infinite_times_nonzero _ _ Hv
                  (finite_sin _ (specAngle_finite f t)) Hsin) as Him.
    assert (Ere : specReal windowed f =
                  (to_number (windowed !! t) * Math_cos (specAngle f t))%num).
    { unfold specReal.
      apply (sumTo_one_infinite windowSize _ t); [exact Ht|exact Hre|reflexivity|].
      intros t' Ht' Hne. apply finite_mul; [now apply Hfin|].
      apply finite_cos, specAngle_finite. }
    assert (Eim : specImag windowed f =
                  (to_number (windowed !! t) * Math_sin (specAngle f t))%num).
    { unfold specImag.
      apply (sumTo_one_infinite windowSize _ t); [exact Ht|exact Him|reflexivity|].
      intros t' Ht' Hne. apply finite_mul; [now apply Hfin|].
      apply finite_sin, specAngle_finite. }
    rewrite Ere, Eim, (infinite_square _ Hre), (infinite_square _ Him).
    reflexivity.
  - intros sp x y. split; [apply cell_not_nan|].
    intros H. unfold cell. rewrite H. reflexivity.
Qed.

End NaNPropagation.

(** C5, the claim as stated fails: a waveform whose first sample is NaN
    gives a first row whose first magnitude is NaN, not 0. *)
Lemma nan_sample_is_stored_as_nan :
  exists row,
    generateFullSpectrogram (M := Reference.math)
      (NaN :: replicate 1024 (Fin 0)) (Fin 44100) !! 0%nat = Some row /\
    row !! 0%nat = Some NaN.
Proof.
  exists (frameRow (M := Reference.math) (NaN :: replicate 1024 (Fin 0))
            (0 * hopSize)). split.
  - apply generateFullSpectrogram_lookup. split; [vm_compute; lia | reflexivity].
  - unfold frameRow. rewrite frequencies_lookup by (vm_compute; lia).
    apply (f_equal Some).
    apply frequencyBin_nan with (t := 0%nat); [vm_compute; lia|].
    rewrite windowedSegment_lookup by (vm_compute; lia).
    rewrite slice_lookup by (vm_compute; lia). reflexivity.
Qed.

(** ** The theorems at concrete inputs *)

Lemma drops_last_frame_witness :
  length (generateFullSpectrogram (M := Reference.math)
            (replicate 1024 (Fin 0)) (Fin 44100)) = 0 /\
  (length (replicate 1024 (Fin 0)) - windowSize) / hopSize + 1 = 0 + 1.
Proof.
  apply (generateFullSpectrogram_drops_last_frame
           (replicate 1024 (Fin 0)) (Fin 44100) 0).
  vm_compute. reflexivity.
Defined.

Import Reference.

Lemma degenerate_range_witness :
  same_number (p5 constantSignal) (p95 constantSignal) /\
  normalizedMagnitude (p5 constantSignal) (p95 constantSignal)
    (cell constantSignal 0 0) = NaN /\
  normalizedAt (M := Reference.math) constantSignal 0 0 = NaN.
Proof.
  split; [vm_compute; reflexivity|].
  apply (degenerate_range_divides_zero_by_zero (M := Reference.math)
           constantSignal 0 0).
  - repeat constructor.
  - vm_compute. lia.
  - vm_compute. lia.
  - vm_compute. reflexivity.
  - vm_compute. reflexivity.
Defined.

Lemma frame_transform_witness :
  let audioData := map (fun t => Fin (Z.of_nat t # 2000)) (seq 0 1300) in
  Forall (Forall in_unit) (generateFullSpectrogram audioData (Fin 44100)) /\
  (forall k row,
     generateFullSpectrogram audioData (Fin 44100) !! k = Some row ->
     row = frequencies
             (windowedSegment
                (slice audioData (k * hopSize) (k * hopSize + windowSize))) /\
     length row = fftSize /\
     Forall (fun v => v = NaN \/ in_unit v) row) /\
  (forall x f, length x = windowSize -> f < fftSize ->
     exists v, frequencies x !! f = Some v /\
               same_number v (specMagnitude x f)).
Proof.
  cbv zeta.
  destruct (frame_transform_matches_spec
              (map (fun t => Fin (Z.of_nat t # 2000)) (seq 0 1300))
              (Fin 44100)) as (P1 & P2 & P3).
  split; [|split; [exact P2|exact P1]].
  apply P3. apply List.Forall_forall. intros a Ha.
  apply in_map_iff in Ha as (t & <- & _). exact I.
Defined.

Lemma magnitude_keeps_nan_witness :
  frequencyBin (M := Reference.math)
    (<[0%nat := NaN]> (replicate windowSize (Fin (1 # 2)))) 5 = NaN /\
  frequencyBin (M := Reference.math)
    (<[1%nat := PInf]> (replicate windowSize (Fin (1 # 2)))) 1 = Fin 1 /\
  cell [[NaN; Fin (1 # 2)]] 0 0 = Fin 0 /\
  cell [[NaN; Fin (1 # 2)]] 0 1 = Fin (1 # 2).
Proof.
  destruct (magnitude_keeps_nan_renderer_reads_zero (M := Reference.math))
    as (_ & Pnan & _ & Pinf & Pcell).
  assert (Hlen : forall t, t < windowSize ->
                   t < length (replicate windowSize (Fin (1 # 2))))
    by (intros t Ht; rewrite length_replicate; exact Ht).
  split; [|split; [|split]].
  - apply (Pnan _ 5 0%nat); [vm_compute; lia|].
    apply list_lookup_insert_eq, Hlen. vm_compute; lia.
  - apply (Pinf _ 1 1%nat).
    + vm_compute. lia.
    + left. apply list_lookup_insert_eq, Hlen. vm_compute; lia.
    + intros t' Ht' Hne. rewrite list_lookup_insert_ne by lia.
      rewrite lookup_replicate_2 by exact Ht'. exact I.
    + vm_compute. reflexivity.
    + vm_compute. reflexivity.
  - destruct (Pcell [[NaN; Fin (1 # 2)]] 0 0) as [_ P]. apply P. reflexivity.
  - reflexivity.
Defined.

Lemma normalization_monotone_witness :
  (normalizedAt (M := Reference.math)
     (setCell smallSpectrogram 0 1 (Fin (2 # 3))) 0 1 <?
   normalizedAt (M := Reference.math) smallSpectrogram 0 1)%num = false.
Proof.
  apply (normalization_monotone_in_own_value (M := Reference.math)
           smallSpectrogram 0 1 (Fin (1 # 2)) (Fin (2 # 3))).
  - repeat constructor.
  - exact I.
  - vm_compute. lia.
  - vm_compute. lia.
  - reflexivity.
  - reflexivity.
Defined.

Lemma heatmap_flip_witness :
  let image :=
    {| image_width := 2; image_height := 2;
       data := [78; 203; 107; 255; 255; 0; 0; 255;
                0; 0; 0; 255; 255; 187; 0; 255]%Z |} in
  canvasData (M := Reference.math) true smallSpectrogram = Some image /\
  normalizedAt (M := Reference.math) smallSpectrogram 1 0 =
    Fin (876706528 # 1073741824) /\
  data image !! 12%nat = Some 255%Z /\
  data image !! 13%nat = Some 187%Z /\
  data image !! 14%nat = Some 0%Z /\
  data image !! 15%nat = Some 255%Z.
Proof.
  cbv zeta. split; [vm_compute; reflexivity|]. split; [vm_compute; reflexivity|].
  pose proof (heatmap_flips_frequency_axis (M := Reference.math)
                smallSpectrogram
                {| image_width := 2; image_height := 2;
                   data := [78; 203; 107; 255; 255; 0; 0; 255;
                            0; 0; 0; 255; 255; 187; 0; 255]%Z |} 1 1
                ltac:(vm_compute; reflexivity) ltac:(vm_compute; lia)
                ltac:(vm_compute; lia)) as P.
  cbv zeta in P. destruct P as (_ & _ & P0 & P1 & P2 & P3).
  repeat split; assumption.
Defined.

(** What the degenerate range looks like: the constant signal is painted
    red at every pixel (the NaN falls through the colour bands to the last
    one, and its NaN green byte is stored as 0), where silence is painted
    black. *)
Example constant_signal_is_painted_red :
  data <$> canvasData true constantSignal =
  Some [255; 0; 0; 255; 255; 0; 0; 255; 255; 0; 0; 255; 255; 0; 0; 255]%Z.
Proof. vm_compute. reflexivity. Qed.

Example silence_is_painted_black :
  data <$> canvasData true [[Fin 0; Fin 0]; [Fin 0; Fin 0]] =
  Some [0; 0; 0; 255; 0; 0; 0; 255; 0; 0; 0; 255; 0; 0; 0; 255]%Z.
Proof. vm_compute. reflexivity. Qed.

(** * Further facts *)

(** ** The image as a whole *)

Lemma toUint8Clamp_range (a : number) : (0 <= toUint8Clamp a <= 255)%Z.
Proof. destruct a; cbn [toUint8Clamp]; lia. Qed.

Lemma putPixel_Forall (P : Z -> Prop) (w x y : nat) (c : Color) (d : list Z) :
  (forall a, P (toUint8Clamp a)) -> Forall P d -> Forall P (putPixel w x y c d).
Proof.
  intros HP Hd. unfold putPixel. cbv zeta.
  repeat apply Forall_insert; auto.
Qed.

Lemma paintColumn_Forall (P : Z -> Prop) (w : nat) (color : nat -> nat -> Color)
    (x n : nat) :
  (forall a, P (toUint8Clamp a)) ->
  forall s d, Forall P d -> Forall P (paintColumn w color x s n d).
Proof.
  intros HP. induction n as [|n IH]; intros s d Hd; [exact Hd|].
  unfold paintColumn in *. cbn [seq fold_left].
  apply IH. now apply putPixel_Forall.
Qed.

Lemma paintColumns_Forall (P : Z -> Prop) (w : nat) (color : nat -> nat -> Color)
    (h n : nat) :
  (forall a, P (toUint8Clamp a)) ->
  forall s d, Forall P d -> Forall P (paintColumns w color h s n d).
Proof.
  intros HP. induction n as [|n IH]; intros s d Hd; [exact Hd|].
  unfold paintColumns in *. cbn [seq fold_left].
  apply IH. now apply paintColumn_Forall.
Qed.

Lemma paintColumns_length (w : nat) (color : nat -> nat -> Color) (h n : nat) :
  forall s d, length (paintColumns w color h s n d) = length d.
Proof.
  induction n as [|n IH]; intros s d; [reflexivity|].
  unfold paintColumns in *. cbn [seq fold_left].
  now rewrite IH, paintColumn_length.
Qed.

Section WholeImage.
Context {M : MathObject}.

Lemma canvasData_Some (context2d : bool) (spectrogramData : list (list number))
    (image : ImageData) :
  canvasData context2d spectrogramData = Some image ->
  context2d = true /\ 0 < width spectrogramData /\ 0 < height spectrogramData /\
  image =
    {| image_width := width spectrogramData;
       image_height := height spectrogramData;
       data := paint spectrogramData (p5 spectrogramData) (p95 spectrogramData)
                 (createImageData (width spectrogramData)
                                  (height spectrogramData)) |}.
Proof.
  unfold canvasData, width. intros H.
  destruct (Nat.eqb_spec (length spectrogramData) 0) as [|Hw];
    [discriminate|].
  destruct (Nat.eqb_spec (height spectrogramData) 0) as [|Hh];
    [discriminate|].
  cbn [orb] in H. destruct context2d; [|discriminate]. cbn [negb] in H.
  injection H as <-. repeat split; lia.
Qed.

(** The bytes of one pixel. *)
Lemma canvasData_pixel (context2d : bool) (spectrogramData : list (list number))
    (image : ImageData) (x y k : nat) :
  canvasData context2d spectrogramData = Some image ->
  x < width spectrogramData -> y < height spectrogramData -> k < 4 ->
  data image !! ((y * width spectrogramData + x) * 4 + k) =
  Some (channel k
          (heatColor
             (normalizedAt spectrogramData x
                (height spectrogramData - 1 - y)))).
Proof.
  intros H Hx Hy Hk. apply canvasData_Some in H as (_ & _ & _ & ->).
  cbn [data]. rewrite paint_paintColumns, <- pixelColor_normalizedAt.
  apply paintColumns_same; try lia.
  rewrite createImageData_length. now apply pixel_in_image.
Qed.

(** X1: The renderer gives an image only for a spectrogram with a row and a
    bin and with a 2D context; the image is then a full RGBA buffer: four
    bytes per pixel, each between 0 and 255, every alpha byte 255. *)
Theorem image_is_opaque_rgba (context2d : bool)
    (spectrogramData : list (list number)) (image : ImageData) :
  canvasData context2d spectrogramData = Some image ->
  context2d = true /\
  0 < width spectrogramData /\ 0 < height spectrogramData /\
  image_width image = width spectrogramData /\
  image_height image = height spectrogramData /\
  length (data image) = 4 * width spectrogramData * height spectrogramData /\
  Forall (fun b => (0 <= b <= 255)%Z) (data image) /\
  forall i, i < width spectrogramData * height spectrogramData ->
            data image !! (i * 4 + 3) = Some 255%Z.
Proof.
  intros H. pose proof (canvasData_Some _ _ _ H) as (Hc & Hw & Hh & E).
  split; [exact Hc|]. split; [exact Hw|]. split; [exact Hh|].
  split; [now rewrite E|]. split; [now rewrite E|]. split; [|split].
  - rewrite E. cbn [data].
    now rewrite paint_paintColumns, paintColumns_length, createImageData_length.
  - rewrite E. cbn [data]. rewrite paint_paintColumns.
    apply paintColumns_Forall; [apply toUint8Clamp_range|].
    unfold createImageData. apply Forall_replicate. lia.
  - intros i Hi.
    pose proof (Nat.div_mod_eq i (width spectrogramData)) as Ei.
    assert (Hxm : i mod width spectrogramData < width spectrogramData)
      by (apply Nat.mod_upper_bound; lia).
    assert (Hyd : i / width spectrogramData < height spectrogramData)
      by (apply Nat.Div0.div_lt_upper_bound; lia).
    pose proof (canvasData_pixel _ _ _ _ _ 3 H Hxm Hyd ltac:(lia)) as Hp.
    rewrite (Nat.mul_comm (i / _)), <- Ei in Hp. rewrite Hp.
    cbn [channel]. now rewrite heatColor_alpha.
Qed.

End WholeImage.

(** ** What is painted black, and what red *)

Lemma cell_nonpositive (spectrogramData : list (list number)) (x y : nat) :
  Forall (Forall (fun v => isPositive v = false)) spectrogramData ->
  (cell spectrogramData x y <=? Fin 0)%num = true.
Proof.
  intros Hall. unfold cell.
  destruct (spectrogramData !! x) as [row|] eqn:Hrow; [|reflexivity].
  cbn [mbind option_bind]. destruct (row !! y) as [v|] eqn:Hv; [|reflexivity].
  pose proof (Forall_lookup_1 _ _ _ _ (Forall_lookup_1 _ _ _ _ Hall Hrow) Hv)
    as Hneg. cbv beta in Hneg.
  destruct v as [q| | |]; try reflexivity; [|discriminate Hneg].
  unfold isPositive, gt in Hneg. apply lt_Fin_false in Hneg.
  unfold or_else. destruct (truthy (Fin q)); apply le_Fin; lra.
Qed.

Lemma black_channels (k : nat) :
  k < 4 -> channel k (heatColor (Fin 0)) = nth k [0; 0; 0; 255]%Z 0%Z.
Proof.
  intros Hk. destruct k as [|[|[|[|k]]]]; try lia; reflexivity.
Qed.

Lemma red_channels (k : nat) :
  k < 4 -> channel k (heatColor NaN) = nth k [255; 0; 0; 255]%Z 0%Z.
Proof.
  intros Hk. destruct k as [|[|[|[|k]]]]; try lia; reflexivity.
Qed.

Section Extremes.
Context {M : MathObject}.

(** X2: A spectrogram without a positive entry (zeros, negative values, NaN)
    is painted black, opaque, at every pixel. *)
Theorem no_positive_magnitude_paints_black
    (spectrogramData : list (list number)) (image : ImageData) (x y k : nat) :
  canvasData true spectrogramData = Some image ->
  Forall (Forall (fun v => (v >? Fin 0)%num = false)) spectrogramData ->
  x < width spectrogramData -> y < height spectrogramData -> k < 4 ->
  data image !! ((y * width spectrogramData + x) * 4 + k) =
  Some (nth k [0; 0; 0; 255]%Z 0%Z).
Proof.
  intros H Hall Hx Hy Hk.
  rewrite (canvasData_pixel _ _ _ x y k H Hx Hy Hk).
  rewrite normalizedAt_no_positive by (now apply cell_nonpositive).
  now rewrite black_channels.
Qed.

(** X3: When the 5th and the 95th percentile coincide, every positive cell is
    painted pure red, whatever its magnitude. *)
Theorem degenerate_range_paints_positive_cells_red
    (spectrogramData : list (list number)) (image : ImageData) (x y k : nat) :
  canvasData true spectrogramData = Some image ->
  Forall (Forall finite) spectrogramData ->
  x < width spectrogramData -> y < height spectrogramData -> k < 4 ->
  (cell spectrogramData x (height spectrogramData - 1 - y) >? Fin 0)%num = true ->
  same_number (p5 spectrogramData) (p95 spectrogramData) ->
  data image !! ((y * width spectrogramData + x) * 4 + k) =
  Some (nth k [255; 0; 0; 255]%Z 0%Z).
Proof.
  intros H Hfin Hx Hy Hk Hpos Hsame.
  rewrite (canvasData_pixel _ _ _ x y k H Hx Hy Hk).
  set (y' := height spectrogramData - 1 - y) in *.
  assert (Hy' : y' < height spectrogramData) by (unfold y'; lia).
  pose proof (cell_finite spectrogramData x y' Hfin) as Hc.
  apply finite_val in Hc. unfold normalizedAt. rewrite Hc in Hpos |- *.
  apply isPositive_Fin in Hpos.
  assert (Hsome : 0 < length (positives spectrogramData))
    by (eapply positives_nonempty; eauto).
  rewrite (p5_value _ Hfin Hsome), (p95_value _ Hfin Hsome) in Hsame |- *.
  rewrite normalizedMagnitude_degenerate by assumption.
  replace (scaledMagnitude NaN) with NaN by reflexivity.
  now rewrite red_channels.
Qed.

(** X4: With distinct percentiles, a positive cell at or below the 5th
    percentile is painted black like a silent one: the normalizer sends it
    to 0.  A cell at or above the 95th is sent to 1, and one in between to
    its place in the range. *)
Theorem percentile_clamp_saturates
    (spectrogramData : list (list number)) (x y : nat) :
  Forall (Forall finite) spectrogramData ->
  x < width spectrogramData -> y < height spectrogramData ->
  (cell spectrogramData x y >? Fin 0)%num = true ->
  (p5 spectrogramData <? p95 spectrogramData)%num = true ->
  let raw := cell spectrogramData x y in
  let low := p5 spectrogramData in
  let high := p95 spectrogramData in
  ((raw <=? low)%num = true ->
     same_number (normalizedMagnitude low high raw) (Fin 0) /\
     heatColor (normalizedAt spectrogramData x y) = heatColor (Fin 0)) /\
  ((high <=? raw)%num = true ->
     same_number (normalizedMagnitude low high raw) (Fin 1)) /\
  ((low <=? raw)%num = true -> (raw <=? high)%num = true ->
     same_number (normalizedMagnitude low high raw)
                 ((raw - low) / (high - low))%num).
Proof.
  intros Hfin Hx Hy Hpos Hlt. cbv zeta.
  pose proof (cell_finite spectrogramData x y Hfin) as Hc.
  apply finite_val in Hc. unfold normalizedAt. rewrite Hc in Hpos |- *.
  apply isPositive_Fin in Hpos.
  assert (Hsome : 0 < length (positives spectrogramData))
    by (eapply positives_nonempty; eauto).
  rewrite (p5_value _ Hfin Hsome), (p95_value _ Hfin Hsome) in Hlt |- *.
  apply lt_Fin in Hlt.
  set (a := q5 spectrogramData) in *. set (b := q95 spectrogramData) in *.
  set (v := val (cell spectrogramData x y)) in *.
  destruct (normalizedMagnitude_ratio a b v Hpos Hlt) as (c & E & Hcase).
  assert (Hne : ~ (b + - a == 0)%Q) by (intros E0; lra).
  rewrite E. split; [|split].
  - intros Hle. apply le_Fin in Hle.
    assert (Ec : (c == a)%Q) by (destruct Hcase as [?|[?|?]]; lra).
    assert (Ez : ((c + - a) / (b + - a) == 0)%Q)
      by (rewrite Ec; field; exact Hne).
    split; [exact Ez|].
    now rewrite (scaledMagnitude_zero _ Ez).
  - intros Hle. apply le_Fin in Hle.
    assert (Ec : (c == b)%Q) by (destruct Hcase as [?|[?|?]]; lra).
    cbn [same_number]. rewrite Ec. field. exact Hne.
  - intros Hl Hh. apply le_Fin in Hl. apply le_Fin in Hh.
    assert (Ec : (c == v)%Q) by (destruct Hcase as [?|[?|?]]; lra).
    cbn [sub add neg]. rewrite div_Fin by exact Hne.
    cbn [same_number]. now rewrite Ec.
Qed.

End Extremes.

(** ** The image is a function of the cells the loops read *)

Lemma fold_left_ext_in {A B : Type} (f g : A -> B -> A) (l : list B) :
  (forall a b, In b l -> f a b = g a b) ->
  forall a, fold_left f l a = fold_left g l a.
Proof.
  induction l as [|b l IH]; intros Hfg a; [reflexivity|].
  cbn [fold_left]. rewrite (Hfg a b) by (now left).
  apply IH. intros a' b' Hin. apply Hfg. now right.
Qed.

Lemma paintColumns_ext (w h : nat) (color color' : nat -> nat -> Color)
    (d : list Z) :
  (forall x y, x < w -> y < h -> color x y = color' x y) ->
  paintColumns w color h 0 w d = paintColumns w color' h 0 w d.
Proof.
  intros Hc. unfold paintColumns, paintColumn.
  apply fold_left_ext_in. intros d' x Hx. apply in_seq in Hx.
  apply fold_left_ext_in. intros d'' y Hy. apply in_seq in Hy.
  rewrite Hc by lia. reflexivity.
Qed.

Lemma cells_ext (sp sp' : list (list number)) :
  width sp = width sp' -> height sp = height sp' ->
  (forall x y, x < width sp -> y < height sp -> cell sp x y = cell sp' x y) ->
  cells sp = cells sp'.
Proof.
  intros Hw Hh Hc. unfold cells. rewrite <- Hw, <- Hh. f_equal.
  apply map_ext_in. intros x Hx. apply in_seq in Hx.
  apply map_ext_in. intros y Hy. apply in_seq in Hy.
  apply Hc; lia.
Qed.

(** X5: Two spectrograms with the same number of rows, the same length of the
    first row and the same cells inside that rectangle give the same
    image: entries beyond the length of the first row are never read, and
    a missing entry, a zero and a NaN are the same to the renderer. *)
Theorem image_depends_on_rendered_cells {M : MathObject}
    (context2d : bool) (sp sp' : list (list number)) :
  width sp = width sp' -> height sp = height sp' ->
  (forall x y, x < width sp -> y < height sp -> cell sp x y = cell sp' x y) ->
  canvasData context2d sp = canvasData context2d sp'.
Proof.
  intros Hw Hh Hc.
  assert (Es : scan sp = scan sp')
    by (rewrite !scan_cells; f_equal; now apply cells_ext).
  assert (E5 : p5 sp = p5 sp') by (unfold p5; now rewrite Es).
  assert (E95 : p95 sp = p95 sp') by (unfold p95; now rewrite Es).
  unfold canvasData. fold (width sp) (width sp').
  rewrite !paint_paintColumns, <- E5, <- E95, <- Hw, <- Hh.
  rewrite (paintColumns_ext _ _ (pixelColor sp (p5 sp) (p95 sp))
             (pixelColor sp' (p5 sp) (p95 sp))); [reflexivity|].
  intros x y Hx Hy. unfold pixelColor. cbv zeta.
  rewrite <- Hh, Hc by lia. reflexivity.
Qed.

(** ** The percentiles as order statistics *)

(** X6: When a cell is positive, the two percentiles are positive values of
    the spectrogram, the lower not above the upper; with [n] positive
    values, at most [floor(n * 5/100)] of them are below the lower one and
    more than that many are not above it, and likewise for the upper one
    with [floor(n * 95/100)]. *)
Theorem percentiles_are_order_statistics {M : MathObject}
    (spectrogramData : list (list number)) (x y : nat) :
  Forall (Forall finite) spectrogramData ->
  x < width spectrogramData -> y < height spectrogramData ->
  (cell spectrogramData x y >? Fin 0)%num = true ->
  let a := positives spectrogramData in
  exists low high : Q,
    p5 spectrogramData = Fin low /\ p95 spectrogramData = Fin high /\
    In low a /\ In high a /\ (0 < low)%Q /\ (low <= high)%Q /\
    count_lt low a <= rank (length a) 5 < count_le low a /\
    count_lt high a <= rank (length a) 95 < count_le high a.
Proof.
  intros Hfin Hx Hy Hpos. cbv zeta.
  pose proof (cell_finite spectrogramData x y Hfin) as Hc.
  apply finite_val in Hc. rewrite Hc in Hpos. apply isPositive_Fin in Hpos.
  assert (Hsome : 0 < length (positives spectrogramData))
    by (eapply positives_nonempty; eauto).
  exists (q5 spectrogramData), (q95 spectrogramData).
  pose proof (sortQ_Permutation (positives spectrogramData)) as Hperm.
  pose proof (sortQ_sorted (positives spectrogramData)) as Hsorted.
  pose proof (rank_95_lt _ Hsome) as H95.
  pose proof (rank_5_le_95 (length (positives spectrogramData))) as H5.
  assert (Hin : forall k, k < length (positives spectrogramData) ->
                  In (nth k (sortQ (positives spectrogramData)) 0%Q)
                     (positives spectrogramData)).
  { intros k Hk. apply (Permutation_in _ Hperm).
    apply nth_In. now rewrite sortQ_length. }
  split; [now apply p5_value|]. split; [now apply p95_value|].
  split; [apply Hin; lia|]. split; [apply Hin; lia|].
  split.
  { pose proof (positives_positive _ Hfin) as Hall.
    rewrite List.Forall_forall in Hall. apply Hall, Hin. lia. }
  split; [now apply q5_le_q95|].
  unfold q5, q95. cbv zeta.
  rewrite <- !(count_lt_Permutation _ _ _ Hperm),
          <- !(count_le_Permutation _ _ _ Hperm).
  split; (split;
    [apply sorted_count_lt_nth | apply sorted_count_le_nth];
    rewrite ?sortQ_length; try exact Hsorted; lia).
Qed.

(** ** The colour map *)

Lemma Qfloor_byte (e : Q) :
  (0 <= e)%Q -> (e < 256)%Q -> (0 <= Qfloor e <= 255)%Z.
Proof.
  intros H0 H1. pose proof (Qfloor_le e) as Hle.
  pose proof (Qlt_floor e) as Hlt. split.
  - assert (H : (inject_Z 0 < inject_Z (Qfloor e + 1))%Q)
      by (change (inject_Z 0) with 0%Q; lra).
    rewrite <- Zlt_Qlt in H. lia.
  - assert (H : (inject_Z (Qfloor e) < inject_Z 256)%Q)
      by (change (inject_Z 256) with 256%Q; lra).
    rewrite <- Zlt_Qlt in H. lia.
Qed.

Lemma toUint8Clamp_of_Z (z : Z) :
  (0 <= z <= 255)%Z -> toUint8Clamp (of_Z z) = z.
Proof.
  intros Hz. unfold of_Z, toUint8Clamp, roundHalfEven. cbv zeta.
  rewrite Qfloor_Z.
  assert (H : (inject_Z z - inject_Z z < 1 # 2)%Q) by lra.
  rewrite Qlt_alt in H. rewrite H. lia.
Qed.

(** A floor of a rational in [0, 256) is stored as it is. *)
Lemma floor_stored (e : Q) :
  (0 <= e)%Q -> (e < 256)%Q ->
  Math_floor (Fin e) = of_Z (toUint8Clamp (Math_floor (Fin e))) /\
  toUint8Clamp (Math_floor (Fin e)) = Qfloor e.
Proof.
  intros H0 H1. cbn [Math_floor].
  rewrite toUint8Clamp_of_Z by (now apply Qfloor_byte). now split.
Qed.

Lemma div_quarter (q : Q) : (Fin q / Fin (25 # 100))%num = Fin (q * (100 # 25)).
Proof. reflexivity. Qed.

(** The colour of an intensity in the five bands of lines 84-118. *)
Lemma heatColor_bands (s : Q) :
  heatColor (Fin s) =
  if Qlt_le_dec s (1 # 100) then
    {| red := Fin 0; green := Fin 0;
       blue := Math_floor (Fin (s * 2000)); alpha := Fin 255 |}
  else if Qlt_le_dec s (25 # 100) then
    {| red := Fin 0; green := Fin 0;
       blue := Math_floor (Fin (50 + s * (100 # 25) * 155)); alpha := Fin 255 |}
  else if Qlt_le_dec s (5 # 10) then
    {| red := Fin 0;
       green := Math_floor (Fin ((s + - (25 # 100)) * (100 # 25) * 180));
       blue := Math_floor (Fin (205 + - ((s + - (25 # 100)) * (100 # 25) * 50)));
       alpha := Fin 255 |}
  else if Qlt_le_dec s (75 # 100) then
    {| red := Math_floor (Fin ((s + - (5 # 10)) * (100 # 25) * 255));
       green := Math_floor (Fin (180 + (s + - (5 # 10)) * (100 # 25) * 75));
       blue := Math_floor (Fin (155 + - ((s + - (5 # 10)) * (100 # 25) * 155)));
       alpha := Fin 255 |}
  else
    {| red := Fin 255;
       green := Math_floor (Fin (255 + - ((s + - (75 # 100)) * (100 # 25) * 255)));
       blue := Fin 0; alpha := Fin 255 |}.
Proof.
  unfold heatColor.
  destruct (Qlt_le_dec s (1 # 100)) as [H1|H1].
  { apply lt_Fin in H1. rewrite H1. reflexivity. }
  apply lt_Fin_false in H1. rewrite H1.
  destruct (Qlt_le_dec s (25 # 100)) as [H2|H2].
  { apply lt_Fin in H2. rewrite H2. reflexivity. }
  apply lt_Fin_false in H2. rewrite H2.
  destruct (Qlt_le_dec s (5 # 10)) as [H3|H3].
  { apply lt_Fin in H3. rewrite H3. reflexivity. }
  apply lt_Fin_false in H3. rewrite H3.
  destruct (Qlt_le_dec s (75 # 100)) as [H4|H4].
  { apply lt_Fin in H4. rewrite H4. reflexivity. }
  apply lt_Fin_false in H4. rewrite H4. reflexivity.
Qed.

(** X7: For an intensity between 0 and 1 the three colour values computed are
    integers between 0 and 255, so the bytes stored are the values
    computed: the store neither clamps nor rounds. *)
Theorem heat_colors_are_bytes (scaled : number) :
  in_unit scaled ->
  let c := heatColor scaled in
  red c = of_Z (channel 0 c) /\ green c = of_Z (channel 1 c) /\
  blue c = of_Z (channel 2 c) /\ alpha c = of_Z (channel 3 c).
Proof.
  destruct scaled as [s| | |]; try contradiction. intros [H0 H1]. cbv zeta.
  rewrite heatColor_bands.
  repeat destruct (Qlt_le_dec s _); cbn [red green blue alpha channel];
    repeat split; try reflexivity; apply floor_stored; lra.
Qed.

(** The red value of an intensity: nothing below one half, saturated from
    three quarters. *)
Lemma heatColor_red (s : Q) :
  (0 <= s)%Q -> (s <= 1)%Q ->
  channel 0 (heatColor (Fin s)) =
  if Qlt_le_dec s (5 # 10) then 0%Z
  else if Qlt_le_dec s (75 # 100)
       then Qfloor ((s + - (5 # 10)) * (100 # 25) * 255)
       else 255%Z.
Proof.
  intros H0 H1. rewrite heatColor_bands.
  repeat destruct (Qlt_le_dec s _); cbn [red channel]; try reflexivity;
    try lra.
  apply floor_stored; lra.
Qed.

(** X8: The red byte never decreases as the intensity grows, and the blue
    byte is zero from three quarters up. *)
Theorem heat_red_is_monotone (s s' : Q) :
  (0 <= s)%Q -> (s <= s')%Q -> (s' <= 1)%Q ->
  (channel 0 (heatColor (Fin s)) <= channel 0 (heatColor (Fin s')))%Z /\
  ((75 # 100 <= s)%Q -> channel 0 (heatColor (Fin s)) = 255%Z /\
                        channel 2 (heatColor (Fin s)) = 0%Z).
Proof.
  intros H0 Hle H1. split.
  - rewrite !heatColor_red by lra.
    destruct (Qlt_le_dec s (5 # 10)), (Qlt_le_dec s' (5 # 10)),
      (Qlt_le_dec s (75 # 100)), (Qlt_le_dec s' (75 # 100));
      try lia; try lra.
    + apply Qfloor_byte; lra.
    + apply Qfloor_resp_le. lra.
    + apply Qfloor_byte; lra.
  - intros H75. rewrite heatColor_bands.
    repeat destruct (Qlt_le_dec s _); try lra. now split.
Qed.

(** ** The frames and the end of the recording *)

Lemma rowCount_tail (len : nat) :
  windowSize < len ->
  0 < rowCount len /\
  (rowCount len - 1) * hopSize + windowSize < len /\
  len <= (rowCount len - 1) * hopSize + windowSize + hopSize.
Proof.
  unfold rowCount, remaining. rewrite windowSize_value, hopSize_value.
  intros Hlen.
  destruct (Nat.ltb_spec (0 + 1024) len) as [_|]; [|lia].
  replace (len - 1024 - 1 - 0) with (len - 1025) by lia.
  pose proof (Nat.div_mod_eq (len - 1025) 256) as E.
  pose proof (Nat.mod_upper_bound (len - 1025) 256 ltac:(lia)) as Hr.
  lia.
Qed.

(** X9: A recording longer than one window gives at least one frame; every
    frame reads 1024 samples that the recording has, none of them the last
    sample; and after the last frame between 1 and 256 samples are left
    that no frame reads. *)
Theorem frames_leave_a_short_tail {M : MathObject}
    (audioData : list number) (sampleRate : number) :
  windowSize < length audioData ->
  let n := length (generateFullSpectrogram audioData sampleRate) in
  0 < n /\
  (forall k row,
     generateFullSpectrogram audioData sampleRate !! k = Some row ->
     k * hopSize + windowSize < length audioData /\
     length (slice audioData (k * hopSize) (k * hopSize + windowSize)) =
       windowSize) /\
  1 <= length audioData - ((n - 1) * hopSize + windowSize) <= hopSize.
Proof.
  intros Hlen. cbv zeta. rewrite generateFullSpectrogram_length.
  destruct (rowCount_tail _ Hlen) as (Hn & Hlow & Hhigh).
  split; [exact Hn|]. split; [|lia].
  intros k row Hrow. apply generateFullSpectrogram_lookup in Hrow as [Hk _].
  pose proof (rowCount_offset _ _ Hk) as Hoff. split; [exact Hoff|].
  unfold slice. rewrite length_take, length_drop. lia.
Qed.

(** ** Silence *)

Lemma zero_mul_finite (a b : number) :
  same_number a (Fin 0) -> finite b -> same_number (a * b)%num (Fin 0).
Proof.
  destruct a as [x| | |], b as [y| | |]; simpl; try easy.
  intros Hx _. rewrite Hx. ring.
Qed.

Lemma zero_add (a b : number) :
  same_number a (Fin 0) -> same_number b (Fin 0) ->
  same_number (a + b)%num (Fin 0).
Proof.
  destruct a as [x| | |], b as [y| | |]; simpl; try easy.
  intros Hx Hy. rewrite Hx, Hy. ring.
Qed.

Lemma sumTo_zero (n : nat) (g : nat -> number) :
  (forall t, t < n -> same_number (g t) (Fin 0)) ->
  same_number (sumTo n g) (Fin 0).
Proof.
  induction n as [|n IH]; intros Hg; [reflexivity|].
  cbn [sumTo]. apply zero_add; [apply IH; intros t Ht; apply Hg; lia|].
  apply Hg. lia.
Qed.

Lemma zero_not_positive (v : number) :
  same_number v (Fin 0) -> isPositive v = false.
Proof.
  destruct v as [q| | |]; try contradiction. cbn [same_number]. intros Hq.
  unfold isPositive, gt. apply lt_Fin_false. lra.
Qed.

Lemma canvasData_nonempty {M : MathObject} (sp : list (list number)) :
  0 < width sp -> 0 < height sp ->
  exists image, canvasData true sp = Some image.
Proof.
  intros Hw Hh. unfold canvasData. unfold width in Hw.
  destruct (Nat.eqb_spec (length sp) 0) as [|_]; [lia|].
  destruct (Nat.eqb_spec (height sp) 0) as [|_]; [lia|].
  cbn [orb negb]. eexists. reflexivity.
Qed.

Section Silence.
Context {M : MathObject} {Z0 : MathZero M}.

Lemma frequencyBin_zero (windowed : list number) (f : nat) :
  (forall t, t < windowSize ->
     same_number (to_number (windowed !! t)) (Fin 0)) ->
  same_number (frequencyBin windowed f) (Fin 0).
Proof.
  intros Hw. rewrite frequencyBin_sums.
  assert (Hr : same_number (specReal windowed f) (Fin 0)).
  { apply sumTo_zero. intros t Ht. apply zero_mul_finite; [apply Hw; exact Ht|].
    apply finite_cos, specAngle_finite. }
  assert (Hi : same_number (specImag windowed f) (Fin 0)).
  { apply sumTo_zero. intros t Ht. apply zero_mul_finite; [apply Hw; exact Ht|].
    apply finite_sin, specAngle_finite. }
  destruct (specReal windowed f) as [r| | |]; [|destruct Hr..].
  destruct (specImag windowed f) as [i| | |]; [|destruct Hi..].
  cbn [same_number] in Hr, Hi. cbn [mul add Math_sqrt].
  assert (Hz : (r * r + i * i == 0)%Q) by (rewrite Hr, Hi; ring).
  assert (Hs : Qle_bool 0 (r * r + i * i) = true)
    by (apply Qle_bool_iff; rewrite Hz; lra).
  rewrite Hs. unfold of_nat, of_Z.
  rewrite div_Fin by (intros E; vm_compute in E; discriminate).
  pose proof (approx_sqrt_zero _ Hz) as Hroot.
  cbn [mul].
  set (m := (approx_sqrt (r * r + i * i) / inject_Z (Z.of_nat windowSize) * 10)%Q).
  assert (Hm : (m == 0)%Q).
  { unfold m. rewrite Hroot. unfold Qdiv. ring. }
  assert (Hlt : (Fin m <? Fin 1)%num = true) by (apply lt_Fin; lra).
  unfold Math_min. rewrite Hlt. exact Hm.
Qed.

Lemma frameRow_zero (audioData : list number) (i : nat) :
  Forall (fun a => same_number a (Fin 0)) audioData ->
  i + windowSize < length audioData ->
  Forall (fun v => same_number v (Fin 0)) (frameRow audioData i).
Proof.
  intros Hzero Hi. unfold frameRow. cbv zeta. unfold frequencies.
  apply Forall_fmap, Forall_forall. intros f _. cbv beta.
  apply frequencyBin_zero. intros t Ht.
  rewrite windowedSegment_lookup by exact Ht.
  rewrite slice_lookup by exact Ht. cbn [to_number].
  destruct (lookup_lt_is_Some_2 audioData (i + t) ltac:(lia)) as [a Ha].
  rewrite Ha. cbn [to_number].
  apply zero_mul_finite; [|apply windowValue_finite].
  exact (Forall_lookup_1 _ _ _ _ Hzero Ha).
Qed.

(** X10: A silent recording longer than one window gives a spectrogram of
    zeros, and the heat map of that spectrogram is black at every
    pixel. *)
Theorem silent_recording_is_black
    (audioData : list number) (sampleRate : number) :
  Forall (fun a => same_number a (Fin 0)) audioData ->
  windowSize < length audioData ->
  let sp := generateFullSpectrogram audioData sampleRate in
  Forall (Forall (fun v => same_number v (Fin 0))) sp /\
  exists image,
    canvasData true sp = Some image /\
    forall x y k,
      x < image_width image -> y < image_height image -> k < 4 ->
      data image !! ((y * image_width image + x) * 4 + k) =
      Some (nth k [0; 0; 0; 255]%Z 0%Z).
Proof.
  intros Hzero Hlen. cbv zeta.
  assert (Hall : Forall (Forall (fun v => same_number v (Fin 0)))
                   (generateFullSpectrogram audioData sampleRate)).
  { apply Forall_lookup_2. intros k row Hrow.
    apply generateFullSpectrogram_lookup in Hrow as [Hk ->].
    apply frameRow_zero; [exact Hzero|]. now apply rowCount_offset. }
  split; [exact Hall|].
  destruct (rowCount_tail _ Hlen) as (Hn & _ & _).
  assert (Hw : 0 < width (generateFullSpectrogram audioData sampleRate)).
  { unfold width. now rewrite generateFullSpectrogram_length. }
  assert (Hh : 0 < height (generateFullSpectrogram audioData sampleRate)).
  { unfold height.
    destruct (generateFullSpectrogram audioData sampleRate !! 0) as [row|] eqn:E.
    - apply generateFullSpectrogram_lookup in E as [_ ->].
      unfold frameRow. cbv zeta. rewrite frequencies_length.
      unfold fftSize. lia.
    - apply lookup_ge_None_1 in E. unfold width in Hw. lia. }
  destruct (canvasData_nonempty _ Hw Hh) as [image Himage].
  exists image. split; [exact Himage|].
  pose proof (canvasData_Some _ _ _ Himage) as (_ & _ & _ & E).
  intros x y k. rewrite E. cbn [image_width image_height]. intros Hx Hy Hk.
  rewrite <- E.
  rewrite (canvasData_pixel _ _ _ x y k Himage Hx Hy Hk).
  rewrite normalizedAt_no_positive; [now rewrite black_channels|].
  apply cell_nonpositive.
  eapply Forall_impl; [exact Hall|]. intros row Hrow.
  eapply Forall_impl; [exact Hrow|]. intros v. apply zero_not_positive.
Qed.

End Silence.

#[export] Instance reference_zero : MathZero Reference.math.
Proof.
  constructor. intros q Hq. cbn [approx_sqrt Reference.math].
  unfold Reference.sqrtQ.
  assert (E : Qfloor (q * inject_Z (Z.pos Reference.scale * Z.pos Reference.scale))
              = 0%Z).
  { rewrite (Qfloor_comp _ 0%Q); [reflexivity|]. rewrite Hq. ring. }
  rewrite E. reflexivity.
Qed.

(** ** From the recording to the heat map *)

Lemma height_generateFullSpectrogram {M : MathObject}
    (audioData : list number) (sampleRate : number) :
  windowSize < length audioData ->
  height (generateFullSpectrogram audioData sampleRate) = fftSize.
Proof.
  intros Hlen. destruct (rowCount_tail _ Hlen) as (Hn & _ & _).
  unfold height.
  destruct (generateFullSpectrogram audioData sampleRate !! 0) as [row|] eqn:E.
  - apply generateFullSpectrogram_lookup in E as [_ ->].
    unfold frameRow. cbv zeta. apply frequencies_length.
  - apply lookup_ge_None_1 in E.
    rewrite generateFullSpectrogram_length in E. lia.
Qed.

(** X11: What [processAudioBlob] leaves for the heat map.  A recording of at
    most 1024 samples gives an empty spectrogram and no image; a longer
    one gives an image with one column per frame,
    [floor((length - 1025) / 256) + 1] of them, and 128 rows.  The
    frequency data published has 2048 bins. *)
Theorem offline_heatmap_dimensions {M : MathObject}
    (channelData : list number) (sampleRate : number) (bytes : list Z)
    (st : State) :
  let st' := processAudioBlob channelData sampleRate bytes st in
  length (frequencyData st') = 2048 /\
  (length channelData <= 1024 ->
     spectrogramData st' = [] /\ canvasData true (spectrogramData st') = None) /\
  (1024 < length channelData ->
     exists image,
       canvasData true (spectrogramData st') = Some image /\
       image_width image = (length channelData - 1025) / 256 + 1 /\
       image_height image = 128).
Proof.
  cbv zeta. cbn [processAudioBlob frequencyData spectrogramData].
  split; [|split].
  - unfold FFTAnalysis.normalizedFrequencyData. cbv zeta.
    rewrite length_map, getByteFrequencyData_length, length_replicate.
    reflexivity.
  - intros Hlen.
    assert (E : generateFullSpectrogram channelData sampleRate = []).
    { apply length_zero_iff_nil. rewrite generateFullSpectrogram_length.
      apply rowCount_short. rewrite windowSize_value. exact Hlen. }
    rewrite E. split; reflexivity.
  - intros Hlen. rewrite <- windowSize_value in Hlen.
    pose proof (height_generateFullSpectrogram channelData sampleRate Hlen)
      as Hh.
    destruct (rowCount_tail _ Hlen) as (Hn & _ & _).
    destruct (canvasData_nonempty
                (generateFullSpectrogram channelData sampleRate))
      as [image Himage].
    + unfold width. now rewrite generateFullSpectrogram_length.
    + rewrite Hh. unfold fftSize. lia.
    + exists image. split; [exact Himage|].
      pose proof (canvasData_Some _ _ _ Himage) as (_ & _ & _ & E).
      rewrite E. cbn [image_width image_height]. split; [|exact Hh].
      unfold width. rewrite generateFullSpectrogram_length.
      unfold rowCount, remaining. rewrite windowSize_value, hopSize_value.
      rewrite windowSize_value in Hlen.
      destruct (Nat.ltb_spec (0 + 1024) (length channelData)) as [_|]; [|lia].
      replace (length channelData - 1024 - 1 - 0)
        with (length channelData - 1025) by lia.
      reflexivity.
Qed.

(** ** The values of the live path *)

Lemma byte_in_unit (b : Z) :
  (0 <= b <= 255)%Z -> in_unit (of_Z b / Fin 255)%num.
Proof.
  intros Hb. unfold of_Z.
  rewrite div_Fin by (intros E; vm_compute in E; discriminate).
  cbn [in_unit].
  assert (H0 : (inject_Z 0 <= inject_Z b)%Q) by (rewrite <- Zle_Qle; lia).
  assert (H1 : (inject_Z b <= inject_Z 255)%Q) by (rewrite <- Zle_Qle; lia).
  change (inject_Z 0) with 0%Q in H0. change (inject_Z 255) with 255%Q in H1.
  split.
  - apply Qle_shift_div_l; lra.
  - apply Qle_shift_div_r; lra.
Qed.

Lemma normalizedData_in_unit (a : AnalyserNode) :
  Forall (fun b => (0 <= b <= 255)%Z) (analyser_bytes a) ->
  Forall in_unit (normalizedData a).
Proof.
  intros Hb. unfold normalizedData. cbv zeta. apply Forall_fmap.
  unfold getByteFrequencyData. apply Forall_app. split.
  - eapply Forall_impl; [apply Forall_take; exact Hb|].
    intros b. apply byte_in_unit.
  - apply Forall_drop, Forall_replicate. cbv beta. apply byte_in_unit. lia.
Qed.

Lemma snapshot_in_unit (bytes : list Z) :
  Forall (fun b => (0 <= b <= 255)%Z) bytes -> Forall in_unit (snapshot bytes).
Proof.
  intros Hb. unfold snapshot, spectrogramSlice, slice.
  apply Forall_take, Forall_drop. now apply normalizedData_in_unit.
Qed.

Lemma runWith_snoc (c : nat) (st : State) (spectra : list (list Z))
    (bytes : list Z) :
  runWith c st (spectra ++ [bytes]) =
  updateFrequencyDataWith c (setBytes bytes (runWith c st spectra)).
Proof. unfold runWith. now rewrite fold_left_app. Qed.

Lemma runWith_recording (c : nat) (spectra : list (list Z)) :
  forall (st : State) (bytes0 : list Z),
    analyserRef st = Some (createAnalyser bytes0) -> isRecording st = true ->
    isRecording (runWith c st spectra) = true /\
    exists bytes,
      analyserRef (runWith c st spectra) = Some (createAnalyser bytes).
Proof.
  induction spectra as [|bytes rest IH]; intros st bytes0 Ha Hr.
  - split; [exact Hr|]. now exists bytes0.
  - cbn [runWith fold_left].
    fold (runWith c (updateFrequencyDataWith c (setBytes bytes st)) rest).
    destruct (setBytes_analyser st bytes0 bytes Ha) as (Ha' & Hr' & _).
    destruct (updateFrequencyData_buffer c (setBytes bytes st) bytes Ha'
                ltac:(congruence)) as (_ & Ha'' & Hr'').
    exact (IH _ bytes Ha'' Hr'').
Qed.

(** X12: While recording, the frequency data published is that of the last
    animation frame: its 1024 bins, each the byte over 255; and when the
    analyser delivers bytes, every value published and every value held in
    the live buffer lies between 0 and 1. *)
Theorem live_values_follow_the_last_frame
    (bytes0 : list Z) (spectra : list (list Z)) (bytes : list Z) :
  let st := run (recordingState bytes0) (spectra ++ [bytes]) in
  frequencyData st = normalizedData (createAnalyser bytes) /\
  (forall i, i < 1024 ->
     frequencyData st !! i = Some (of_Z (default 0%Z (bytes !! i)) / Fin 255)%num) /\
  (Forall (Forall (fun b => (0 <= b <= 255)%Z)) (spectra ++ [bytes]) ->
   Forall in_unit (frequencyData st) /\
   Forall (Forall in_unit) (realtimeSpectrogramRef st)).
Proof.
  cbv zeta.
  assert (E : frequencyData (run (recordingState bytes0) (spectra ++ [bytes])) =
              normalizedData (createAnalyser bytes)).
  { unfold run. rewrite runWith_snoc.
    destruct (runWith_recording
                (length (spectrogramData (recordingState bytes0))) spectra
                (recordingState bytes0) bytes0 eq_refl eq_refl)
      as (Hr & b & Ha).
    destruct (setBytes_analyser _ b bytes Ha) as (Ha' & Hr' & _).
    unfold updateFrequencyDataWith. rewrite Ha', Hr', Hr. reflexivity. }
  split; [exact E|]. split.
  - intros i Hi. rewrite E. unfold normalizedData. cbv zeta.
    rewrite list_lookup_fmap. unfold getByteFrequencyData.
    cbn [createAnalyser analyser_bytes].
    rewrite length_replicate.
    change (frequencyBinCount (createAnalyser bytes)) with 1024.
    destruct (bytes !! i) as [b|] eqn:Hb.
    + rewrite lookup_app_l
        by (rewrite length_take; apply lookup_lt_Some in Hb; lia).
      rewrite lookup_take_lt by exact Hi. rewrite Hb. reflexivity.
    + apply lookup_ge_None_1 in Hb.
      rewrite lookup_app_r by (rewrite length_take; lia).
      rewrite length_take, lookup_drop, lookup_replicate_2 by lia.
      reflexivity.
  - intros Hbytes. split.
    + rewrite E. apply normalizedData_in_unit.
      cbn [createAnalyser analyser_bytes].
      apply Forall_app in Hbytes as [_ Hlast]. now inversion Hlast.
    + rewrite (run_buffer _ (recordingState bytes0) bytes0);
        [ | reflexivity | reflexivity | cbn; unfold maxSlices; lia].
      apply Forall_drop. cbn [recordingState realtimeSpectrogramRef app].
      apply Forall_fmap. eapply Forall_impl; [exact Hbytes|].
      intros b. apply snapshot_in_unit.
Qed.

Lemma updateFrequencyData_idle (c : nat) (st : State) :
  analyserRef st = None \/ isRecording st = false ->
  updateFrequencyDataWith c st = st.
Proof.
  intros [H|H]; unfold updateFrequencyDataWith; rewrite H;
    [reflexivity | now destruct (analyserRef st)].
Qed.

Lemma runWith_idle (c : nat) (spectra : list (list Z)) (st : State) :
  analyserRef st = None \/ isRecording st = false ->
  frequencyData (runWith c st spectra) = frequencyData st /\
  spectrogramData (runWith c st spectra) = spectrogramData st /\
  realtimeSpectrogramRef (runWith c st spectra) = realtimeSpectrogramRef st.
Proof.
  revert st. induction spectra as [|bytes rest IH]; intros st Hidle.
  - repeat split.
  - cbn [runWith fold_left].
    fold (runWith c (updateFrequencyDataWith c (setBytes bytes st)) rest).
    assert (Hidle' : analyserRef (setBytes bytes st) = None \/
                     isRecording (setBytes bytes st) = false).
    { destruct Hidle as [H|H]; [left|right]; cbn [setBytes analyserRef isRecording];
        [now rewrite H | exact H]. }
    rewrite (updateFrequencyData_idle c _ Hidle').
    destruct (IH _ Hidle') as (H1 & H2 & H3).
    rewrite H1, H2, H3. repeat split.
Qed.

(** X13: Without an analyser, or when the recorder does not record, no run of
    animation frames publishes anything or touches the live buffer. *)
Theorem idle_frames_change_nothing (spectra : list (list Z)) (st : State) :
  analyserRef st = None \/ isRecording st = false ->
  frequencyData (run st spectra) = frequencyData st /\
  spectrogramData (run st spectra) = spectrogramData st /\
  realtimeSpectrogramRef (run st spectra) = realtimeSpectrogramRef st.
Proof.
  intros Hidle. unfold run.
  destruct (runWith_idle (length (spectrogramData st)) spectra st Hidle)
    as (H1 & H2 & H3).
  split; [exact H1|]. split; [exact H2|exact H3].
Qed.

Lemma runWith_keeps_published (c : nat) (spectra : list (list Z)) :
  c <> 0 ->
  forall st, spectrogramData (runWith c st spectra) = spectrogramData st.
Proof.
  intros Hc. induction spectra as [|bytes rest IH]; intros st;
    [reflexivity|].
  cbn [runWith fold_left].
  fold (runWith c (updateFrequencyDataWith c (setBytes bytes st)) rest).
  rewrite IH. unfold updateFrequencyDataWith.
  destruct (analyserRef (setBytes bytes st)) as [a|]; [|reflexivity].
  destruct (isRecording (setBytes bytes st)); [|reflexivity].
  cbn [spectrogramData]. destruct (Nat.eqb_spec c 0); [contradiction|].
  reflexivity.
Qed.

(** X20: the spectrogram published by a run of animation frames.  A run
    started while nothing is published (as after [onStart]) publishes a
    copy of the live buffer at every frame, also after the first: the
    closure keeps the length 0 it captured.  A run started while a
    spectrogram is published never replaces it. *)
Theorem live_spectrogram_follows_the_captured_length
    (bytes0 : list Z) (spectra : list (list Z)) (bytes : list Z) :
  (let st := run (recordingState bytes0) (spectra ++ [bytes]) in
   spectrogramData st = realtimeSpectrogramRef st /\
   length (spectrogramData st) = Nat.min (length spectra + 1) 200) /\
  (forall st, spectrogramData st <> [] ->
     spectrogramData (run st spectra) = spectrogramData st).
Proof.
  split.
  - cbv zeta.
    assert (E : spectrogramData
                  (run (recordingState bytes0) (spectra ++ [bytes])) =
                realtimeSpectrogramRef
                  (run (recordingState bytes0) (spectra ++ [bytes]))).
    { unfold run. rewrite runWith_snoc.
      destruct (runWith_recording
                  (length (spectrogramData (recordingState bytes0))) spectra
                  (recordingState bytes0) bytes0 eq_refl eq_refl)
        as (Hr & b & Ha).
      destruct (setBytes_analyser _ b bytes Ha) as (Ha' & Hr' & _).
      unfold updateFrequencyDataWith. rewrite Ha', Hr', Hr. reflexivity. }
    split; [exact E|]. rewrite E.
    rewrite (run_buffer _ (recordingState bytes0) bytes0);
      [ | reflexivity | reflexivity | cbn; unfold maxSlices; lia].
    rewrite length_drop. cbn [recordingState realtimeSpectrogramRef app].
    rewrite length_map, length_app. cbn [length].
    unfold maxSlices. lia.
  - intros st Hst. unfold run. apply runWith_keeps_published.
    destruct (spectrogramData st); [contradiction|]. cbn [length]. lia.
Qed.

(** ** The segment of the offline analysis *)

Lemma segmentSize_value : FFTAnalysis.segmentSize = 4096.
Proof. reflexivity. Qed.

Lemma startIndex_value (audioData : list number) :
  FFTAnalysis.startIndex audioData = (length audioData - 4096) / 2.
Proof.
  unfold FFTAnalysis.startIndex. rewrite segmentSize_value.
  destruct (Nat.le_gt_cases 4096 (length audioData)) as [H|H].
  - rewrite Z.max_r by (apply Z.div_pos; lia).
    replace (Z.of_nat (length audioData) - Z.of_nat 4096)%Z
      with (Z.of_nat (length audioData - 4096)) by lia.
    change 2%Z with (Z.of_nat 2). rewrite <- Nat2Z.inj_div. apply Nat2Z.id.
  - replace (length audioData - 4096) with 0 by lia.
    rewrite Z.max_l; [reflexivity|].
    assert ((Z.of_nat (length audioData) - Z.of_nat 4096) / 2 < 0)%Z
      by (apply Z.div_lt_upper_bound; lia).
    lia.
Qed.

(** X14: The segment [performFFTAnalysis] analyses is the middle 4096 samples
    of the recording (the sample left over by an odd margin falls after
    it), or the whole recording when it has no more than 4096 samples; the
    buffer handed to the analyser has 4096 entries, the windowed segment
    followed by zeros. *)
Theorem analysis_segment_is_centred {M : MathObject}
    (audioData : list number) :
  let L := length audioData in
  let s := FFTAnalysis.startIndex audioData in
  let seg := FFTAnalysis.segment audioData in
  length seg = Nat.min L 4096 /\
  (forall j, j < length seg -> seg !! j = audioData !! (s + j)) /\
  (4096 <= L -> s + 4096 <= L /\ s <= L - (s + 4096) <= s + 1) /\
  (L <= 4096 -> seg = audioData) /\
  length (FFTAnalysis.buffer audioData) = 4096 /\
  (forall j v, seg !! j = Some v ->
     FFTAnalysis.buffer audioData !! j =
     Some (v * FFTAnalysis.windowValue j)%num) /\
  (forall j, length seg <= j < 4096 ->
     FFTAnalysis.buffer audioData !! j = Some (Fin 0)).
Proof.
  cbv zeta.
  pose proof (startIndex_value audioData) as Es.
  pose proof (Nat.div_mod_eq (length audioData - 4096) 2) as Ed.
  pose proof (Nat.mod_upper_bound (length audioData - 4096) 2 ltac:(lia)) as Hm.
  assert (Hlen : length (FFTAnalysis.segment audioData) =
                 Nat.min (length audioData) 4096).
  { unfold FFTAnalysis.segment, slice.
    rewrite length_take, length_drop, segmentSize_value. lia. }
  assert (Hw : length (FFTAnalysis.windowedSegment audioData) =
               length (FFTAnalysis.segment audioData))
    by (unfold FFTAnalysis.windowedSegment; apply length_imap).
  split; [exact Hlen|]. split; [|split; [|split; [|split; [|split]]]].
  - intros j Hj. unfold FFTAnalysis.segment, slice.
    rewrite lookup_take_lt by (rewrite segmentSize_value; lia).
    now rewrite lookup_drop.
  - intros HL. lia.
  - intros HL. unfold FFTAnalysis.segment, slice.
    replace (FFTAnalysis.startIndex audioData) with 0 by lia.
    rewrite drop_0, segmentSize_value. apply take_ge. lia.
  - unfold FFTAnalysis.buffer, FFTAnalysis.copyToChannel.
    rewrite length_app, length_take, length_drop, length_replicate, Hw, Hlen.
    rewrite segmentSize_value. lia.
  - intros j v Hv. pose proof (lookup_lt_Some _ _ _ Hv) as Hj.
    unfold FFTAnalysis.buffer, FFTAnalysis.copyToChannel.
    rewrite length_replicate, segmentSize_value.
    rewrite lookup_app_l by (rewrite length_take, Hw; lia).
    rewrite lookup_take_lt by lia.
    unfold FFTAnalysis.windowedSegment. rewrite list_lookup_imap, Hv.
    reflexivity.
  - intros j Hj.
    unfold FFTAnalysis.buffer, FFTAnalysis.copyToChannel.
    rewrite length_replicate, segmentSize_value.
    rewrite lookup_app_r by (rewrite length_take, Hw; lia).
    rewrite length_take, Hw, lookup_drop.
    apply lookup_replicate_2. lia.
Qed.

(** ** The recording clock *)

Module ClockFacts.
Import Ascii String.

Lemma length_append (u v : string) :
  length (append u v) = (length u + length v)%nat.
Proof. induction u as [|c u IH]; cbn; [reflexivity|now rewrite IH]. Qed.

Lemma toString_noColon (n : nat) : Clock.noColon (Clock.toString n) = true.
Proof.
  unfold Clock.toString. induction (Nat.to_uint n); cbn; auto.
Qed.

Lemma toString_injective (a b : nat) :
  Clock.toString a = Clock.toString b -> a = b.
Proof.
  unfold Clock.toString. intros H.
  apply (f_equal DecimalString.NilEmpty.uint_of_string) in H.
  rewrite !DecimalString.NilEmpty.usu in H. injection H as H.
  apply (f_equal Nat.of_uint) in H.
  now rewrite !DecimalNat.Unsigned.of_to in H.
Qed.

Lemma colon_splits (u u' p p' : string) :
  Clock.noColon u = true -> Clock.noColon u' = true ->
  append u (String ":"%char p) = append u' (String ":"%char p') ->
  u = u' /\ p = p'.
Proof.
  revert u'. induction u as [|c u IH]; intros [|c' u'] Hu Hu' E;
    cbn in E, Hu, Hu'.
  - injection E as E. now split.
  - injection E as Ec _. rewrite <- Ec in Hu'. discriminate.
  - injection E as Ec _. rewrite Ec in Hu. discriminate.
  - injection E as Ec E. apply andb_prop in Hu as [_ Hu].
    apply andb_prop in Hu' as [_ Hu'].
    destruct (IH u' Hu Hu' E) as [-> ->]. now rewrite Ec.
Qed.

(** The seconds field holds the two decimal digits of a number below
    60. *)
Lemma seconds_field (s : nat) :
  (s < 60)%nat ->
  Clock.padStart 2 "0"%string (Clock.toString s) =
  String (ascii_of_nat (48 + s / 10))
         (String (ascii_of_nat (48 + s mod 10)) EmptyString).
Proof.
  intros Hs. do 60 (destruct s as [|s]; [reflexivity|]). lia.
Qed.

Lemma seconds_field_injective (s s' : nat) :
  (s < 60)%nat -> (s' < 60)%nat ->
  Clock.padStart 2 "0"%string (Clock.toString s) =
  Clock.padStart 2 "0"%string (Clock.toString s') -> s = s'.
Proof.
  intros Hs Hs' E. rewrite !seconds_field in E by assumption.
  assert (Hd : (s / 10 < 10)%nat) by (apply Nat.Div0.div_lt_upper_bound; lia).
  assert (Hd' : (s' / 10 < 10)%nat) by (apply Nat.Div0.div_lt_upper_bound; lia).
  pose proof (Nat.mod_upper_bound s 10 ltac:(lia)) as Hm.
  pose proof (Nat.mod_upper_bound s' 10 ltac:(lia)) as Hm'.
  remember (48 + s / 10)%nat as h eqn:Eh.
  remember (48 + s' / 10)%nat as h' eqn:Eh'.
  remember (48 + s mod 10)%nat as l eqn:El.
  remember (48 + s' mod 10)%nat as l' eqn:El'.
  injection E as E1 E0.
  apply (f_equal nat_of_ascii) in E1, E0.
  rewrite (nat_ascii_embedding h), (nat_ascii_embedding h') in E1 by lia.
  rewrite (nat_ascii_embedding l), (nat_ascii_embedding l') in E0 by lia.
  pose proof (Nat.div_mod_eq s 10). pose proof (Nat.div_mod_eq s' 10). lia.
Qed.

(** X15: The clock shows the minutes in decimal, a colon and the seconds on
    exactly two digits, and two recording times are shown alike only when
    they are equal. *)
Theorem formatTime_is_injective :
  (forall seconds,
     Clock.formatTime seconds =
     append (Clock.toString (seconds / 60))
       (String ":"%char
          (String (ascii_of_nat (48 + seconds mod 60 / 10))
             (String (ascii_of_nat (48 + seconds mod 60 mod 10))
                     EmptyString)))) /\
  (forall a b, Clock.formatTime a = Clock.formatTime b -> a = b).
Proof.
  assert (Hshape : forall seconds,
     Clock.formatTime seconds =
     append (Clock.toString (seconds / 60))
       (String ":"%char
          (Clock.padStart 2 "0"%string (Clock.toString (seconds mod 60))))).
  { intros seconds. reflexivity. }
  split.
  - intros seconds. rewrite Hshape, seconds_field; [reflexivity|].
    apply Nat.mod_upper_bound. lia.
  - intros a b E. rewrite !Hshape in E.
    apply colon_splits in E as [Em Es]; try apply toString_noColon.
    apply toString_injective in Em.
    apply seconds_field_injective in Es;
      try (apply Nat.mod_upper_bound; lia).
    pose proof (Nat.div_mod_eq a 60). pose proof (Nat.div_mod_eq b 60). lia.
Qed.

End ClockFacts.

(** ** The frequency chart *)

Lemma filter_all {A : Type} (f : A -> bool) (l : list A) :
  Forall (fun x => f x = true) l -> List.filter f l = l.
Proof.
  induction 1 as [|x l Hx _ IH]; [reflexivity|].
  cbn [List.filter]. now rewrite Hx, IH.
Qed.

Lemma Qfloor_between (e : Q) (a b : Z) :
  (inject_Z a <= e)%Q -> (e < inject_Z b)%Q -> (a <= Qfloor e < b)%Z.
Proof.
  intros Ha Hb. pose proof (Qfloor_le e) as Hle.
  pose proof (Qlt_floor e) as Hlt. split.
  - assert (H : (inject_Z a < inject_Z (Qfloor e + 1))%Q) by lra.
    rewrite <- Zlt_Qlt in H. lia.
  - assert (H : (inject_Z (Qfloor e) < inject_Z b)%Q) by lra.
    rewrite <- Zlt_Qlt in H. lia.
Qed.

Lemma inject_nat_pos (n : nat) : 0 < n -> (0 < inject_Z (Z.of_nat n))%Q.
Proof.
  intros Hn. change 0%Q with (inject_Z 0). rewrite <- Zlt_Qlt. lia.
Qed.

Lemma inject_nat_nonneg (n : nat) : (0 <= inject_Z (Z.of_nat n))%Q.
Proof. change 0%Q with (inject_Z 0). rewrite <- Zle_Qle. lia. Qed.

(** The width of a bin: 22050 Hz over the number of bins. *)
Lemma binWidth_value (n : nat) :
  0 < n ->
  (Fin 44100 / Fin 2 / of_nat n)%num =
  Fin (44100 / 2 / inject_Z (Z.of_nat n)).
Proof.
  intros Hn. pose proof (inject_nat_pos n Hn) as Hpos.
  replace (Fin 44100 / Fin 2)%num with (Fin (44100 / 2)) by reflexivity.
  unfold of_nat, of_Z. apply div_Fin. intros E. lra.
Qed.

Lemma chart_frequency (n i : nat) :
  i < n / 4 ->
  exists z,
    Math_round (of_nat i * (Fin 44100 / Fin 2 / of_nat n))%num = of_Z z /\
    (0 <= z <= 5513)%Z.
Proof.
  intros Hi.
  assert (Hn : 4 * (i + 1) <= n).
  { pose proof (Nat.div_mod_eq n 4). lia. }
  rewrite binWidth_value by lia. unfold of_nat at 1. unfold of_Z at 1.
  cbn [mul Math_round]. eexists. split; [reflexivity|].
  pose proof (inject_nat_pos n ltac:(lia)) as HN.
  pose proof (inject_nat_nonneg i) as HI.
  assert (H4 : (4 * inject_Z (Z.of_nat i) + 4 <= inject_Z (Z.of_nat n))%Q).
  { change 4%Q with (inject_Z 4).
    rewrite <- inject_Z_mult, <- inject_Z_plus, <- Zle_Qle. lia. }
  set (I := inject_Z (Z.of_nat i)) in *. set (N := inject_Z (Z.of_nat n)) in *.
  assert (Ex : (I * (44100 / 2 / N) == I * 22050 / N)%Q)
    by (field; intros E; lra).
  assert (H0 : (0 <= I * 22050 / N)%Q) by (apply Qle_shift_div_l; lra).
  assert (H1 : (I * 22050 / N <= 11025 # 2)%Q)
    by (apply Qle_shift_div_r; lra).
  assert (Hb : (0 <= Qfloor (I * (44100 / 2 / N) + (1 # 2)) < 5514)%Z).
  { apply Qfloor_between.
    - change (inject_Z 0) with 0%Q. rewrite Ex. lra.
    - change (inject_Z 5514) with 5514%Q. rewrite Ex. lra. }
  lia.
Qed.


(** ** The voice analysis: the bins of a band *)

Lemma index_of_Z {A : Type} (l : list A) (i : Z) :
  (0 <= i)%Z -> JS.index l (of_Z i) = l !! Z.to_nat i.
Proof.
  intros Hi. unfold JS.index, of_Z. rewrite Qfloor_Z.
  assert (E : Qeq_bool (inject_Z i) (inject_Z i) = true)
    by (apply Qeq_bool_iff; reflexivity).
  rewrite E. destruct (Z.leb_spec 0 i); [reflexivity|lia].
Qed.

(** The bin of a frequency that is not negative is a natural number: the
    floor of the frequency over the bin width, and 0 when there is no
    bin. *)
Lemma bin_of_frequency (hz : Q) (n : nat) :
  (0 <= hz)%Q ->
  exists z,
    Math_floor (Fin hz / (Fin 44100 / Fin 2 / of_nat n))%num = of_Z z /\
    (0 <= z)%Z /\
    (0 < n -> z = Qfloor (hz / (44100 / 2 / inject_Z (Z.of_nat n)))).
Proof.
  intros Hhz. destruct n as [|n].
  - exists 0%Z. split; [reflexivity|]. split; lia.
  - rewrite binWidth_value by lia.
    pose proof (inject_nat_pos (S n) ltac:(lia)) as HN.
    set (N := inject_Z (Z.of_nat (S n))) in *.
    assert (Hbw : (0 < 44100 / 2 / N)%Q).
    { apply Qlt_shift_div_l; [exact HN|]. rewrite Qmult_0_l. reflexivity. }
    rewrite div_Fin by (intros E; lra).
    cbn [Math_floor]. eexists. split; [reflexivity|]. split; [|reflexivity].
    assert (H0 : (0 <= hz / (44100 / 2 / N))%Q)
      by (apply Qle_shift_div_l; lra).
    apply (Qfloor_between _ 0 (Qfloor (hz / (44100 / 2 / N)) + 1));
      [exact H0|apply Qlt_floor].
Qed.

Lemma loopIndices_of_Z (lo hi : Z) (n : nat) :
  loopIndices (of_Z lo) (of_Z hi) n =
  seqZ lo (Z.min hi (Z.of_nat n - 1) - lo + 1).
Proof. unfold loopIndices, of_Z. now rewrite !Qfloor_Z. Qed.

Lemma loopIndices_range (lo hi : Z) (n : nat) (i : Z) :
  (0 <= lo)%Z ->
  In i (loopIndices (of_Z lo) (of_Z hi) n) ->
  (lo <= i <= hi)%Z /\ (0 <= i < Z.of_nat n)%Z.
Proof.
  intros Hlo Hin. rewrite loopIndices_of_Z in Hin.
  apply list_elem_of_In, elem_of_seqZ in Hin. lia.
Qed.

Section BandMean.
Variable frequencyData : list number.
Hypothesis Hunit : Forall in_unit frequencyData.

Lemma bin_in_unit (i : Z) :
  (0 <= i < Z.of_nat (length frequencyData))%Z ->
  exists q, to_number (JS.index frequencyData (of_Z i)) = Fin q /\
            (0 <= q /\ q <= 1)%Q.
Proof.
  intros Hi. rewrite index_of_Z by lia.
  destruct (lookup_lt_is_Some_2 frequencyData (Z.to_nat i) ltac:(lia))
    as [v Hv].
  rewrite Hv. cbn [to_number].
  pose proof (Forall_lookup_1 _ _ _ _ Hunit Hv) as Hin.
  destruct v as [q| | |]; try contradiction. now exists q.
Qed.

Lemma band_sum (indices : list Z) :
  Forall (fun i => (0 <= i < Z.of_nat (length frequencyData))%Z) indices ->
  forall (e0 : Q) (c0 : nat),
    exists e,
      fold_left
        (fun (acc : number * nat) i =>
           ((fst acc + to_number (JS.index frequencyData (of_Z i)))%num,
            S (snd acc)))
        indices (Fin e0, c0) = (Fin e, c0 + length indices) /\
      (e0 <= e /\ e <= e0 + inject_Z (Z.of_nat (length indices)))%Q.
Proof.
  induction 1 as [|i indices Hi _ IH]; intros e0 c0.
  - exists e0. cbn [fold_left length]. rewrite Nat.add_0_r.
    change (inject_Z (Z.of_nat 0)) with 0%Q. split; [reflexivity|lra].
  - destruct (bin_in_unit i Hi) as (q & Eq & Hq).
    cbn [fold_left fst snd]. rewrite Eq. cbn [add].
    destruct (IH (e0 + q)%Q (S c0)) as (e & E & He).
    exists e. rewrite E. split; [f_equal; cbn [length]; lia|].
    cbn [length]. rewrite Nat2Z.inj_succ. unfold Z.succ.
    rewrite inject_Z_plus. change (inject_Z 1) with 1%Q. lra.
Qed.

Lemma bandEnergy_in_unit (band : VoiceAnalysis.Band) (s t : Q) :
  VoiceAnalysis.start band = Fin s -> VoiceAnalysis.end_ band = Fin t ->
  (0 <= s)%Q -> (0 <= t)%Q ->
  in_unit (VoiceAnalysis.bandEnergy frequencyData band).
Proof.
  intros Es Et Hs Ht. unfold VoiceAnalysis.bandEnergy. cbv zeta.
  rewrite Es, Et. unfold VoiceAnalysis.binWidth.
  destruct (bin_of_frequency s (length frequencyData) Hs) as (lo & -> & Hlo & _).
  destruct (bin_of_frequency t (length frequencyData) Ht) as (hi & -> & Hhi & _).
  set (indices := loopIndices (of_Z lo) (of_Z hi) (length frequencyData)).
  assert (Hrange : Forall (fun i => (0 <= i < Z.of_nat (length frequencyData))%Z)
                     indices).
  { apply List.Forall_forall. intros i Hin.
    now apply (loopIndices_range lo hi) in Hin as [_ ?]. }
  destruct (band_sum indices Hrange 0 0) as (e & E & He).
  rewrite E. cbn [fst snd]. cbn [Nat.add] in *.
  destruct (Nat.ltb_spec 0 (length indices)) as [Hc|Hc]; [|cbn; lra].
  pose proof (inject_nat_pos _ Hc) as HC.
  unfold of_nat, of_Z. rewrite div_Fin by (intros E0; lra).
  cbn [in_unit]. split.
  - apply Qle_shift_div_l; lra.
  - apply Qle_shift_div_r; lra.
Qed.

End BandMean.

(** ** The voice analysis: the meters *)

Lemma get_map (f : VoiceAnalysis.Band -> number) (key : String.string)
    (l : list (String.string * VoiceAnalysis.Band)) :
  VoiceAnalysis.get (map (fun entry => (fst entry, f (snd entry))) l) key =
  f <$> (snd <$> List.find (fun entry => String.eqb (fst entry) key) l).
Proof.
  unfold VoiceAnalysis.get.
  induction l as [|[k b] l IH]; [reflexivity|].
  cbn [map List.find fst snd]. destruct (String.eqb k key); [reflexivity|].
  exact IH.
Qed.

Lemma bands_nonnegative :
  Forall (fun band =>
            exists s t, VoiceAnalysis.start band = Fin s /\
                        VoiceAnalysis.end_ band = Fin t /\
                        (0 <= s)%Q /\ (0 <= t)%Q)
         (map snd VoiceAnalysis.bands).
Proof.
  unfold VoiceAnalysis.bands. cbn [map snd].
  repeat (constructor;
          [eexists; eexists; split; [reflexivity|]; split; [reflexivity|];
           split; lra|]).
  constructor.
Qed.

Lemma min_percent (x : Q) :
  (0 <= x)%Q -> in_percent (Math_min (Fin x) (Fin 100)).
Proof.
  intros Hx. unfold Math_min.
  destruct (Fin 100 <? Fin x)%num eqn:E; cbn [in_percent]; [lra|].
  apply lt_Fin_false in E. lra.
Qed.

Lemma sum_nonnegative (l : list number) :
  Forall in_unit l ->
  forall e0, (0 <= e0)%Q ->
    exists e, fold_left (fun sum val => (sum + val)%num) l (Fin e0) = Fin e /\
              (0 <= e)%Q.
Proof.
  induction 1 as [|[q| | |] l Hq _ IH]; intros e0 He0; try contradiction.
  - now exists e0.
  - cbn [fold_left add]. cbn [in_unit] in Hq. apply IH. lra.
Qed.

Section Meters.
Variable frequencyData : list number.
Hypothesis Hunit : Forall in_unit frequencyData.

Lemma bandEnergies_in_unit :
  Forall in_unit (map snd (VoiceAnalysis.bandEnergies frequencyData)).
Proof.
  unfold VoiceAnalysis.bandEnergies. rewrite map_map. cbn [snd].
  rewrite <- (map_map snd (VoiceAnalysis.bandEnergy frequencyData)).
  apply Forall_fmap.
  eapply Forall_impl; [apply bands_nonnegative|].
  intros band (s & t & Es & Et & Hs & Ht).
  now apply (bandEnergy_in_unit frequencyData Hunit band s t).
Qed.

(** The energy of a band read by its key is a mean of magnitudes. *)
Lemma get_in_unit (key : String.string) (v : number) :
  VoiceAnalysis.get (VoiceAnalysis.bandEnergies frequencyData) key = Some v ->
  in_unit v.
Proof.
  unfold VoiceAnalysis.get. intros H.
  destruct (List.find _ _) as [[k w]|] eqn:E; [|discriminate].
  injection H as <-. apply find_some in E as [Hin _].
  pose proof bandEnergies_in_unit as Hall.
  rewrite List.Forall_forall in Hall. apply Hall.
  apply in_map_iff. now exists (k, w).
Qed.

Lemma get_defined (key : String.string) :
  (exists band,
     snd <$> List.find (fun entry => String.eqb (fst entry) key)
                       VoiceAnalysis.bands = Some band) ->
  in_unit (to_number
             (VoiceAnalysis.get (VoiceAnalysis.bandEnergies frequencyData) key)).
Proof.
  intros [band Hband].
  destruct (VoiceAnalysis.get (VoiceAnalysis.bandEnergies frequencyData) key)
    as [v|] eqn:E.
  - cbn [to_number]. now apply (get_in_unit key).
  - unfold VoiceAnalysis.bandEnergies in E. rewrite get_map, Hband in E.
    discriminate.
Qed.

(** X17: On magnitudes between 0 and 1, the four meters of the voice analysis
    lie between 0 and 100. *)
Theorem voice_meters_stay_in_range :
  let a := VoiceAnalysis.analysis frequencyData in
  in_percent (VoiceAnalysis.brightness a) /\
  in_percent (VoiceAnalysis.warmth a) /\
  in_percent (VoiceAnalysis.clarity a) /\
  in_percent (VoiceAnalysis.energy a).
Proof.
  cbv zeta. unfold VoiceAnalysis.analysis. cbv zeta.
  cbn [VoiceAnalysis.brightness VoiceAnalysis.warmth VoiceAnalysis.clarity
       VoiceAnalysis.energy].
  repeat split.
  - match goal with
    | |- context [(to_number (VoiceAnalysis.get ?o ?k1) +
                   to_number (VoiceAnalysis.get ?o ?k2))%num] =>
        pose proof (get_defined k1 ltac:(eexists; reflexivity)) as H1;
        pose proof (get_defined k2 ltac:(eexists; reflexivity)) as H2;
        destruct (to_number (VoiceAnalysis.get o k1)) as [x| | |];
          try contradiction;
        destruct (to_number (VoiceAnalysis.get o k2)) as [y| | |];
          try contradiction
    end.
    cbn [in_unit] in H1, H2. cbn [add]. replace (Fin (x + y) / Fin 2)%num
      with (Fin ((x + y) / 2)) by reflexivity.
    cbn [mul]. apply min_percent.
    apply Qmult_le_0_compat; [|lra]. apply Qle_shift_div_l; lra.
  - match goal with
    | |- context [(to_number (VoiceAnalysis.get ?o ?k1) +
                   to_number (VoiceAnalysis.get ?o ?k2))%num] =>
        pose proof (get_defined k1 ltac:(eexists; reflexivity)) as H1;
        pose proof (get_defined k2 ltac:(eexists; reflexivity)) as H2;
        destruct (to_number (VoiceAnalysis.get o k1)) as [x| | |];
          try contradiction;
        destruct (to_number (VoiceAnalysis.get o k2)) as [y| | |];
          try contradiction
    end.
    cbn [in_unit] in H1, H2. cbn [add]. replace (Fin (x + y) / Fin 2)%num
      with (Fin ((x + y) / 2)) by reflexivity.
    cbn [mul]. apply min_percent.
    apply Qmult_le_0_compat; [|lra]. apply Qle_shift_div_l; lra.
  - match goal with
    | |- context [to_number (VoiceAnalysis.get ?o ?k1)] =>
        pose proof (get_defined k1 ltac:(eexists; reflexivity)) as H1;
        destruct (to_number (VoiceAnalysis.get o k1)) as [x| | |];
          try contradiction
    end.
    cbn [in_unit] in H1. cbn [mul]. apply min_percent.
    apply Qmult_le_0_compat; lra.
  - destruct (sum_nonnegative _ bandEnergies_in_unit 0 ltac:(lra))
      as (e & -> & He).
    cbn [mul]. apply min_percent. apply Qmult_le_0_compat; lra.
Qed.

End Meters.

(** ** The voice analysis: the fundamental *)

Section Peak.
Variable frequencyData : list number.
Hypothesis Hfinite : Forall finite frequencyData.

Lemma bin_finite (j : Z) :
  (0 <= j < Z.of_nat (length frequencyData))%Z ->
  to_number (JS.index frequencyData (of_Z j)) = Fin (binValue frequencyData j).
Proof.
  intros Hj. unfold binValue. rewrite index_of_Z by lia.
  destruct (lookup_lt_is_Some_2 frequencyData (Z.to_nat j) ltac:(lia))
    as [v Hv].
  rewrite Hv. cbn [to_number]. apply finite_val.
  exact (Forall_lookup_1 _ _ _ _ Hfinite Hv).
Qed.

Lemma peakStep_value (binWidth : number) (f : number) (m : Q) (j : Z) :
  (0 <= j < Z.of_nat (length frequencyData))%Z ->
  VoiceAnalysis.peakStep frequencyData binWidth (f, Fin m) j =
  if Qlt_le_dec m (binValue frequencyData j)
  then ((of_Z j * binWidth)%num, Fin (binValue frequencyData j))
  else (f, Fin m).
Proof.
  intros Hj. unfold VoiceAnalysis.peakStep. cbv zeta.
  rewrite bin_finite by exact Hj. cbn [snd]. unfold gt.
  destruct (Qlt_le_dec m (binValue frequencyData j)) as [H|H].
  - apply lt_Fin in H. now rewrite H.
  - apply lt_Fin_false in H. now rewrite H.
Qed.

Lemma peak_scan (binWidth : number) (lo : Z) (k : nat) :
  (0 <= lo)%Z ->
  (lo + Z.of_nat k <= Z.of_nat (length frequencyData))%Z ->
  let acc := fold_left (VoiceAnalysis.peakStep frequencyData binWidth)
               (seqZ lo (Z.of_nat k)) (Fin 0, Fin 0) in
  (acc = (Fin 0, Fin 0) /\
   forall j, (lo <= j < lo + Z.of_nat k)%Z ->
             (binValue frequencyData j <= 0)%Q) \/
  (exists i,
     (lo <= i < lo + Z.of_nat k)%Z /\
     acc = ((of_Z i * binWidth)%num, Fin (binValue frequencyData i)) /\
     (0 < binValue frequencyData i)%Q /\
     (forall j, (lo <= j < lo + Z.of_nat k)%Z ->
                (binValue frequencyData j <= binValue frequencyData i)%Q) /\
     (forall j, (lo <= j < i)%Z ->
                (binValue frequencyData j < binValue frequencyData i)%Q)).
Proof.
  intros Hlo. cbv zeta. induction k as [|k IH]; intros Hk.
  - left. split; [reflexivity|]. intros j Hj. lia.
  - rewrite seqZ_S, fold_left_app. cbn [fold_left].
    assert (Hm : (0 <= lo + Z.of_nat k < Z.of_nat (length frequencyData))%Z)
      by lia.
    specialize (IH ltac:(lia)).
    destruct IH as [[-> Hnone]|(i & Hi & -> & Hpos & Hmax & Hfirst)].
    + rewrite peakStep_value by exact Hm.
      destruct (Qlt_le_dec 0 (binValue frequencyData (lo + Z.of_nat k)))
        as [H|H].
      * right. exists (lo + Z.of_nat k)%Z.
        split; [lia|]. split; [reflexivity|]. split; [exact H|]. split.
        -- intros j Hj.
           destruct (Z.eq_dec j (lo + Z.of_nat k)%Z) as [->|Hne]; [lra|].
           specialize (Hnone j ltac:(lia)). lra.
        -- intros j Hj. specialize (Hnone j ltac:(lia)). lra.
      * left. split; [reflexivity|]. intros j Hj.
        destruct (Z.eq_dec j (lo + Z.of_nat k)%Z) as [->|Hne]; [exact H|].
        apply Hnone. lia.
    + rewrite peakStep_value by exact Hm.
      destruct (Qlt_le_dec (binValue frequencyData i)
                           (binValue frequencyData (lo + Z.of_nat k)))
        as [H|H].
      * right. exists (lo + Z.of_nat k)%Z.
        split; [lia|]. split; [reflexivity|]. split; [lra|]. split.
        -- intros j Hj.
           destruct (Z.eq_dec j (lo + Z.of_nat k)%Z) as [->|Hne]; [lra|].
           specialize (Hmax j ltac:(lia)). lra.
        -- intros j Hj. specialize (Hmax j ltac:(lia)). lra.
      * right. exists i.
        split; [lia|]. split; [reflexivity|]. split; [exact Hpos|]. split.
        -- intros j Hj.
           destruct (Z.eq_dec j (lo + Z.of_nat k)%Z) as [->|Hne]; [exact H|].
           apply Hmax. lia.
        -- exact Hfirst.
Qed.

End Peak.

Section Fundamental.
Import Ascii String.

Lemma classify_known (x : Q) :
  (0 < x)%Q -> VoiceAnalysis.classify (Fin x) <> "Unknown"%string.
Proof.
  intros Hx. unfold VoiceAnalysis.classify, gt.
  apply lt_Fin in Hx. rewrite Hx.
  destruct (Fin x <? Fin 165)%num; [intros E; discriminate E|].
  destruct (Fin x <? Fin 196)%num; [intros E; discriminate E|].
  destruct (Fin x <? Fin 262)%num; intros E; discriminate E.
Qed.

(** X18: for a number of bins that is a power of two (the analyser's:
    1024 while recording, 2048 after the offline analysis), the
    fundamental reported is the frequency of the first bin that holds the
    greatest magnitude among the bins scanned, those from
    [floor(80 / binWidth)] to [floor(800 / binWidth)] that exist; it is at
    most 800 Hz.  When no bin scanned is positive the fundamental is 0 and
    the voice type is unknown; the voice type is known as soon as the peak
    is not at bin 0.  For such a number of bins the bin width 22050 / n,
    the two floors and the product [i * binWidth] are the same in double
    arithmetic as in the rationals: the width and the product are exact,
    and the quotients 80 / binWidth and 800 / binWidth are at least 1/2205
    away from every integer.  For other numbers of bins a quotient can be
    an integer that the double division misses by one unit in the last
    place, and the statement is not made. *)
Theorem fundamental_is_first_peak (frequencyData : list number) :
  Forall finite frequencyData ->
  (exists k, List.length frequencyData = 2 ^ k) ->
  let a := VoiceAnalysis.analysis frequencyData in
  let f := fst (VoiceAnalysis.fundamental frequencyData) in
  let bw := (44100 / 2 / inject_Z (Z.of_nat (List.length frequencyData)))%Q in
  let scanned (j : Z) :=
    (Qfloor (80 / bw) <= j <= Qfloor (800 / bw))%Z /\
    (j < Z.of_nat (List.length frequencyData))%Z in
  VoiceAnalysis.binWidth frequencyData = Fin bw /\
  VoiceAnalysis.fundamentalFrequency a = Math_round f /\
  ((f = Fin 0 /\ VoiceAnalysis.voiceType a = "Unknown"%string /\
    forall j, scanned j -> (binValue frequencyData j <= 0)%Q) \/
   (exists i,
      scanned i /\ f = Fin (inject_Z i * bw) /\
      (0 < binValue frequencyData i)%Q /\
      (forall j, scanned j ->
         (binValue frequencyData j <= binValue frequencyData i)%Q) /\
      (forall j, scanned j -> (j < i)%Z ->
         (binValue frequencyData j < binValue frequencyData i)%Q) /\
      (inject_Z i * bw <= 800)%Q /\
      ((0 < i)%Z -> VoiceAnalysis.voiceType a <> "Unknown"%string))).
Proof.
  intros Hfin [k Hpow]. cbv zeta.
  assert (Hn : 0 < List.length frequencyData).
  { rewrite Hpow. apply Nat.neq_0_lt_0, Nat.pow_nonzero. lia. }
  clear k Hpow.
  set (n := List.length frequencyData) in *.
  set (bw := (44100 / 2 / inject_Z (Z.of_nat n))%Q).
  assert (Hbw : VoiceAnalysis.binWidth frequencyData = Fin bw)
    by (apply binWidth_value; exact Hn).
  assert (Hpos : (0 < bw)%Q).
  { apply Qlt_shift_div_l; [now apply inject_nat_pos|].
    rewrite Qmult_0_l. reflexivity. }
  split; [exact Hbw|]. split; [reflexivity|].
  destruct (bin_of_frequency 80 n ltac:(lra)) as (lo & Elo & Hlo & Vlo).
  destruct (bin_of_frequency 800 n ltac:(lra)) as (hi & Ehi & Hhi & Vhi).
  specialize (Vlo Hn). specialize (Vhi Hn). fold bw in Vlo, Vhi.
  rewrite <- Vlo, <- Vhi.
  assert (Ef : VoiceAnalysis.fundamental frequencyData =
               fold_left (VoiceAnalysis.peakStep frequencyData (Fin bw))
                 (seqZ lo (Z.min hi (Z.of_nat n - 1) - lo + 1))
                 (Fin 0, Fin 0)).
  { unfold VoiceAnalysis.fundamental. cbv zeta. rewrite Hbw.
    unfold VoiceAnalysis.binWidth in Hbw. fold n in Hbw.
    rewrite <- Hbw, Elo, Ehi, loopIndices_of_Z. reflexivity. }
  assert (Ev : VoiceAnalysis.voiceType (VoiceAnalysis.analysis frequencyData) =
               VoiceAnalysis.classify
                 (fst (VoiceAnalysis.fundamental frequencyData)))
    by reflexivity.
  rewrite Ev, Ef.
  set (len := (Z.min hi (Z.of_nat n - 1) - lo + 1)%Z).
  destruct (Z.le_gt_cases len 0) as [Hlen|Hlen].
  - left. rewrite seqZ_nil by exact Hlen. cbn [fold_left fst].
    split; [reflexivity|]. split; [reflexivity|].
    intros j [Hj1 Hj2]. unfold len in Hlen. lia.
  - pose proof (peak_scan frequencyData Hfin (Fin bw) lo (Z.to_nat len) Hlo)
      as Hscan.
    rewrite Z2Nat.id in Hscan by lia. fold n in Hscan.
    specialize (Hscan ltac:(unfold len; lia)). cbv zeta in Hscan.
    destruct Hscan as [[-> Hnone]|(i & Hi & -> & Hgt & Hmax & Hfirst)].
    + left. cbn [fst]. split; [reflexivity|]. split; [reflexivity|].
      intros j [Hj1 Hj2]. apply Hnone. unfold len. lia.
    + right. exists i. cbn [fst].
      split; [unfold len in Hi; lia|]. split; [reflexivity|].
      split; [exact Hgt|]. split.
      { intros j [Hj1 Hj2]. apply Hmax. unfold len. lia. }
      split.
      { intros j [Hj1 Hj2] Hji. apply Hfirst. lia. }
      assert (Hle : (inject_Z i * bw <= 800)%Q).
      { assert (Hi' : (inject_Z i <= inject_Z hi)%Q)
          by (rewrite <- Zle_Qle; unfold len in Hi; lia).
        pose proof (Qfloor_le (800 / bw)) as Hfl. rewrite <- Vhi in Hfl.
        assert (E : (800 == 800 / bw * bw)%Q) by (field; intros E0; lra).
        rewrite E. apply Qmult_le_compat_r; lra. }
      split; [exact Hle|].
      intros Hi0. apply classify_known.
      apply Qmult_lt_0_compat; [|exact Hpos].
      change 0%Q with (inject_Z 0). rewrite <- Zlt_Qlt. exact Hi0.
Qed.

End Fundamental.

(** ** The voice analysis: the dominant bands *)

Lemma insertBy_Permutation {A : Type} (compare : A -> A -> number) (x : A)
    (l : list A) :
  Permutation (insertBy compare x l) (x :: l).
Proof.
  induction l as [|y l IH]; cbn [insertBy]; [reflexivity|].
  destruct (compare x y <? Fin 0)%num; [reflexivity|].
  rewrite IH. apply perm_swap.
Qed.

Lemma sortBy_Permutation {A : Type} (compare : A -> A -> number) (l : list A) :
  Permutation (sortBy compare l) l.
Proof.
  unfold sortBy.
  assert (H : forall acc, Permutation
                (fold_left (fun sorted x => insertBy compare x sorted) l acc)
                (acc ++ l)).
  { induction l as [|x l IH]; intros acc; cbn [fold_left].
    - now rewrite app_nil_r.
    - rewrite IH, insertBy_Permutation.
      change (x :: acc) with ([x] ++ acc).
      rewrite (Permutation_app_comm [x] acc), <- app_assoc. reflexivity. }
  apply (H []).
Qed.

Section Descending.
Import VoiceAnalysis.

Lemma insertBy_descending (x : FrequencyBand) (l : list FrequencyBand) :
  finite (value x) -> Forall (fun b => finite (value b)) l ->
  StronglySorted notBelow l ->
  StronglySorted notBelow
    (insertBy (fun a b : FrequencyBand => (value b - value a)%num) x l).
Proof.
  intros Hx Hl Hs. induction Hs as [|y rest Hrest IH Hy]; cbn [insertBy].
  - repeat constructor.
  - apply Forall_cons in Hl as [Hfy Hfrest].
    cbv beta.
    destruct (value x) as [a| | |] eqn:Ea; try contradiction.
    destruct (value y) as [b| | |] eqn:Eb; try contradiction.
    cbn [sub add neg].
    destruct (Fin (b + - a) <? Fin 0)%num eqn:E.
    + apply lt_Fin in E. constructor; [constructor; assumption|].
      constructor.
      * unfold notBelow. rewrite Ea, Eb. apply lt_Fin_false. lra.
      * rewrite List.Forall_forall in Hy, Hfrest |- *. intros r Hr.
        specialize (Hy r Hr). specialize (Hfrest r Hr).
        unfold notBelow in *. rewrite Ea. rewrite Eb in Hy.
        destruct (value r) as [c| | |]; try contradiction.
        apply lt_Fin_false in Hy. apply lt_Fin_false. lra.
    + apply lt_Fin_false in E. constructor; [apply IH; exact Hfrest|].
      rewrite List.Forall_forall in Hy |- *. intros r Hr.
      apply (Permutation_in _
               (insertBy_Permutation
                  (fun a b : FrequencyBand => (value b - value a)%num)
                  x rest)) in Hr.
      destruct Hr as [<-|Hr]; [|now apply Hy].
      unfold notBelow. rewrite Ea, Eb. apply lt_Fin_false. lra.
Qed.

Lemma sortBy_descending (l : list FrequencyBand) :
  Forall (fun b => finite (value b)) l ->
  StronglySorted notBelow
    (sortBy (fun a b : FrequencyBand => (value b - value a)%num) l).
Proof.
  intros Hl. unfold sortBy.
  assert (H : forall acc,
            Forall (fun b => finite (value b)) acc ->
            StronglySorted notBelow acc ->
            StronglySorted notBelow
              (fold_left
                 (fun sorted x =>
                    insertBy
                      (fun a b : FrequencyBand => (value b - value a)%num)
                      x sorted)
                 l acc)).
  { induction Hl as [|x l Hx Hl IH]; intros acc Hacc Hs; cbn [fold_left].
    - exact Hs.
    - apply IH.
      + rewrite List.Forall_forall in Hacc |- *. intros r Hr.
        apply (Permutation_in _
                 (insertBy_Permutation
                    (fun a b : FrequencyBand => (value b - value a)%num)
                    x acc)) in Hr.
        destruct Hr as [<-|Hr]; [exact Hx|now apply Hacc].
      + now apply insertBy_descending. }
  apply H; constructor.
Qed.

End Descending.

Lemma bands_keys_found :
  Forall (fun entry =>
            exists band,
              snd <$> List.find
                        (fun e => String.eqb (fst e) (fst entry))
                        VoiceAnalysis.bands = Some band)
         VoiceAnalysis.bands.
Proof.
  unfold VoiceAnalysis.bands.
  repeat (constructor; [eexists; reflexivity|]). constructor.
Qed.

Lemma bandList_in_unit (frequencyData : list number) :
  Forall in_unit frequencyData ->
  Forall (fun b => in_unit (VoiceAnalysis.value b))
         (VoiceAnalysis.bandList frequencyData).
Proof.
  intros Hunit. unfold VoiceAnalysis.bandList. apply Forall_fmap.
  eapply Forall_impl; [apply bands_keys_found|].
  intros entry Hfound. cbn [VoiceAnalysis.value compose].
  now apply get_defined.
Qed.

Lemma in_unit_finite (a : number) : in_unit a -> finite a.
Proof. now destruct a. Qed.

(** X19: The dominant bands are three of the seven bands, those of greatest
    mean magnitude in descending order: together with the four bands left
    out they are the seven bands sorted by descending value. *)
Theorem dominant_bands_are_top_three (frequencyData : list number) :
  Forall in_unit frequencyData ->
  let top := VoiceAnalysis.dominantBands
               (VoiceAnalysis.analysis frequencyData) in
  exists others,
    length top = 3 /\ length others = 4 /\
    Permutation (top ++ others) (VoiceAnalysis.bandList frequencyData) /\
    StronglySorted notBelow (top ++ others) /\
    Forall (fun b => in_unit (VoiceAnalysis.value b)) top.
Proof.
  intros Hunit. cbv zeta.
  unfold VoiceAnalysis.analysis. cbv zeta. cbn [VoiceAnalysis.dominantBands].
  set (sorted := sortBy _ (VoiceAnalysis.bandList frequencyData)).
  pose proof (sortBy_Permutation
                (fun a b => (VoiceAnalysis.value b - VoiceAnalysis.value a)%num)
                (VoiceAnalysis.bandList frequencyData)) as Hperm.
  fold sorted in Hperm.
  pose proof (bandList_in_unit frequencyData Hunit) as Hall.
  assert (Hlen : length sorted = 7).
  { rewrite (Permutation_length Hperm). unfold VoiceAnalysis.bandList.
    now rewrite length_map. }
  assert (Hsorted : StronglySorted notBelow sorted).
  { apply sortBy_descending.
    eapply Forall_impl; [exact Hall|]. intros b. apply in_unit_finite. }
  unfold slice. rewrite drop_0. change (3 - 0) with 3.
  exists (drop 3 sorted).
  split; [rewrite length_take; lia|]. split; [rewrite length_drop; lia|].
  rewrite take_drop. split; [exact Hperm|]. split; [exact Hsorted|].
  apply Forall_take.
  rewrite List.Forall_forall in Hall |- *. intros b Hb.
  apply Hall. now apply (Permutation_in _ Hperm).
Qed.

(** ** The further facts at concrete inputs *)

Lemma image_is_opaque_rgba_witness :
  let image :=
    {| image_width := 2; image_height := 2;
       data := [78; 203; 107; 255; 255; 0; 0; 255;
                0; 0; 0; 255; 255; 187; 0; 255]%Z |} in
  canvasData true smallSpectrogram = Some image /\
  length (data image) = 4 * width smallSpectrogram * height smallSpectrogram /\
  Forall (fun b => (0 <= b <= 255)%Z) (data image).
Proof.
  cbv zeta.
  assert (H : canvasData true smallSpectrogram =
              Some {| image_width := 2; image_height := 2;
                      data := [78; 203; 107; 255; 255; 0; 0; 255;
                               0; 0; 0; 255; 255; 187; 0; 255]%Z |})
    by (vm_compute; reflexivity).
  split; [exact H|].
  pose proof (image_is_opaque_rgba true smallSpectrogram _ H) as P.
  destruct P as (_ & _ & _ & _ & _ & Plen & Pbytes & _).
  split; [exact Plen|exact Pbytes].
Defined.

Lemma no_positive_magnitude_witness :
  let sp := [[Fin 0; Fin (-1 # 2)]; [NaN; Fin 0]] in
  let image :=
    {| image_width := 2; image_height := 2;
       data := [0; 0; 0; 255; 0; 0; 0; 255;
                0; 0; 0; 255; 0; 0; 0; 255]%Z |} in
  canvasData true sp = Some image /\
  data image !! ((0 * width sp + 1) * 4 + 2) = Some 0%Z.
Proof.
  cbv zeta. split; [vm_compute; reflexivity|].
  apply (no_positive_magnitude_paints_black
           [[Fin 0; Fin (-1 # 2)]; [NaN; Fin 0]]
           {| image_width := 2; image_height := 2;
              data := [0; 0; 0; 255; 0; 0; 0; 255;
                       0; 0; 0; 255; 0; 0; 0; 255]%Z |} 1 0 2).
  - vm_compute. reflexivity.
  - repeat constructor.
  - vm_compute. lia.
  - vm_compute. lia.
  - lia.
Defined.

Lemma degenerate_range_red_witness :
  let image :=
    {| image_width := 2; image_height := 2;
       data := [255; 0; 0; 255; 255; 0; 0; 255;
                255; 0; 0; 255; 255; 0; 0; 255]%Z |} in
  canvasData true constantSignal = Some image /\
  data image !! ((1 * width constantSignal + 0) * 4 + 0) = Some 255%Z.
Proof.
  cbv zeta. split; [vm_compute; reflexivity|].
  apply (degenerate_range_paints_positive_cells_red constantSignal
           {| image_width := 2; image_height := 2;
              data := [255; 0; 0; 255; 255; 0; 0; 255;
                       255; 0; 0; 255; 255; 0; 0; 255]%Z |} 0 1 0).
  - vm_compute. reflexivity.
  - repeat constructor.
  - vm_compute. lia.
  - vm_compute. lia.
  - lia.
  - vm_compute. reflexivity.
  - vm_compute. reflexivity.
Defined.

Lemma percentile_clamp_witness :
  (p5 smallSpectrogram <? p95 smallSpectrogram)%num = true /\
  same_number
    (normalizedMagnitude (p5 smallSpectrogram) (p95 smallSpectrogram)
       (cell smallSpectrogram 0 0))
    (Fin 0) /\
  same_number
    (normalizedMagnitude (p5 smallSpectrogram) (p95 smallSpectrogram)
       (cell smallSpectrogram 1 1))
    (Fin 1).
Proof.
  split; [vm_compute; reflexivity|].
  pose proof (percentile_clamp_saturates smallSpectrogram 0 0
                ltac:(repeat constructor) ltac:(vm_compute; lia)
                ltac:(vm_compute; lia) ltac:(vm_compute; reflexivity)
                ltac:(vm_compute; reflexivity)) as P.
  pose proof (percentile_clamp_saturates smallSpectrogram 1 1
                ltac:(repeat constructor) ltac:(vm_compute; lia)
                ltac:(vm_compute; lia) ltac:(vm_compute; reflexivity)
                ltac:(vm_compute; reflexivity)) as P'.
  cbv zeta in P, P'.
  destruct P as (Plow & _ & _). destruct P' as (_ & Phigh & _).
  split.
  - apply Plow. vm_compute. reflexivity.
  - apply Phigh. vm_compute. reflexivity.
Defined.

Lemma rendered_cells_witness :
  canvasData true [[Fin (1 # 4); Fin (1 # 2)]; [Fin (3 # 4)]] =
  canvasData true [[Fin (1 # 4); Fin (1 # 2)]; [Fin (3 # 4); NaN; Fin 9]].
Proof.
  apply (image_depends_on_rendered_cells true
           [[Fin (1 # 4); Fin (1 # 2)]; [Fin (3 # 4)]]
           [[Fin (1 # 4); Fin (1 # 2)]; [Fin (3 # 4); NaN; Fin 9]]).
  - reflexivity.
  - reflexivity.
  - intros x y Hx Hy. cbn in Hx, Hy.
    destruct x as [|[|x]]; [| |lia]; (destruct y as [|[|y]]; [| |lia]);
      reflexivity.
Defined.

Lemma percentiles_witness :
  exists low high : Q,
    p5 smallSpectrogram = Fin low /\ p95 smallSpectrogram = Fin high /\
    (0 < low)%Q /\ (low <= high)%Q.
Proof.
  pose proof (percentiles_are_order_statistics smallSpectrogram 0 0
                ltac:(repeat constructor) ltac:(vm_compute; lia)
                ltac:(vm_compute; lia) ltac:(vm_compute; reflexivity)) as P.
  cbv zeta in P.
  destruct P as (low & high & P5 & P95 & _ & _ & Hpos & Hle & _).
  exists low, high. repeat split; assumption.
Defined.

Lemma heat_colors_witness :
  let c := heatColor (Fin (1 # 2)) in
  red c = of_Z (channel 0 c) /\ green c = of_Z (channel 1 c) /\
  blue c = of_Z (channel 2 c) /\ alpha c = of_Z (channel 3 c).
Proof.
  apply (heat_colors_are_bytes (Fin (1 # 2))). split; lra.
Defined.

Lemma heat_red_witness :
  (channel 0 (heatColor (Fin (6 # 10))) <=
   channel 0 (heatColor (Fin (8 # 10))))%Z /\
  channel 0 (heatColor (Fin (8 # 10))) = 255%Z.
Proof.
  pose proof (heat_red_is_monotone (6 # 10) (8 # 10)
                ltac:(lra) ltac:(lra) ltac:(lra)) as [P _].
  pose proof (heat_red_is_monotone (8 # 10) 1
                ltac:(lra) ltac:(lra) ltac:(lra)) as [_ P'].
  split; [exact P|]. apply P'. lra.
Defined.

Lemma frames_tail_witness :
  let audioData := replicate 1025 (Fin 0) in
  let n := length (generateFullSpectrogram audioData (Fin 44100)) in
  0 < n /\
  (forall k row,
     generateFullSpectrogram audioData (Fin 44100) !! k = Some row ->
     k * hopSize + windowSize < length audioData /\
     length (slice audioData (k * hopSize) (k * hopSize + windowSize)) =
       windowSize) /\
  1 <= length audioData - ((n - 1) * hopSize + windowSize) <= hopSize.
Proof.
  cbv zeta.
  apply (frames_leave_a_short_tail (replicate 1025 (Fin 0)) (Fin 44100)).
  rewrite length_replicate. vm_compute. lia.
Defined.

Lemma silent_recording_witness :
  Forall (Forall (fun v => same_number v (Fin 0)))
    (generateFullSpectrogram (replicate 1025 (Fin 0)) (Fin 44100)).
Proof.
  pose proof (silent_recording_is_black (replicate 1025 (Fin 0)) (Fin 44100)
                ltac:(apply Forall_replicate; reflexivity)
                ltac:(rewrite length_replicate; vm_compute; lia)) as P.
  destruct P as [P _]. exact P.
Defined.

Lemma idle_frames_witness :
  let st := {| analyserRef := None; isRecording := true;
               frequencyData := [Fin 1]; spectrogramData := [[Fin 1]];
               realtimeSpectrogramRef := [] |} in
  frequencyData (run st [[1; 2]; [3]]%Z) = frequencyData st /\
  spectrogramData (run st [[1; 2]; [3]]%Z) = spectrogramData st /\
  realtimeSpectrogramRef (run st [[1; 2]; [3]]%Z) = realtimeSpectrogramRef st.
Proof.
  cbv zeta. apply idle_frames_change_nothing. left. reflexivity.
Defined.

Lemma voice_meters_witness :
  let a := VoiceAnalysis.analysis [Fin (1 # 2); Fin 1; Fin 0; Fin (1 # 4)] in
  in_percent (VoiceAnalysis.brightness a) /\
  in_percent (VoiceAnalysis.warmth a) /\
  in_percent (VoiceAnalysis.clarity a) /\
  in_percent (VoiceAnalysis.energy a).
Proof.
  apply (voice_meters_stay_in_range [Fin (1 # 2); Fin 1; Fin 0; Fin (1 # 4)]).
  repeat (constructor; [split; lra|]). constructor.
Defined.

Section VoiceWitnesses.
Import Ascii String.

Lemma fundamental_witness :
  let frequencyData :=
    [Fin (1 # 4); Fin (3 # 4); Fin (3 # 4)] ++ replicate 61 (Fin 0) in
  List.length frequencyData = 2 ^ 6 /\
  fst (VoiceAnalysis.fundamental frequencyData) =
    Fin (inject_Z 1 *
         (44100 / 2 / inject_Z (Z.of_nat (List.length frequencyData)))) /\
  (binValue frequencyData 0 < binValue frequencyData 1)%Q /\
  (binValue frequencyData 2 <= binValue frequencyData 1)%Q /\
  VoiceAnalysis.voiceType (VoiceAnalysis.analysis frequencyData) <>
    "Unknown"%string /\
  VoiceAnalysis.voiceType (VoiceAnalysis.analysis frequencyData) =
    "High voice/Falsetto"%string /\
  VoiceAnalysis.fundamentalFrequency (VoiceAnalysis.analysis frequencyData) =
    Fin 345.
Proof.
  cbv zeta.
  set (data := [Fin (1 # 4); Fin (3 # 4); Fin (3 # 4)] ++ replicate 61 (Fin 0)).
  assert (E0 : (binValue data 0 == 1 # 4)%Q) by reflexivity.
  assert (E1 : (binValue data 1 == 3 # 4)%Q) by reflexivity.
  assert (E2 : (binValue data 2 == 3 # 4)%Q) by reflexivity.
  pose proof (fundamental_is_first_peak data
                ltac:(apply Forall_app; split;
                        [repeat constructor | apply Forall_replicate; exact I])
                ltac:(exists 6; reflexivity)) as P.
  cbv zeta in P. destruct P as (_ & _ & P).
  repeat match type of P with
         | context [Qfloor ?e] =>
             let v := eval vm_compute in (Qfloor e) in
             change (Qfloor e) with v in P
         end.
  change (Z.of_nat (List.length data)) with 64%Z in P.
  split; [reflexivity|].
  destruct P as [(_ & _ & Hnone)|(i & Hsc & Hf & Hpos & Hmax & Hfirst & _ & Hknown)].
  - specialize (Hnone 1%Z ltac:(lia)). lra.
  - assert (Hi : (i = 0 \/ i = 1 \/ i = 2)%Z) by lia.
    destruct Hi as [-> | [-> | ->]].
    + specialize (Hmax 1%Z ltac:(lia)). lra.
    + split; [exact Hf|]. split; [lra|]. split; [lra|].
      split; [apply Hknown; lia|]. split; vm_compute; reflexivity.
    + specialize (Hfirst 1%Z ltac:(lia) ltac:(lia)). lra.
Defined.

Lemma dominant_bands_witness :
  let frequencyData :=
    [Fin (1 # 10); Fin (9 # 10);
     Fin (1 # 2); Fin (1 # 2); Fin (1 # 2); Fin (1 # 2);
     Fin (1 # 5); Fin (1 # 5); Fin (1 # 5); Fin (1 # 5); Fin (1 # 5);
     Fin (1 # 5);
     Fin (3 # 10); Fin (3 # 10); Fin (3 # 10); Fin (3 # 10); Fin (3 # 10);
     Fin (3 # 10)] ++ replicate 46 (Fin 0) in
  let top := VoiceAnalysis.dominantBands
               (VoiceAnalysis.analysis frequencyData) in
  (exists others,
     List.length top = 3 /\ List.length others = 4 /\
     Permutation (top ++ others) (VoiceAnalysis.bandList frequencyData) /\
     StronglySorted notBelow (top ++ others) /\
     Forall (fun b => in_unit (VoiceAnalysis.value b)) top) /\
  map VoiceAnalysis.name top =
    ["Midrange"%string; "Low-mid"%string; "Presence"%string] /\
  map (fun b => Qred (val (VoiceAnalysis.value b))) top =
    [29 # 50; 1 # 2; 2 # 7]%Q /\
  map (fun b => Qred (val (VoiceAnalysis.value b)))
      (VoiceAnalysis.bandList frequencyData) =
    [1 # 10; 1 # 10; 1 # 2; 29 # 50; 17 # 70; 2 # 7; 3 # 70]%Q.
Proof.
  cbv zeta. split; [|split; [|split]]; [|vm_compute; reflexivity..].
  apply dominant_bands_are_top_three.
  apply Forall_app. split.
  - repeat (constructor; [split; lra|]). constructor.
  - apply Forall_replicate. split; lra.
Defined.

End VoiceWitnesses.
